(** * sensitive_info_extractor: the scanning core of [SensitiveInfoExtractor]

    A shallow embedding of [src/sensitive_extractor.py] (class
    [SensitiveInfoExtractor]): rule loading and compilation, the text/binary
    classifier, the multi-encoding content reader, the per-file scanner, the
    directory walker and [scan_directory] with its statistics.

    Python values are rendered as follows.
    - [str] is [string]; [bytes] is [list byte]. The source cuts strings at
      ['\n'], ['/'] and ['.'] and at the positions a regular expression
      reports, and compares them with ASCII literals; where it asks Python
      for more, as in [str.lower()], the answer for a string with
      characters beyond ASCII is a field of [World].
    - a [dict] keyed by [str] is a [gmap string _], a [set] of [str] a
      [gset string], a [list] a [list].
    - the instance attributes of the extractor are the fields of the record
      [Extractor]; a method is a function from the extractor before the call
      to the extractor after it, paired with what the method returns.
    - an exception is the [Raise] case of [Result]; its payload is [str(e)].
    - a callback given to the constructor is what it does when called:
      return, or raise an exception, rendered as [str(e)].
    - everything the class obtains from outside the source file (the file
      system, [mimetypes], the codecs, the case tables of [str], [re], the
      clock) is a field of the record [World].
    - the worker threads of [scan_directory] are a list of events, the
      instants at which a thread reads or writes an attribute of the
      extractor. *)

From Stdlib Require Import Strings.String Strings.Ascii Strings.Byte.
From Stdlib Require Import Lists.List Arith.Arith Lia Sorting.Sorted Sorting.Permutation.
From Stdlib Require Import ZArith.
From stdpp Require Import base option list sorting strings pretty gmap fin_maps fin_sets.
Import ListNotations.

Local Open Scope string_scope.
Local Open Scope list_scope.

(** ** Strings *)

Module PyStr.

(** The line feed, ['\n']. *)
Definition LF : ascii := "010"%char.

(** [c in s]. *)
Fixpoint has_char (c : ascii) (s : string) : bool :=
  match s with
  | EmptyString => false
  | String a rest => Ascii.eqb a c || has_char c rest
  end.

(** [s.split(sep)] for a one-character separator: never the empty list,
    [''.split(sep) == ['']]. *)
Fixpoint split (sep : ascii) (s : string) : list string :=
  match s with
  | EmptyString => [EmptyString]
  | String a rest =>
      if Ascii.eqb a sep then EmptyString :: split sep rest
      else match split sep rest with
           | [] => [String a EmptyString]
           | piece :: pieces => String a piece :: pieces
           end
  end.

(** [s.startswith(p)]. *)
Definition startswith (p s : string) : bool := String.prefix p s.

(** [s.isascii()]. *)
Fixpoint isascii (s : string) : bool :=
  match s with
  | EmptyString => true
  | String a rest => (nat_of_ascii a <? 128)%nat && isascii rest
  end.

(** [s.lower()] of a string of ASCII characters: the letters [A] to [Z]
    become [a] to [z]. What [lower] does to other characters is in the case
    tables of Python, see [str_lower] below. *)
Definition lower_char (a : ascii) : ascii :=
  let n := nat_of_ascii a in
  if ((65 <=? n) && (n <=? 90))%nat then ascii_of_nat (n + 32) else a.

Fixpoint lower (s : string) : string :=
  match s with
  | EmptyString => EmptyString
  | String a rest => String (lower_char a) (lower rest)
  end.

(** [enumerate(l, start)]. *)
Fixpoint enumerate {A} (l : list A) (start : nat) : list (nat * A) :=
  match l with
  | [] => []
  | x :: rest => (start, x) :: enumerate rest (S start)
  end.

(** Truthiness of a [str]: [if not content]. *)
Definition is_empty (s : string) : bool :=
  match s with EmptyString => true | _ => false end.

(** [s.lstrip(c)] for one character. *)
Fixpoint lstrip (c : ascii) (s : string) : string :=
  match s with
  | EmptyString => EmptyString
  | String a rest => if Ascii.eqb a c then lstrip c rest else s
  end.

End PyStr.

(** [sep.join(pieces)]. *)
Fixpoint join_with (sep : ascii) (pieces : list string) : string :=
  match pieces with
  | [] => EmptyString
  | piece :: rest =>
      match rest with
      | [] => piece
      | _ => String.append piece (String sep (join_with sep rest))
      end
  end.

(** ** Regular expressions

    [re] is outside the source. A compiled pattern is what the scanner uses
    of it: [finditer], which for a subject string yields match objects in
    order; a match object is its span, and [match.group(0)] is the slice
    [subject[start:end]] of the subject. *)

Module Re.

Record Match := { m_start : nat; m_end : nat }.

Definition Pattern := string -> list Match.

Definition finditer (p : Pattern) (subject : string) : list Match := p subject.

Definition group0 (subject : string) (m : Match) : string :=
  substring (m_start m) (m_end m - m_start m) subject.

End Re.

(** ** Exceptions *)

Inductive Result (A : Type) : Type :=
| Ok (a : A)
| Raise (e : string).
Arguments Ok {A} a.
Arguments Raise {A} e.

(** ** Rules *)

(** One entry of the rule mapping: the [dict] with keys ["regex"],
    ["description"], ["risk_level"], ["enabled"]. The scanner reads the last
    one with [.get('enabled', True)], so the key may be absent. *)
Record PatternInfo := {
  regex : string;
  description : string;
  risk_level : string;
  enabled : option bool
}.

(** [pattern_info.get('enabled', True)]. *)
Definition get_enabled (info : PatternInfo) : bool := default true (enabled info).

(** One recorded occurrence: [(match.group(0), line_num)]. *)
Definition MatchEntry : Type := string * nat.

(** ** The match loops of [scan_file] *)

(** [for match in compiled_pattern.finditer(line):
       matches.append((match.group(0), line_num))] *)
Definition scan_line (pat : Re.Pattern) (matches : list MatchEntry)
    (entry : nat * string) : list MatchEntry :=
  let '(line_num, line) := entry in
  fold_left (fun acc m => acc ++ [(Re.group0 line m, line_num)])
            (Re.finditer pat line) matches.

(** [matches = []; for line_num, line in enumerate(lines, 1): ...] *)
Definition find_matches (pat : Re.Pattern) (lines : list string) : list MatchEntry :=
  fold_left (scan_line pat) (PyStr.enumerate lines 1) [].

(** What one numbered line contributes on its own: the matches found in
    that line, each tagged with the line's number. *)
Definition line_entries (pat : Re.Pattern) (entry : nat * string) : list MatchEntry :=
  map (fun m => (Re.group0 (snd entry) m, fst entry))
      (Re.finditer pat (snd entry)).

(** The body of the loop over [self.compiled_patterns.items()], on the
    outcome so far. [self.patterns[pattern_name]] raises [KeyError] for a
    name without a rule. Within one call the cancellation flag is the one
    read at the head of the iteration; [break] leaves the outcome as it is
    for this and every later iteration. *)
Definition pattern_step (patterns : gmap string PatternInfo)
    (cancelled : bool) (lines : list string)
    (pattern_name : string) (compiled_pattern : Re.Pattern)
    (acc : Result (gmap string (list MatchEntry)))
    : Result (gmap string (list MatchEntry)) :=
  match acc with
  | Raise e => Raise e
  | Ok file_results =>
      if cancelled then Ok file_results
      else match patterns !! pattern_name with
           | None => Raise (String.append "'" (String.append pattern_name "'"))
           | Some info =>
               if negb (get_enabled info) then Ok file_results
               else
                 let matches := find_matches compiled_pattern lines in
                 match matches with
                 | [] => Ok file_results
                 | _ => Ok (<[pattern_name := matches]> file_results)
                 end
           end
  end.

(** Lines 340 to 363 of the source: from the decoded content to
    [file_results]. *)
Definition scan_content (patterns : gmap string PatternInfo)
    (compiled_patterns : gmap string Re.Pattern) (cancelled : bool)
    (content : string) : Result (gmap string (list MatchEntry)) :=
  let lines := PyStr.split PyStr.LF content in
  map_fold (pattern_step patterns cancelled lines) (Ok ∅) compiled_patterns.

(** ** The world outside the source file *)

(** The encodings [read_file_content] lists. *)
Inductive Encoding := utf_8 | gbk | gb2312 | utf_16 | latin_1.

(** What decoding a whole file in text mode does: text, a
    [UnicodeDecodeError], or an exception of another class. *)
Inductive TextDecode :=
| Decoded (text : string)
| UnicodeDecodeError
| OtherError (msg : string).

(** What opening and reading a file does: the bytes, or an [OSError]
    ([IOError] is the same class) with its message. *)
Inductive IOResult :=
| IOBytes (data : list byte)
| IOFail (msg : string).

#[local] Set Warnings "-register-all".

(** A directory entry as [os.walk] sees it. *)
Inductive Entry :=
| EFile (name : string)
| EDir (name : string) (children : list Entry).

Record World := {
  (** [Path(p).exists()], [Path(p).is_dir()] *)
  path_exists : string -> bool;
  path_is_dir : string -> bool;
  (** the entries of a directory, in the order [os.walk] lists them *)
  listing : string -> list Entry;
  (** [mimetypes.guess_type(p)[0]] *)
  guess_type : string -> option string;
  (** [s.lower()] for a string with characters beyond ASCII *)
  unicode_lower : string -> string;
  (** [open(p, 'rb')] followed by reading the file *)
  open_rb : string -> IOResult;
  (** [data.decode(enc)]: [None] is [UnicodeDecodeError] *)
  bytes_decode : Encoding -> list byte -> option string;
  (** the decoder of a file opened with [encoding=enc], for the encodings
      other than Latin-1 *)
  text_decode : Encoding -> list byte -> TextDecode;
  (** [re.compile(regex, re.DOTALL)]: the pattern or [str(e)] *)
  re_compile : string -> Result Re.Pattern;
  (** [datetime.now()] at the start and at the end of a scan *)
  clock_start : nat;
  clock_end : nat
}.

(** [s.lower()]. On a string of ASCII characters it lowers the letters [A]
    to [Z]; a string with other characters is lowered by the case tables of
    Python, which also send some of them to ASCII letters (the Kelvin sign
    to [k]). *)
Definition str_lower (w : World) (s : string) : string :=
  if PyStr.isascii s then PyStr.lower s else unicode_lower w s.

(** ** Paths

    [pathlib] and [os.path] on a POSIX system. *)

Module Path.

(** [splitroot] of the POSIX flavour: the root and the rest. Exactly two
    leading slashes are kept as the root, any other number is one slash. *)
Definition splitroot (p : string) : string * string :=
  match p with
  | String a _ =>
      if Ascii.eqb a "/" then
        let stripped := PyStr.lstrip "/" p in
        if (String.length p - String.length stripped =? 2)%nat
        then ("//", stripped) else ("/", stripped)
      else ("", p)
  | EmptyString => ("", p)
  end.

(** The components of [Path(p)] after the root: empty components and ["."]
    are dropped. *)
Definition parts (p : string) : list string :=
  List.filter (fun c => negb (String.eqb c "" || String.eqb c "."))
              (PyStr.split "/"%char (snd (splitroot p))).

(** [str(Path(p))]: the root and the components joined by slashes, and
    ["."] when there is neither. This is the string [os.walk], [open] and
    the f-strings get from a [Path]. *)
Definition str (p : string) : string :=
  let s := String.append (fst (splitroot p)) (join_with "/" (parts p)) in
  if PyStr.is_empty s then "." else s.

(** [s.rfind(c)]. *)
Fixpoint rfind (c : ascii) (s : string) : option nat :=
  match s with
  | EmptyString => None
  | String a rest =>
      match rfind c rest with
      | Some i => Some (S i)
      | None => if Ascii.eqb a c then Some 0 else None
      end
  end.

(** [Path(p).name]: the final component; empty components and ["."] are
    dropped by [Path]. *)
Definition name (p : string) : string :=
  List.last (List.filter (fun c => negb (String.eqb c "" || String.eqb c "."))
                         (PyStr.split "/"%char p)) "".

(** [Path(p).suffix]:
    [i = name.rfind('.'); name[i:] if 0 < i < len(name) - 1 else '']. *)
Definition suffix (p : string) : string :=
  let n := name p in
  match rfind "."%char n with
  | Some i =>
      if ((0 <? i) && (i <? String.length n - 1))%nat
      then substring i (String.length n - i) n
      else ""
  | None => ""
  end.

(** [os.path.join(root, file)] for a [file] without a slash. *)
Definition join (root file : string) : string :=
  match root with
  | EmptyString => file
  | _ =>
      if String.eqb (substring (String.length root - 1) 1 root) "/"
      then String.append root file
      else String.append root (String.append "/" file)
  end.

(** [os.path.basename(p)]: [i = p.rfind('/') + 1; p[i:]]. *)
Definition basename (p : string) : string :=
  match rfind "/"%char p with
  | Some i => substring (S i) (String.length p - S i) p
  | None => p
  end.

End Path.

(** ** The extractor *)

Record Stats := {
  total_files : nat;
  stat_scanned_files : nat;
  stat_skipped_files : nat;
  stat_error_files : nat;
  sensitive_items : nat;
  start_time : option nat;
  end_time : option nat
}.

(** A callback is what calling it does: [None] when it returns, [str(e)]
    when it raises the exception [e]. It does not call back into the
    extractor. The progress callback is called with
    [(completed / len(all_files)) * 100], given here by the two integers,
    and with the name of the current file; the status callback with a
    message. *)
Definition ProgressCallback : Type := nat -> nat -> string -> option string.
Definition StatusCallback : Type := string -> option string.

Record Extractor := {
  progress_callback : option ProgressCallback;
  status_callback : option StatusCallback;
  patterns : gmap string PatternInfo;
  compiled_patterns : gmap string Re.Pattern;
  results : gmap string (gmap string (list MatchEntry));
  scanned_files : list string;
  skipped_files : list string;
  error_files : list (string * string);
  is_scanning : bool;
  scan_cancelled : bool;
  stats : Stats
}.

(** Assignments to one attribute. *)
Definition set_results (v : gmap string (gmap string (list MatchEntry)))
    (self : Extractor) : Extractor :=
  {| progress_callback := progress_callback self;
     status_callback := status_callback self;
     patterns := patterns self; compiled_patterns := compiled_patterns self;
     results := v; scanned_files := scanned_files self;
     skipped_files := skipped_files self; error_files := error_files self;
     is_scanning := is_scanning self; scan_cancelled := scan_cancelled self;
     stats := stats self |}.

Definition set_scanned_files (v : list string) (self : Extractor) : Extractor :=
  {| progress_callback := progress_callback self;
     status_callback := status_callback self;
     patterns := patterns self; compiled_patterns := compiled_patterns self;
     results := results self; scanned_files := v;
     skipped_files := skipped_files self; error_files := error_files self;
     is_scanning := is_scanning self; scan_cancelled := scan_cancelled self;
     stats := stats self |}.

Definition set_skipped_files (v : list string) (self : Extractor) : Extractor :=
  {| progress_callback := progress_callback self;
     status_callback := status_callback self;
     patterns := patterns self; compiled_patterns := compiled_patterns self;
     results := results self; scanned_files := scanned_files self;
     skipped_files := v; error_files := error_files self;
     is_scanning := is_scanning self; scan_cancelled := scan_cancelled self;
     stats := stats self |}.

Definition set_error_files (v : list (string * string)) (self : Extractor) : Extractor :=
  {| progress_callback := progress_callback self;
     status_callback := status_callback self;
     patterns := patterns self; compiled_patterns := compiled_patterns self;
     results := results self; scanned_files := scanned_files self;
     skipped_files := skipped_files self; error_files := v;
     is_scanning := is_scanning self; scan_cancelled := scan_cancelled self;
     stats := stats self |}.

Definition set_is_scanning (v : bool) (self : Extractor) : Extractor :=
  {| progress_callback := progress_callback self;
     status_callback := status_callback self;
     patterns := patterns self; compiled_patterns := compiled_patterns self;
     results := results self; scanned_files := scanned_files self;
     skipped_files := skipped_files self; error_files := error_files self;
     is_scanning := v; scan_cancelled := scan_cancelled self;
     stats := stats self |}.

Definition set_scan_cancelled (v : bool) (self : Extractor) : Extractor :=
  {| progress_callback := progress_callback self;
     status_callback := status_callback self;
     patterns := patterns self; compiled_patterns := compiled_patterns self;
     results := results self; scanned_files := scanned_files self;
     skipped_files := skipped_files self; error_files := error_files self;
     is_scanning := is_scanning self; scan_cancelled := v;
     stats := stats self |}.

Definition set_stats (v : Stats) (self : Extractor) : Extractor :=
  {| progress_callback := progress_callback self;
     status_callback := status_callback self;
     patterns := patterns self; compiled_patterns := compiled_patterns self;
     results := results self; scanned_files := scanned_files self;
     skipped_files := skipped_files self; error_files := error_files self;
     is_scanning := is_scanning self; scan_cancelled := scan_cancelled self;
     stats := v |}.

(** [self.text_extensions] and [self.binary_extensions]: set once by
    [__init__] and only read afterwards. *)
Definition text_extensions : gset string :=
  list_to_set [
    ".txt"; ".md"; ".py"; ".js"; ".html"; ".htm"; ".css"; ".xml"; ".json";
    ".yml"; ".yaml"; ".ini"; ".cfg"; ".conf"; ".config"; ".properties";
    ".sql"; ".sh"; ".bat"; ".ps1"; ".php"; ".java"; ".cpp"; ".c"; ".h";
    ".cs"; ".go"; ".rs"; ".rb"; ".pl"; ".swift"; ".kt"; ".scala"; ".clj";
    ".lua"; ".r"; ".m"; ".dart"; ".tsx"; ".jsx"; ".vue"; ".log"; ".env";
    ".dockerfile"; ".makefile"; ".gitignore"; ".gitattributes"; ".editorconfig"
  ].

Definition binary_extensions : gset string :=
  list_to_set [
    ".exe"; ".dll"; ".so"; ".dylib"; ".bin"; ".dat"; ".db"; ".sqlite";
    ".jpg"; ".jpeg"; ".png"; ".gif"; ".bmp"; ".ico"; ".svg"; ".webp";
    ".mp4"; ".avi"; ".mkv"; ".mov"; ".wmv"; ".flv"; ".webm"; ".m4v";
    ".mp3"; ".wav"; ".flac"; ".aac"; ".ogg"; ".wma"; ".m4a";
    ".zip"; ".rar"; ".7z"; ".tar"; ".gz"; ".bz2"; ".xz"; ".lzma";
    ".pdf"; ".doc"; ".docx"; ".xls"; ".xlsx"; ".ppt"; ".pptx";
    ".class"; ".jar"; ".war"; ".ear"; ".pyc"; ".pyo"; ".pyd"
  ].

(** *** [__init__] *)

(** The line [__init__] prints for a rule that does not compile. *)
Definition compile_warning (name e : string) : string :=
  String.append "警告: 无法编译正则表达式 '"
    (String.append name (String.append "': " e)).

(** One iteration of the compilation loop: the compiled mapping and the
    lines printed so far. *)
Definition compile_step (w : World) (name : string) (pattern_info : PatternInfo)
    (acc : gmap string Re.Pattern * list string)
    : gmap string Re.Pattern * list string :=
  match re_compile w (regex pattern_info) with
  | Ok compiled => (<[name := compiled]> (fst acc), snd acc)
  | Raise e => (fst acc, snd acc ++ [compile_warning name e])
  end.

Definition compile_patterns (w : World) (rules : gmap string PatternInfo)
    : gmap string Re.Pattern * list string :=
  map_fold (compile_step w) (∅, []) rules.

Definition initial_stats : Stats :=
  {| total_files := 0; stat_scanned_files := 0; stat_skipped_files := 0;
     stat_error_files := 0; sensitive_items := 0;
     start_time := None; end_time := None |}.

(** [SensitiveInfoExtractor(progress_callback, status_callback)], with
    [rules] what [load_patterns] returned: the new extractor and the lines
    printed. *)
Definition init_with (w : World) (progress : option ProgressCallback)
    (status : option StatusCallback) (rules : gmap string PatternInfo)
    : Extractor * list string :=
  let '(compiled, printed) := compile_patterns w rules in
  ({| progress_callback := progress; status_callback := status;
      patterns := rules; compiled_patterns := compiled;
      results := ∅; scanned_files := []; skipped_files := [];
      error_files := []; is_scanning := false; scan_cancelled := false;
      stats := initial_stats |}, printed).

(** [SensitiveInfoExtractor()]: both callbacks default to [None]. *)
Definition init (w : World) (rules : gmap string PatternInfo)
    : Extractor * list string :=
  init_with w None None rules.

(** *** [is_text_file] *)

Definition structured_text_mime_types : list string :=
  ["application/json"; "application/xml"; "application/javascript"].

(** The [try] block at the end of [is_text_file]: the first 1024 bytes. *)
Definition sniff_text (w : World) (file_path : string) : bool :=
  match open_rb w file_path with
  | IOFail _ => false
  | IOBytes data =>
      let chunk := firstn 1024 data in
      if existsb (Byte.eqb x00) chunk then false
      else match bytes_decode w utf_8 chunk with
           | Some _ => true
           | None =>
               match bytes_decode w gbk chunk with
               | Some _ => true
               | None => false
               end
           end
  end.

(** [file_path = Path(file_path)] comes first: the MIME type is guessed
    from [str(file_path)] and the file is opened under that name. *)
Definition is_text_file (w : World) (file_path : string) : bool :=
  let sfx := str_lower w (Path.suffix file_path) in
  if bool_decide (sfx ∈ binary_extensions) then false
  else if bool_decide (sfx ∈ text_extensions) then true
  else
    match guess_type w (Path.str file_path) with
    | Some mime_type =>
        if PyStr.is_empty mime_type then sniff_text w (Path.str file_path)
        else PyStr.startswith "text/" mime_type
             || bool_decide (mime_type ∈ structured_text_mime_types)
    | None => sniff_text w (Path.str file_path)
    end.

(** *** [read_file_content] *)

Definition encodings : list Encoding := [utf_8; gbk; gb2312; utf_16; latin_1].

(** Latin-1 maps the byte [b] to the character of code [b]. *)
Definition decode_text (w : World) (enc : Encoding) (data : list byte) : TextDecode :=
  match enc with
  | latin_1 => Decoded (string_of_list_byte data)
  | _ => text_decode w enc data
  end.

(** Text mode reads with universal newlines: ['\r\n'] and ['\r'] become
    ['\n']. [after_cr] holds when the previous character was ['\r']. *)
Fixpoint universal_newlines (after_cr : bool) (s : string) : string :=
  match s with
  | EmptyString => EmptyString
  | String a rest =>
      if Ascii.eqb a "013"%char then String PyStr.LF (universal_newlines true rest)
      else if Ascii.eqb a PyStr.LF then
        if after_cr then universal_newlines false rest
        else String PyStr.LF (universal_newlines false rest)
      else String a (universal_newlines false rest)
  end.

(** [with open(file_path, 'r', encoding=enc) as f: return f.read()] *)
Definition read_text (w : World) (file_path : string) (enc : Encoding) : TextDecode :=
  match open_rb w file_path with
  | IOFail msg => OtherError msg
  | IOBytes data =>
      match decode_text w enc data with
      | Decoded text => Decoded (universal_newlines false text)
      | UnicodeDecodeError => UnicodeDecodeError
      | OtherError msg => OtherError msg
      end
  end.

(** How the loop over the encodings ends. *)
Inductive ReadAttempt :=
| ReadReturned (content : string)   (* [return f.read()] *)
| ReadFailed (msg : string)         (* [except Exception as e] *)
| ReadExhausted.                    (* the loop ran out of encodings *)

Fixpoint try_encodings (w : World) (file_path : string) (encs : list Encoding)
    : ReadAttempt :=
  match encs with
  | [] => ReadExhausted
  | encoding :: rest =>
      match read_text w file_path encoding with
      | Decoded content => ReadReturned content
      | UnicodeDecodeError => try_encodings w file_path rest
      | OtherError msg => ReadFailed msg
      end
  end.

Definition no_encoding_message : string := "无法使用任何编码读取文件".

Definition read_file_content (w : World) (file_path : string) (self : Extractor)
    : string * Extractor :=
  match try_encodings w file_path encodings with
  | ReadReturned content => (content, self)
  | ReadFailed msg =>
      ("", set_error_files (error_files self ++ [(file_path, msg)]) self)
  | ReadExhausted =>
      ("", set_error_files
             (error_files self ++ [(file_path, no_encoding_message)]) self)
  end.

(** *** [scan_file] *)

(** Lines 331 to 363: what a call does once it is past the test of the
    flag at line 328. The loop over the patterns reads the flag again. *)
Definition scan_file_body (w : World) (file_path : string) (self : Extractor)
    : Result (gmap string (list MatchEntry)) * Extractor :=
  if negb (is_text_file w file_path) then
    (Ok ∅, set_skipped_files (skipped_files self ++ [file_path]) self)
  else
    let '(content, self) := read_file_content w file_path self in
    if PyStr.is_empty content then (Ok ∅, self)
    else
      let self := set_scanned_files (scanned_files self ++ [file_path]) self in
      (scan_content (patterns self) (compiled_patterns self)
                    (scan_cancelled self) content, self).

Definition scan_file (w : World) (file_path : string) (self : Extractor)
    : Result (gmap string (list MatchEntry)) * Extractor :=
  if scan_cancelled self then (Ok ∅, self)
  else scan_file_body w file_path self.

(** *** [get_all_files] *)

Definition excluded_dirs : list string :=
  ["node_modules"; "__pycache__"; ".git"; ".svn"; "target"; "build";
   "dist"; "bin"; "obj"; "out"; ".idea"; ".vscode"].

Definition kept_hidden_files : list string :=
  [".env"; ".gitignore"; ".gitattributes"].

(** The filter that rewrites [dirs[:]]. *)
Definition keep_dir (d : string) : bool :=
  negb (PyStr.startswith "." d) && negb (bool_decide (d ∈ excluded_dirs)).

(** The files of a directory that are not passed over by [continue]. *)
Definition keep_file (file : string) : bool :=
  negb (PyStr.startswith "." file && negb (bool_decide (file ∈ kept_hidden_files))).

(** The files [os.walk] reports for one directory: [os.path.join(root, file)]
    for each kept file. *)
Definition files_of (root : string) (children : list Entry) : list string :=
  flat_map (fun c => match c with
                     | EFile file => if keep_file file then [Path.join root file] else []
                     | EDir _ _ => []
                     end) children.

(** [os.walk] at the directory [dir] whose path is [root]: the files of
    [root] first, then each kept subdirectory in turn. *)
Fixpoint walk (root : string) (dir : Entry) : list string :=
  match dir with
  | EFile _ => []
  | EDir _ children =>
      files_of root children
      ++ flat_map (fun c => match c with
                            | EFile _ => []
                            | EDir d _ =>
                                if keep_dir d then walk (Path.join root d) c else []
                            end) children
  end.

(** [directory_path = Path(directory_path)] comes first, and [os.walk]
    starts at [str(directory_path)]. *)
Definition get_all_files (w : World) (directory_path : string) : list string :=
  let top := Path.str directory_path in
  walk top (EDir top (listing w top)).

(** *** [cancel_scan] *)

Definition cancel_scan (self : Extractor) : Extractor :=
  set_scan_cancelled true self.

(** *** [scan_directory] *)

(** The exceptions that leave [scan_directory]: the two it raises itself,
    the [ValueError] of [ThreadPoolExecutor(max_workers=...)], and whatever
    a status callback raises outside the [try] block. *)
Inductive Exception :=
| FileNotFoundError (msg : string)
| NotADirectoryError (msg : string)
| ValueError (msg : string)
| CallbackError (msg : string).

(** [if self.status_callback: self.status_callback(message)] and
    [if self.progress_callback: self.progress_callback(progress, current_file)]:
    [None] when the call returns or there is no callback. *)
Definition call_status (self : Extractor) (message : string) : option string :=
  match status_callback self with
  | Some callback => callback message
  | None => None
  end.

Definition call_progress (self : Extractor) (completed total : nat)
    (current_file : string) : option string :=
  match progress_callback self with
  | Some callback => callback completed total current_file
  | None => None
  end.

(** The messages handed to the status callback. *)
Definition listing_message : string := "正在获取文件列表...".

Definition found_message (total : nat) : string :=
  String.append "找到 " (String.append (pretty total) " 个文件，开始扫描...").

Definition progress_message (completed total : nat) (current_file : string)
    : string :=
  String.append "扫描进度: "
    (String.append (pretty completed)
       (String.append "/"
          (String.append (pretty total) (String.append " - " current_file)))).

Definition closing_message (self : Extractor) : string :=
  if scan_cancelled self then "扫描已取消"
  else String.append "扫描完成！发现 "
         (String.append (pretty (sensitive_items (stats self))) " 个敏感信息").

(** [results[file_path][pattern_name].extend(matches)], creating the list
    when the name is new, and [stats['sensitive_items'] += len(matches)]. *)
Definition merge_pattern (pattern_name : string) (matches : list MatchEntry)
    (acc : gmap string (list MatchEntry) * nat)
    : gmap string (list MatchEntry) * nat :=
  (<[pattern_name := default [] (fst acc !! pattern_name) ++ matches]> (fst acc),
   snd acc + length matches).

Definition set_sensitive_items (n : nat) (s : Stats) : Stats :=
  {| total_files := total_files s; stat_scanned_files := stat_scanned_files s;
     stat_skipped_files := stat_skipped_files s;
     stat_error_files := stat_error_files s; sensitive_items := n;
     start_time := start_time s; end_time := end_time s |}.

(** The body of [if file_results:]. *)
Definition merge_results (file_path : string)
    (file_results : gmap string (list MatchEntry)) (self : Extractor) : Extractor :=
  let per_file := default ∅ (results self !! file_path) in
  let '(per_file, items) :=
    map_fold merge_pattern (per_file, sensitive_items (stats self)) file_results in
  set_stats (set_sensitive_items items (stats self))
    (set_results (<[file_path := per_file]> (results self)) self).

(** The [try] statement of the loop over [as_completed(...)], lines 426 to
    450, for the future of [file_path] holding [outcome]; [completed] has
    been incremented and [total] is [len(all_files)]. A future that raised
    raises again in [future.result()]. The results are merged before the
    callbacks are called, the status callback is not called when the
    progress callback raises, and every exception, also one raised by a
    callback, is appended to [error_files] under [file_path]. *)
Definition collect (total completed : nat) (file_path : string)
    (outcome : Result (gmap string (list MatchEntry))) (self : Extractor)
    : Extractor :=
  match outcome with
  | Raise e => set_error_files (error_files self ++ [(file_path, e)]) self
  | Ok file_results =>
      let self := if bool_decide (file_results = ∅) then self
                  else merge_results file_path file_results self in
      let current_file := Path.basename file_path in
      match call_progress self completed total current_file with
      | Some e => set_error_files (error_files self ++ [(file_path, e)]) self
      | None =>
          match call_status self (progress_message completed total current_file) with
          | Some e => set_error_files (error_files self ++ [(file_path, e)]) self
          | None => self
          end
      end
  end.

(** **** The thread pool

    While the pool runs, the workers and the collecting loop of the main
    thread touch the extractor at these instants:
    - [Enter p]: a worker takes the task of [p] from the queue and calls
      [scan_file(p)], which reads the flag at line 328; with the flag set
      the call returns [{}] at once and the future is done;
    - [Work p]: a call that is past line 328 classifies and reads the file,
      appends to one of the three lists, runs the loop over the patterns
      and returns, so that the future is done;
    - [Collect p]: the loop over [as_completed(...)] takes the future of
      [p], which is done, reads the flag at line 420 and either leaves the
      loop or runs the [try] statement;
    - [CancelRequest]: another thread calls [cancel_scan].

    A call of [scan_file] writes the extractor at most once, when it
    appends to a list, and that is the instant of [Work]; what it reads
    before is the world. After the append it reads the flag at each turn
    of the loop over the patterns. If [cancel_scan] falls in between, the
    call returns the results of the patterns done so far, where [Work]
    returns all of them under a flag that is not set and none under a set
    flag; but the flag stays set until the scan ends, so the collecting
    loop leaves at line 421 before it looks at such a future, and the
    difference never reaches the extractor.

    An event that cannot happen (a task that is not in the queue, a call
    that has not entered, a future that is not done) changes nothing.
    [max_workers] bounds the number of calls in flight at one time; the
    schedules are not restricted by it, so they include those of every
    number of workers. *)
Inductive Event :=
| Enter (file_path : string)
| Work (file_path : string)
| Collect (file_path : string)
| CancelRequest.

(** The first element with the given key, and the others. *)
Fixpoint take {A} (key : A -> string) (p : string) (l : list A)
    : option (A * list A) :=
  match l with
  | [] => None
  | x :: rest =>
      if String.eqb (key x) p then Some (x, rest)
      else match take key p rest with
           | Some (y, rest') => Some (y, x :: rest')
           | None => None
           end
  end.

(** The pool and the loop around the extractor: the tasks still in the
    queue, the calls of [scan_file] past line 328, the futures that are
    done and not yet collected, and the counter [completed]. *)
Record Pool := {
  owner : Extractor;
  queue : list string;
  in_flight : list string;
  done : list (string * Result (gmap string (list MatchEntry)));
  completed : nat
}.

(** [executor.submit(self.scan_file, file_path)] for every file, and
    [completed = 0]. *)
Definition submit (all_files : list string) (self : Extractor) : Pool :=
  {| owner := self; queue := all_files; in_flight := []; done := [];
     completed := 0 |}.

Definition run_event (w : World) (total : nat) (pool : Pool) (ev : Event) : Pool :=
  let self := owner pool in
  match ev with
  | Enter file_path =>
      match take id file_path (queue pool) with
      | None => pool
      | Some (_, queue) =>
          if scan_cancelled self then
            {| owner := self; queue := queue; in_flight := in_flight pool;
               done := done pool ++ [(file_path, Ok ∅)];
               completed := completed pool |}
          else
            {| owner := self; queue := queue;
               in_flight := in_flight pool ++ [file_path];
               done := done pool; completed := completed pool |}
      end
  | Work file_path =>
      match take id file_path (in_flight pool) with
      | None => pool
      | Some (_, in_flight) =>
          let '(outcome, self) := scan_file_body w file_path self in
          {| owner := self; queue := queue pool; in_flight := in_flight;
             done := done pool ++ [(file_path, outcome)];
             completed := completed pool |}
      end
  | Collect file_path =>
      match take fst file_path (done pool) with
      | None => pool
      | Some ((_, outcome), done) =>
          if scan_cancelled self then pool
          else
            let completed := S (completed pool) in
            {| owner := collect total completed file_path outcome self;
               queue := queue pool; in_flight := in_flight pool;
               done := done; completed := completed |}
      end
  | CancelRequest =>
      {| owner := cancel_scan self; queue := queue pool;
         in_flight := in_flight pool; done := done pool;
         completed := completed pool |}
  end.

(** [stats['start_time'] = datetime.now()] and
    [stats['total_files'] = len(all_files)]. *)
Definition set_start_time (t : nat) (s : Stats) : Stats :=
  {| total_files := total_files s; stat_scanned_files := stat_scanned_files s;
     stat_skipped_files := stat_skipped_files s;
     stat_error_files := stat_error_files s;
     sensitive_items := sensitive_items s;
     start_time := Some t; end_time := end_time s |}.

Definition set_total_files (n : nat) (s : Stats) : Stats :=
  {| total_files := n; stat_scanned_files := stat_scanned_files s;
     stat_skipped_files := stat_skipped_files s;
     stat_error_files := stat_error_files s;
     sensitive_items := sensitive_items s;
     start_time := start_time s; end_time := end_time s |}.

(** The assignments under [# 更新统计信息]. *)
Definition final_stats (t : nat) (self : Extractor) : Stats :=
  let s := stats self in
  {| total_files := total_files s;
     stat_scanned_files := length (scanned_files self);
     stat_skipped_files := length (skipped_files self);
     stat_error_files := length (error_files self);
     sensitive_items := sensitive_items s;
     start_time := start_time s; end_time := Some t |}.

(** [scan_directory(directory_path, max_workers)] under a schedule of the
    pool: the exception that leaves the call, if any, and the extractor
    after it. [directory_path = Path(directory_path)] comes first. An
    exception raised after line 396 leaves the attributes written so far
    as they are. *)
Definition scan_directory (w : World) (directory_path : string) (max_workers : Z)
    (schedule : list Event) (self : Extractor) : option Exception * Extractor :=
  let directory_path := Path.str directory_path in
  if negb (path_exists w directory_path) then
    (Some (FileNotFoundError
             (String.append "目录 " (String.append directory_path " 不存在"))),
     self)
  else if negb (path_is_dir w directory_path) then
    (Some (NotADirectoryError (String.append directory_path " 不是一个目录")),
     self)
  else
    let self := set_is_scanning true self in
    let self := set_scan_cancelled false self in
    let self := set_stats (set_start_time (clock_start w) (stats self)) self in
    match call_status self listing_message with
    | Some e => (Some (CallbackError e), self)
    | None =>
        let all_files := get_all_files w directory_path in
        let self := set_stats (set_total_files (length all_files) (stats self)) self in
        match call_status self (found_message (length all_files)) with
        | Some e => (Some (CallbackError e), self)
        | None =>
            if (max_workers <=? 0)%Z then
              (Some (ValueError "max_workers must be greater than 0"), self)
            else
              let pool := fold_left (run_event w (length all_files)) schedule
                                    (submit all_files self) in
              let self := owner pool in
              let self := set_stats (final_stats (clock_end w) self) self in
              let self := set_is_scanning false self in
              (option_map CallbackError (call_status self (closing_message self)),
               self)
        end
    end.

(** ** Vocabulary of the statements *)

(** What the rule [name], compiled to [pat], leaves in [file_results]: its
    matches when the rule is enabled and matched something. *)
Definition rule_entry (patterns : gmap string PatternInfo) (lines : list string)
    (name : string) (pat : Re.Pattern) : option (list MatchEntry) :=
  match patterns !! name with
  | Some info =>
      if get_enabled info then
        match find_matches pat lines with
        | [] => None
        | matches => Some matches
        end
      else None
  | None => None
  end.

(** Every compiled pattern belongs to a rule, as after [__init__]. *)
Definition compiled_from_rules (self : Extractor) : Prop :=
  forall name pat, compiled_patterns self !! name = Some pat ->
                   is_Some (patterns self !! name).

(** The compiled pattern of a rule, when its regex compiles. *)
Definition compiles_to (w : World) (info : PatternInfo) : option Re.Pattern :=
  match re_compile w (regex info) with
  | Ok pat => Some pat
  | Raise _ => None
  end.

(** The specification's wording of rule loading and matching, to compare
    the source with: the compiled set is built from the enabled rules only,
    and every pattern of that set is matched, without a further check. *)
Definition enabled_rules_spec (rules : gmap string PatternInfo)
    : gmap string PatternInfo :=
  filter (fun entry => get_enabled (snd entry) = true) rules.

Definition compiled_set_spec (w : World) (rules : gmap string PatternInfo)
    : gmap string Re.Pattern :=
  omap (compiles_to w) (enabled_rules_spec rules).

Definition nonempty_matches (lines : list string) (pat : Re.Pattern)
    : option (list MatchEntry) :=
  match find_matches pat lines with
  | [] => None
  | matches => Some matches
  end.

Definition scan_spec (w : World) (rules : gmap string PatternInfo)
    (content : string) : gmap string (list MatchEntry) :=
  omap (nonempty_matches (PyStr.split PyStr.LF content))
       (compiled_set_spec w rules).

(** The number of files an extractor has on record. *)
Definition recorded (self : Extractor) : nat :=
  length (scanned_files self) + length (skipped_files self)
  + length (error_files self).

(** The equation of the statistics. *)
Definition stats_add_up (s : Stats) : Prop :=
  stat_scanned_files s + stat_skipped_files s + stat_error_files s
  = total_files s.

(** A text file whose content is read, without an error, as the empty
    string. *)
Definition empty_text_file (w : World) (file_path : string) : Prop :=
  is_text_file w file_path = true
  /\ try_encodings w file_path encodings = ReadReturned "".

(** The extractor [__init__] builds for the callbacks and the rules of
    [self]: nothing on record yet. *)
Definition fresh_session (self : Extractor) : Extractor :=
  {| progress_callback := progress_callback self;
     status_callback := status_callback self;
     patterns := patterns self; compiled_patterns := compiled_patterns self;
     results := ∅; scanned_files := []; skipped_files := [];
     error_files := []; is_scanning := false; scan_cancelled := false;
     stats := initial_stats |}.

(** [results[path][name]], empty when there is no such entry. *)
Definition matches_at (res : gmap string (gmap string (list MatchEntry)))
    (path name : string) : list MatchEntry :=
  default [] (res !! path ≫= fun per_file => per_file !! name).

(** [sum(len(matches) for matches in file_results.values())]. *)
Definition count_matches (file_results : gmap string (list MatchEntry)) : nat :=
  map_fold (fun _ matches n => n + length matches) 0 file_results.

(** What a call of [scan_file] does with one file, read off the world and
    the cancellation flag alone. *)
Inductive FileOutcome :=
| Scanned (content : string)
| Skipped
| Errored (msg : string)
| Unrecorded.

Definition file_outcome (w : World) (file_path : string) (cancelled : bool)
    : FileOutcome :=
  if cancelled then Unrecorded
  else if is_text_file w file_path then
    match try_encodings w file_path encodings with
    | ReadReturned content =>
        if PyStr.is_empty content then Unrecorded else Scanned content
    | ReadFailed msg => Errored msg
    | ReadExhausted => Errored no_encoding_message
    end
  else Skipped.

(** The list an outcome is appended to. *)
Definition record_outcome (file_path : string) (o : FileOutcome)
    (self : Extractor) : Extractor :=
  match o with
  | Scanned _ => set_scanned_files (scanned_files self ++ [file_path]) self
  | Skipped => set_skipped_files (skipped_files self ++ [file_path]) self
  | Errored msg => set_error_files (error_files self ++ [(file_path, msg)]) self
  | Unrecorded => self
  end.

(** What [scan_file] returns for an outcome. *)
Definition outcome_results (self : Extractor) (o : FileOutcome)
    : Result (gmap string (list MatchEntry)) :=
  match o with
  | Scanned content =>
      scan_content (patterns self) (compiled_patterns self) false content
  | _ => Ok ∅
  end.

(** [s] is what [s0] is, on top of what [old] had on record: the lists of
    [old] come first, its count of sensitive items is added, and its
    results are extended. *)
Definition continues (old s s0 : Extractor) : Prop :=
  progress_callback s = progress_callback s0
  /\ status_callback s = status_callback s0
  /\ patterns s = patterns s0
  /\ compiled_patterns s = compiled_patterns s0
  /\ scan_cancelled s = scan_cancelled s0
  /\ scanned_files s = scanned_files old ++ scanned_files s0
  /\ skipped_files s = skipped_files old ++ skipped_files s0
  /\ error_files s = error_files old ++ error_files s0
  /\ sensitive_items (stats s)
     = sensitive_items (stats old) + sensitive_items (stats s0)
  /\ (forall path name,
        matches_at (results s) path name
        = matches_at (results old) path name ++ matches_at (results s0) path name).

(** Both callbacks return whenever they are called, or there are none. *)
Definition callbacks_return (self : Extractor) : Prop :=
  (forall completed total current_file,
      call_progress self completed total current_file = None)
  /\ (forall message, call_status self message = None).

(** *** The pool seen from the schedule

    Which events of a schedule can happen does not depend on the files:
    the queue, the calls in flight and the futures that are done, by their
    paths, and whether [cancel_scan] has been called since the scan
    began. *)
Record Books := {
  flagged : bool;
  waiting : list string;
  running : list string;
  finished : list string
}.

(** What an event that happens does to the extractor: a call appends its
    file to a list, the collecting loop runs its [try] statement on a
    future, or the flag is set. *)
Inductive Step :=
| Recorded (file_path : string)
| Merged (file_path : string)
| Flagged.

Definition effect (b : Books) (ev : Event) : Books * list Step :=
  match ev with
  | Enter file_path =>
      match take id file_path (waiting b) with
      | None => (b, [])
      | Some (_, waiting) =>
          if flagged b then
            ({| flagged := flagged b; waiting := waiting; running := running b;
                finished := finished b ++ [file_path] |}, [])
          else
            ({| flagged := flagged b; waiting := waiting;
                running := running b ++ [file_path];
                finished := finished b |}, [])
      end
  | Work file_path =>
      match take id file_path (running b) with
      | None => (b, [])
      | Some (_, running) =>
          ({| flagged := flagged b; waiting := waiting b; running := running;
              finished := finished b ++ [file_path] |}, [Recorded file_path])
      end
  | Collect file_path =>
      match take id file_path (finished b) with
      | None => (b, [])
      | Some (_, finished) =>
          if flagged b then (b, [])
          else ({| flagged := flagged b; waiting := waiting b;
                   running := running b; finished := finished |},
                [Merged file_path])
      end
  | CancelRequest =>
      ({| flagged := true; waiting := waiting b; running := running b;
          finished := finished b |}, [Flagged])
  end.

Definition books_after (b : Books) (schedule : list Event) : Books :=
  fold_left (fun b ev => fst (effect b ev)) schedule b.

Fixpoint steps_from (b : Books) (schedule : list Event) : list Step :=
  match schedule with
  | [] => []
  | ev :: rest => snd (effect b ev) ++ steps_from (fst (effect b ev)) rest
  end.

(** The books when the pool starts: every file is in the queue. *)
Definition opening_books (all_files : list string) : Books :=
  {| flagged := false; waiting := all_files; running := []; finished := [] |}.

(** The books of a pool. *)
Definition books_of (pool : Pool) : Books :=
  {| flagged := scan_cancelled (owner pool); waiting := queue pool;
     running := in_flight pool; finished := map fst (done pool) |}.

Definition appended_in (steps : list Step) : list string :=
  omap (fun step => match step with Recorded p => Some p | _ => None end) steps.

Definition merged_in (steps : list Step) : list string :=
  omap (fun step => match step with Merged p => Some p | _ => None end) steps.

(** The files whose call appends to a list, in the order of the appends,
    and the files whose future is collected, in the order of the
    collecting loop. *)
Definition appending (all_files : list string) (schedule : list Event)
    : list string :=
  appended_in (steps_from (opening_books all_files) schedule).

Definition merging (all_files : list string) (schedule : list Event)
    : list string :=
  merged_in (steps_from (opening_books all_files) schedule).

Definition cancel_free (schedule : list Event) : bool :=
  forallb (fun ev => match ev with CancelRequest => false | _ => true end)
          schedule.

(** A schedule of the whole pool for a directory: when the [with] block
    is left every task has been taken from the queue and every call has
    returned, and unless the scan was cancelled the loop has taken every
    future. *)
Definition schedule_of (w : World) (directory_path : string)
    (schedule : list Event) : Prop :=
  let b := books_after (opening_books (get_all_files w directory_path)) schedule in
  waiting b = [] /\ running b = [] /\ (flagged b = false -> finished b = []).

(** What the collecting loop merges from a future: its results, nothing
    when the call raised. *)
Definition returned (outcome : Result (gmap string (list MatchEntry)))
    : gmap string (list MatchEntry) :=
  match outcome with
  | Ok file_results => file_results
  | Raise _ => ∅
  end.

(** [results[file_path]] after the results of one file have been merged
    into it: the match lists are extended name by name. *)
Definition merged_entry (old : option (gmap string (list MatchEntry)))
    (file_results : gmap string (list MatchEntry))
    : option (gmap string (list MatchEntry)) :=
  if bool_decide (file_results = ∅) then old
  else Some (union_with (fun earlier later => Some (earlier ++ later))
                        (default ∅ old) file_results).

(** The futures that are done hold what their calls returned: while the
    flag is not set, the results of the file. *)
Definition futures_fit (w : World) (pool : Pool) : Prop :=
  scan_cancelled (owner pool) = false ->
  forall file_path outcome,
    In (file_path, outcome) (done pool) ->
    outcome = outcome_results (owner pool) (file_outcome w file_path false).

(** What a step does to the counter [completed] and to the extractor. *)
Definition stepped (w : World) (total : nat) (state : nat * Extractor)
    (step : Step) : nat * Extractor :=
  let '(completed, self) := state in
  match step with
  | Recorded file_path =>
      (completed, record_outcome file_path (file_outcome w file_path false) self)
  | Merged file_path =>
      (S completed,
       collect total (S completed) file_path
         (outcome_results self (file_outcome w file_path false)) self)
  | Flagged => (completed, cancel_scan self)
  end.

(** ** A small world to run the extractor in

    Regular expressions are literals here (["["] does not compile). The
    files hold bytes on which the codecs of this world do what those of
    CPython do: UTF-8, GBK and GB2312 decode the 7-bit texts and refuse the
    bytes [0x80], [0xe9] and [0xff] where the files have them; UTF-16
    decodes a stream with a byte order mark, finds a stream of an odd
    number of bytes truncated, which is a [UnicodeDecodeError], and raises
    the [UnicodeError] ["UTF-16 stream does not start with BOM"] on a
    stream of whole code units without the mark. *)

Module Demo.

(** The spans of the non-overlapping occurrences of [needle], left to
    right; [skip] characters are still covered by the last occurrence. *)
Fixpoint literal_spans (needle subject : string) (pos skip : nat) : list Re.Match :=
  match subject with
  | EmptyString => []
  | String _ rest =>
      match skip with
      | S k => literal_spans needle rest (S pos) k
      | O =>
          if String.prefix needle subject then
            {| Re.m_start := pos; Re.m_end := pos + String.length needle |}
            :: literal_spans needle rest (S pos) (String.length needle - 1)
          else literal_spans needle rest (S pos) 0
      end
  end.

Definition literal (needle : string) : Re.Pattern :=
  fun subject => literal_spans needle subject 0 0.

Definition compile (regex : string) : Result Re.Pattern :=
  if String.eqb regex "[" then Raise "unterminated character set at position 0"
  else Ok (literal regex).

Definition seven_bit (data : list byte) : bool :=
  forallb (fun b => (Byte.to_nat b <? 128)%nat) data.

Definition decode_ascii (data : list byte) : option string :=
  if seven_bit data then Some (string_of_list_byte data) else None.

(** Every other byte, for little-endian UTF-16 of 7-bit text. *)
Fixpoint low_bytes (data : list byte) : list byte :=
  match data with
  | lo :: _ :: rest => lo :: low_bytes rest
  | _ => []
  end.

Definition decode_utf_16 (data : list byte) : TextDecode :=
  match data with
  | [] => Decoded ""
  | xff :: xfe :: rest =>
      if Nat.even (length rest) then Decoded (string_of_list_byte (low_bytes rest))
      else UnicodeDecodeError
  | _ =>
      if Nat.even (length data)
      then OtherError "UTF-16 stream does not start with BOM"
      else UnicodeDecodeError
  end.

Definition decode_stream (enc : Encoding) (data : list byte) : TextDecode :=
  match enc with
  | utf_16 => decode_utf_16 data
  | _ => match decode_ascii data with
         | Some text => Decoded text
         | None => UnicodeDecodeError
         end
  end.

Definition a_txt : string :=
  String.append "hello jsapi_ticket"
    (String PyStr.LF "contact: test@example.com, test@example.com").

Definition files (p : string) : IOResult :=
  if String.eqb p "proj/a.txt" then IOBytes (list_byte_of_string a_txt)
  else if String.eqb p "proj/b.png" then IOBytes [x89; x50; x4e; x47; x00; x01]
  else if String.eqb p "proj/empty.txt" then IOBytes []
  else if String.eqb p "proj/raw" then IOBytes [xe9; x74; xe9]
  else if String.eqb p "proj/latin.txt" then IOBytes [xff; xfe; xe9]
  else if String.eqb p "proj/bomless" then IOBytes [x80; x61]
  else if String.eqb p "proj/bomless2" then IOBytes [x80; x61; x80; x61]
  else if String.eqb p "proj/src/c.env" then
    IOBytes (list_byte_of_string "api_key=secret")
  else IOFail (String.append "[Errno 2] No such file or directory: '"
                             (String.append p "'")).

Definition tree : list Entry :=
  [EFile "a.txt"; EFile "b.png"; EFile ".hidden";
   EDir "node_modules" [EFile "x.js"];
   EDir "src" [EFile "c.env"]].

Definition world : World :=
  {| path_exists := fun p => String.eqb p "proj" || String.eqb p "proj/a.txt";
     path_is_dir := fun p => String.eqb p "proj";
     listing := fun p => if String.eqb p "proj" then tree else [];
     guess_type := fun p => if String.eqb p "proj/notes.rst" then Some "text/x-rst"
                            else if String.eqb p "proj/data.odt"
                            then Some "application/vnd.oasis.opendocument.text"
                            else None;
     unicode_lower := PyStr.lower;
     open_rb := files;
     bytes_decode := fun _ => decode_ascii;
     text_decode := decode_stream;
     re_compile := compile;
     clock_start := 100;
     clock_end := 107 |}.

Definition rule (r : string) (on : option bool) : PatternInfo :=
  {| regex := r; description := ""; risk_level := "中"; enabled := on |}.

Definition rules : gmap string PatternInfo :=
  <["ticket" := rule "jsapi_ticket" None]>
    (<["mail" := rule "test@example.com" (Some true)]>
       (<["off" := rule "secret" (Some false)]>
          (<["bad" := rule "[" (Some true)]> ∅))).

Definition extractor : Extractor := fst (init world rules).

(** What scanning ["proj/a.txt"] finds. *)
Definition mail_matches : list MatchEntry :=
  [("test@example.com", 2); ("test@example.com", 2)].
Definition ticket_matches : list MatchEntry := [("jsapi_ticket", 1)].
Definition a_txt_results : gmap string (list MatchEntry) :=
  <["mail" := mail_matches]> (<["ticket" := ticket_matches]> ∅).

(** One worker: every discovered file in the order found, each collected
    as soon as its call returns, nobody cancelling. *)
Definition in_order (w : World) : list Event :=
  flat_map (fun p => [Enter p; Work p; Collect p]) (get_all_files w "proj").

Definition once : Extractor :=
  snd (scan_directory world "proj" 8 (in_order world) extractor).
Definition twice : Extractor :=
  snd (scan_directory world "proj" 8 (in_order world) once).

(** A world with one directory holding one file. *)
Definition single (file : string) (w : World) : World :=
  {| path_exists := path_exists w; path_is_dir := path_is_dir w;
     listing := fun p => if String.eqb p "proj" then [EFile file] else [];
     guess_type := guess_type w; unicode_lower := unicode_lower w;
     open_rb := open_rb w;
     bytes_decode := bytes_decode w; text_decode := text_decode w;
     re_compile := re_compile w;
     clock_start := clock_start w; clock_end := clock_end w |}.

End Demo.

(** ** Vocabulary of the statements on whole scans *)

(** What the task of [file_path] hands to the collecting loop in a scan
    that is running: the results of [scan_file], nothing when it raised. *)
Definition task_results (w : World) (self : Extractor) (file_path : string)
    : gmap string (list MatchEntry) :=
  match outcome_results self (file_outcome w file_path false) with
  | Ok file_results => file_results
  | Raise _ => ∅
  end.

(** The entry a running task appends to each of the three lists. *)
Definition scanned_of (w : World) (file_path : string) : option string :=
  match file_outcome w file_path false with
  | Scanned _ => Some file_path
  | _ => None
  end.

Definition skipped_of (w : World) (file_path : string) : option string :=
  match file_outcome w file_path false with
  | Skipped => Some file_path
  | _ => None
  end.

Definition errored_of (w : World) (file_path : string) : option (string * string) :=
  match file_outcome w file_path false with
  | Errored msg => Some (file_path, msg)
  | _ => None
  end.

(** The paths an extractor has on record, list after list. *)
Definition recorded_paths (self : Extractor) : list string :=
  scanned_files self ++ skipped_files self ++ map fst (error_files self).

(** [sum(len(m) for per_file in results.values() for m in per_file.values())]. *)
Definition total_matches (res : gmap string (gmap string (list MatchEntry))) : nat :=
  map_fold (fun _ per_file n => n + count_matches per_file) 0 res.

(** The extractor after the assignments that open [scan_directory], before
    the pool starts. *)
Definition begin_scan (w : World) (directory_path : string) (self : Extractor)
    : Extractor :=
  let self := set_is_scanning true self in
  let self := set_scan_cancelled false self in
  let self := set_stats (set_start_time (clock_start w) (stats self)) self in
  set_stats (set_total_files (length (get_all_files w directory_path))
                             (stats self)) self.

(** The assignments that close [scan_directory]. *)
Definition end_scan (w : World) (self : Extractor) : Extractor :=
  set_is_scanning false (set_stats (final_stats (clock_end w) self) self).

(** Whether a call of [scan_directory] gets as far as the pool: the path
    is a directory, the status callback returns from its first two calls,
    and [max_workers] is positive. *)
Definition reaches_pool (w : World) (directory_path : string) (max_workers : Z)
    (self : Extractor) : bool :=
  let root := Path.str directory_path in
  path_exists w root && path_is_dir w root
  && bool_decide (call_status self listing_message = None)
  && bool_decide (call_status self
                    (found_message (length (get_all_files w root))) = None)
  && bool_decide (0 < max_workers)%Z.

(** The pool of [scan_directory] when its schedule is over. *)
Definition pool_after (w : World) (directory_path : string)
    (schedule : list Event) (self : Extractor) : Pool :=
  let root := Path.str directory_path in
  fold_left (run_event w (length (get_all_files w root))) schedule
            (submit (get_all_files w root) (begin_scan w root self)).

(** Every file with an entry in [results] is on [scanned_files]. *)
Definition results_of_scanned_files (self : Extractor) : Prop :=
  forall path, is_Some (results self !! path) -> In path (scanned_files self).

(** [sensitive_items] counts the matches held in [results]. *)
Definition items_count_results (self : Extractor) : Prop :=
  sensitive_items (stats self) = total_matches (results self).

(** The part of a directory tree the walker keeps: without the hidden
    files that are not kept and without the pruned directories. *)
Fixpoint prune (e : Entry) : Entry :=
  match e with
  | EFile name => EFile name
  | EDir name children =>
      EDir name
        (flat_map (fun c => match c with
                            | EFile file => if keep_file file then [c] else []
                            | EDir d _ => if keep_dir d then [prune c] else []
                            end) children)
  end.

Definition prune_children (children : list Entry) : list Entry :=
  flat_map (fun c => match c with
                     | EFile file => if keep_file file then [c] else []
                     | EDir d _ => if keep_dir d then [prune c] else []
                     end) children.

(** ** [generate_report]: the groupings behind the report

    The report is text written to a file; modelled here are the three
    groupings it is computed from (lines 492 to 551 of the source). *)

(** An entry of [pattern_summary]: [(file_path, match, line_num)]. *)
Definition ReportEntry : Type := string * string * nat.

(** [[(file_path, match, line_num) for match, line_num in matches]] *)
Definition tag_matches (file_path : string) (matches : list MatchEntry)
    : list ReportEntry :=
  map (fun e : MatchEntry => (file_path, fst e, snd e)) matches.

(** [pattern_summary[pattern_name].extend(...)], creating the list when the
    name is new. *)
Definition summary_step (file_path pattern_name : string)
    (matches : list MatchEntry) (summary : gmap string (list ReportEntry))
    : gmap string (list ReportEntry) :=
  <[pattern_name := default [] (summary !! pattern_name)
                    ++ tag_matches file_path matches]> summary.

(** The two loops over [self.results.items()] and [file_results.items()]. *)
Definition pattern_summary (res : gmap string (gmap string (list MatchEntry)))
    : gmap string (list ReportEntry) :=
  map_fold (fun file_path file_results summary =>
              map_fold (summary_step file_path) summary file_results)
           ∅ res.

(** [file_groups]: the entries of one pattern, grouped by file again. *)
Definition file_groups (entries : list ReportEntry)
    : gmap string (list MatchEntry) :=
  fold_left (fun groups (e : ReportEntry) =>
               let '(file_path, m, line_num) := e in
               <[file_path := default [] (groups !! file_path) ++ [(m, line_num)]]>
                 groups)
            entries ∅.

(** A [dict] whose order of insertion shows in the output, as a list of
    keys and values: [d[k].append(v)], with [d[k] = []] first when [k] is
    new. *)
Fixpoint od_append (k : string) (v : nat) (d : list (string * list nat))
    : list (string * list nat) :=
  match d with
  | [] => [(k, [v])]
  | (k', vs) :: rest =>
      if String.eqb k k' then (k', vs ++ [v]) :: rest
      else (k', vs) :: od_append k v rest
  end.

(** [d.get(k)]. *)
Fixpoint od_get (k : string) (d : list (string * list nat)) : option (list nat) :=
  match d with
  | [] => None
  | (k', vs) :: rest => if String.eqb k k' then Some vs else od_get k rest
  end.

(** [unique_matches]: the line numbers of each distinct matched text. *)
Definition unique_matches (matches : list MatchEntry) : list (string * list nat) :=
  fold_left (fun d (e : MatchEntry) => od_append (fst e) (snd e) d) matches [].

(** [sorted(set(line_nums))]. *)
Definition shown_line_nums (line_nums : list nat) : list nat :=
  merge_sort le (remove_dups line_nums).

(** The entries of one file among report entries, and the line numbers of
    one matched text among matches, in the order they come. *)
Definition entries_of (file_path : string) (entries : list ReportEntry)
    : list MatchEntry :=
  omap (fun e : ReportEntry =>
          if String.eqb (fst (fst e)) file_path then Some (snd (fst e), snd e)
          else None) entries.

Definition lines_of (text : string) (matches : list MatchEntry) : list nat :=
  omap (fun e : MatchEntry => if String.eqb (fst e) text then Some (snd e) else None)
       matches.

(** The number of entries of a summary. *)
Definition summary_size (summary : gmap string (list ReportEntry)) : nat :=
  map_fold (fun _ entries n => n + length entries) 0 summary.

(** ** [load_patterns] and [create_default_patterns_file]

    The configuration file [patterns.json] is the state: [None] when the
    file does not exist, else its text. [json] and the opening of the file
    are outside the source; the rule sets are those [json.load] can return
    as a mapping of rules, and a write either happens as a whole or fails.
    [defaults] is what [get_default_patterns] returns. *)

Record ConfigIO := {
  (** [json.dump(rules, f, ensure_ascii=False, indent=2)] *)
  json_dump : gmap string PatternInfo -> string;
  (** [json.load(f)]: [None] when it raises *)
  json_load : string -> option (gmap string PatternInfo);
  (** whether [open(config_file, 'w')] and [open(config_file, 'r')] of an
      existing file succeed, and [str(e)] of the exceptions *)
  can_write : bool;
  can_read : bool;
  write_error : string;
  read_error : string;
  json_error : string
}.

(** The new state of the file and the lines printed. *)
Definition create_default_patterns_file (io : ConfigIO)
    (defaults : gmap string PatternInfo) (file : option string)
    : option string * list string :=
  if can_write io then
    (Some (json_dump io defaults),
     ["已创建默认配置文件: patterns.json - by 慕鸢"])
  else
    (file, [String.append "创建配置文件失败: " (write_error io)]).

(** The rules returned, the new state of the file and the lines printed. *)
Definition load_patterns (io : ConfigIO) (defaults : gmap string PatternInfo)
    (file : option string)
    : gmap string PatternInfo * option string * list string :=
  let '(file, printed) :=
    match file with
    | None =>
        let '(file', printed') := create_default_patterns_file io defaults file in
        (file', ["首次运行，正在创建默认配置文件..."] ++ printed'
                ++ ["配置文件创建完成 - 敏感信息提取工具 by 慕鸢"])
    | Some _ => (file, [])
    end in
  match file with
  | Some text =>
      if can_read io then
        match json_load io text with
        | Some rules => (rules, file, printed)
        | None =>
            (defaults, file,
             printed ++ [String.append "加载配置文件失败: " (json_error io)])
        end
      else
        (defaults, file,
         printed ++ [String.append "加载配置文件失败: " (read_error io)])
  | None =>
      (defaults, file,
       printed ++ [String.append "加载配置文件失败: " (read_error io)])
  end.

(** ** More vocabulary on strings *)

(** [s.count(c)]. *)
Fixpoint count_char (c : ascii) (s : string) : nat :=
  match s with
  | EmptyString => 0
  | String a rest => (if Ascii.eqb a c then 1 else 0) + count_char c rest
  end.

(** The carriage return, ['\r']. *)
Definition CR : ascii := "013"%char.

(** The classification of a path whose suffix is in neither list: by MIME
    type, else by the leading bytes. *)
Definition classify_without_suffix (w : World) (file_path : string) : bool :=
  match guess_type w (Path.str file_path) with
  | Some mime_type =>
      if PyStr.is_empty mime_type then sniff_text w (Path.str file_path)
      else PyStr.startswith "text/" mime_type
           || bool_decide (mime_type ∈ structured_text_mime_types)
  | None => sniff_text w (Path.str file_path)
  end.

(** ** More of the small world *)

Module Sample.

(** Three workers: every call enters, the calls append in the reverse
    order, and the futures are collected in the order of discovery. *)
Definition reversed : list Event :=
  map Enter (get_all_files Demo.world "proj")
  ++ map Work (rev (get_all_files Demo.world "proj"))
  ++ map Collect (get_all_files Demo.world "proj").

(** Two workers and a cancellation: the future of ["proj/src/c.env"] is
    collected, then [cancel_scan] is called while the call for
    ["proj/a.txt"] is in flight; that call still appends, the task of
    ["proj/b.png"] starts with the flag set, and the loop leaves at the
    next future. *)
Definition before_cancel : list Event :=
  [Enter "proj/a.txt"; Enter "proj/src/c.env"; Work "proj/src/c.env";
   Collect "proj/src/c.env"].

Definition after_cancel : list Event :=
  [Work "proj/a.txt"; Enter "proj/b.png"; Collect "proj/a.txt";
   Collect "proj/b.png"].

Definition cancelled_early : list Event :=
  before_cancel ++ CancelRequest :: after_cancel.

(** An extractor whose progress callback always raises. *)
Definition noisy : Extractor :=
  fst (init_with Demo.world (Some (fun _ _ _ => Some "boom")) None Demo.rules).

(** A configuration store whose [json] knows one rule set, by its size. *)
Definition io : ConfigIO :=
  {| json_dump := fun rules => if Nat.eqb (size rules) 4 then "demo" else "other";
     json_load := fun text => if String.eqb text "demo" then Some Demo.rules else None;
     can_write := true; can_read := true;
     write_error := "[Errno 13] Permission denied: 'patterns.json'";
     read_error := "[Errno 2] No such file or directory: 'patterns.json'";
     json_error := "Expecting value: line 1 column 1 (char 0)" |}.

End Sample.

(** * Properties *)

(** ** Strings and lines *)

Section StringFacts.

Lemma has_char_substring (c : ascii) (s : string) :
  PyStr.has_char c s = false ->
  forall n m, PyStr.has_char c (substring n m s) = false.
Proof.
  induction s as [|a s IH]; intros Hs n m.
  - destruct n, m; reflexivity.
  - simpl in Hs. apply orb_false_iff in Hs as [Ha Hs].
    destruct n as [|n]; destruct m as [|m]; simpl; auto.
    rewrite Ha. simpl. apply IH. exact Hs.
Qed.

Lemma split_nonempty (sep : ascii) (s : string) : PyStr.split sep s <> [].
Proof.
  destruct s as [|a s]; simpl; [discriminate|].
  destruct (Ascii.eqb a sep); [discriminate|].
  destruct (PyStr.split sep s); discriminate.
Qed.

(** No piece of [s.split(sep)] contains [sep]. *)
Lemma split_pieces_lack_sep (sep : ascii) (s piece : string) :
  In piece (PyStr.split sep s) -> PyStr.has_char sep piece = false.
Proof.
  revert piece. induction s as [|a s IH]; simpl; intros piece Hin.
  - destruct Hin as [<-|[]]. reflexivity.
  - destruct (Ascii.eqb a sep) eqn:Ha.
    + destruct Hin as [<-|Hin]; [reflexivity|]. apply IH, Hin.
    + destruct (PyStr.split sep s) as [|p ps] eqn:Hsplit.
      * destruct Hin as [<-|[]]. simpl. rewrite Ha. reflexivity.
      * destruct Hin as [<-|Hin].
        -- simpl. rewrite Ha. simpl. apply IH. left. reflexivity.
        -- apply IH. right. exact Hin.
Qed.

Lemma enumerate_In {A} (l : list A) (start n : nat) (x : A) :
  In (n, x) (PyStr.enumerate l start) ->
  start <= n < start + length l /\ nth_error l (n - start) = Some x.
Proof.
  revert start. induction l as [|y l IH]; simpl; intros start Hin; [tauto|].
  destruct Hin as [Heq|Hin].
  - inversion Heq; subst. rewrite Nat.sub_diag. split; [lia | reflexivity].
  - apply IH in Hin as [Hrange Hnth]. split; [lia|].
    replace (n - start) with (S (n - S start)) by lia. exact Hnth.
Qed.

End StringFacts.

(** ** The match loops *)

Section MatchLoopFacts.

Variable pat : Re.Pattern.

Lemma scan_line_app (matches : list MatchEntry) (entry : nat * string) :
  scan_line pat matches entry = matches ++ line_entries pat entry.
Proof.
  destruct entry as [line_num line]. unfold scan_line, line_entries. simpl.
  generalize (Re.finditer pat line) as ms. intros ms. revert matches.
  induction ms as [|m ms IH]; intros matches; simpl.
  - symmetry. apply app_nil_r.
  - rewrite IH, <- app_assoc. reflexivity.
Qed.

Lemma fold_scan_line (entries : list (nat * string)) (matches : list MatchEntry) :
  fold_left (scan_line pat) entries matches
  = matches ++ flat_map (line_entries pat) entries.
Proof.
  revert matches. induction entries as [|e entries IH]; intros matches; simpl.
  - symmetry. apply app_nil_r.
  - rewrite IH, scan_line_app, <- app_assoc. reflexivity.
Qed.

(** The two nested loops collect, line after line, the matches found in
    that line alone. *)
Lemma find_matches_per_line (lines : list string) :
  find_matches pat lines = flat_map (line_entries pat) (PyStr.enumerate lines 1).
Proof. unfold find_matches. rewrite fold_scan_line. reflexivity. Qed.

Lemma line_entries_In (entry : nat * string) (text : string) (n : nat) :
  In (text, n) (line_entries pat entry) ->
  n = fst entry /\ exists m, In m (Re.finditer pat (snd entry))
                             /\ text = Re.group0 (snd entry) m.
Proof.
  unfold line_entries. intros Hin. apply in_map_iff in Hin as (m & Heq & Hm).
  inversion Heq; subst. split; [reflexivity|]. exists m. split; auto.
Qed.

Lemma find_matches_In (lines : list string) (text : string) (n : nat) :
  In (text, n) (find_matches pat lines) ->
  exists line m,
    1 <= n <= length lines
    /\ nth_error lines (n - 1) = Some line
    /\ In m (Re.finditer pat line)
    /\ text = Re.group0 line m.
Proof.
  rewrite find_matches_per_line. intros Hin.
  apply in_flat_map in Hin as ([k line] & Hentry & Hin).
  apply line_entries_In in Hin as (-> & m & Hm & ->). simpl in *.
  apply enumerate_In in Hentry as [Hrange Hnth].
  exists line, m. repeat split; try lia; auto.
Qed.

Lemma line_entries_sorted (entry : nat * string) :
  StronglySorted le (map snd (line_entries pat entry)).
Proof.
  unfold line_entries. rewrite map_map. simpl.
  induction (Re.finditer pat (snd entry)) as [|m ms IHms]; simpl;
    constructor; auto.
  apply Forall_forall. intros k Hk.
  apply list_elem_of_In, in_map_iff in Hk as (? & <- & _). lia.
Qed.

Lemma flat_map_entries_sorted (lines : list string) (start : nat) :
  StronglySorted le
    (map snd (flat_map (line_entries pat) (PyStr.enumerate lines start))).
Proof.
  revert start. induction lines as [|line lines IH]; intros start; simpl.
  - constructor.
  - rewrite map_app. apply StronglySorted_app_2.
    + intros n1 n2 H1 H2.
      apply list_elem_of_In, in_map_iff in H1 as ([t1 k1] & <- & H1).
      apply list_elem_of_In, in_map_iff in H2 as ([t2 k2] & <- & H2).
      apply line_entries_In in H1 as [-> _].
      apply in_flat_map in H2 as ([k line'] & Hentry & H2).
      apply line_entries_In in H2 as [-> _].
      apply enumerate_In in Hentry as [Hrange _]. simpl in *. lia.
    + exact (line_entries_sorted (start, line)).
    + apply IH.
Qed.

Lemma find_matches_sorted (lines : list string) :
  StronglySorted le (map snd (find_matches pat lines)).
Proof. rewrite find_matches_per_line. apply flat_map_entries_sorted. Qed.

End MatchLoopFacts.

(** ** The loop over the compiled patterns *)

Section PatternLoopFacts.

Variable patterns : gmap string PatternInfo.
Variable cancelled : bool.
Variable content : string.

Let lines := PyStr.split PyStr.LF content.

(** When the loop ends without an exception, [file_results] holds, name by
    name, what each compiled pattern's rule leaves. *)
Lemma scan_content_lookup (compiled : gmap string Re.Pattern)
    (file_results : gmap string (list MatchEntry)) :
  scan_content patterns compiled cancelled content = Ok file_results ->
  forall name,
    file_results !! name
    = if cancelled then None
      else compiled !! name ≫= rule_entry patterns lines name.
Proof.
  unfold scan_content. fold lines. revert file_results.
  apply (map_fold_weak_ind
           (fun r m => forall fr, r = Ok fr -> forall name,
                fr !! name = if cancelled then None
                             else m !! name ≫= rule_entry patterns lines name)).
  - intros fr [= <-] name. rewrite !lookup_empty. destruct cancelled; reflexivity.
  - intros i pat m r Hfresh IH fr Hstep name.
    destruct r as [fr0|e]; simpl in Hstep; [|discriminate].
    specialize (IH fr0 eq_refl).
    destruct cancelled eqn:Hc.
    { injection Hstep as <-. apply IH. }
    assert (Hi : fr0 !! i = None) by (rewrite IH, Hfresh; reflexivity).
    destruct (patterns !! i) as [info|] eqn:Hinfo; [|discriminate].
    destruct (decide (name = i)) as [->|Hne].
    + rewrite lookup_insert_eq. simpl. unfold rule_entry. rewrite Hinfo.
      destruct (get_enabled info); simpl in Hstep.
      * destruct (find_matches pat lines) eqn:Hm; injection Hstep as <-.
        -- exact Hi.
        -- apply lookup_insert_eq.
      * injection Hstep as <-. exact Hi.
    + rewrite lookup_insert_ne by congruence. rewrite <- IH.
      destruct (get_enabled info); simpl in Hstep.
      * destruct (find_matches pat lines) eqn:Hm; injection Hstep as <-.
        -- reflexivity.
        -- apply lookup_insert_ne. congruence.
      * injection Hstep as <-. reflexivity.
Qed.

(** The loop raises only for a compiled pattern without a rule. *)
Lemma scan_content_returns (compiled : gmap string Re.Pattern) :
  (forall name pat, compiled !! name = Some pat -> is_Some (patterns !! name)) ->
  exists file_results,
    scan_content patterns compiled cancelled content = Ok file_results.
Proof.
  unfold scan_content. fold lines.
  apply (map_fold_weak_ind
           (fun r m =>
              (forall name pat, m !! name = Some pat -> is_Some (patterns !! name)) ->
              exists fr, r = Ok fr)).
  - intros _. eexists. reflexivity.
  - intros i pat m r Hfresh IH Hdom.
    destruct IH as [fr ->].
    { intros name pat' Hname. apply (Hdom name pat').
      rewrite lookup_insert_ne; [exact Hname|]. intros ->. congruence. }
    simpl. destruct cancelled; [eexists; reflexivity|].
    destruct (Hdom i pat) as [info ->]; [apply lookup_insert_eq|].
    destruct (negb (get_enabled info)); [eexists; reflexivity|].
    destruct (find_matches pat lines); eexists; reflexivity.
Qed.

End PatternLoopFacts.

(** ** Matches stay inside their line *)

(** C3. Whatever the compiled patterns are, a match list that [scan_file]
    files under a rule name is built line by line: it is the concatenation,
    over the numbered lines of [content.split('\n')], of the matches found
    in that line alone. So every matched text is a slice of a single line
    and contains no line feed, every line number is between 1 and the number
    of lines, and the line numbers of one list never decrease. *)
Theorem scan_content_line_by_line
    (patterns : gmap string PatternInfo) (compiled : gmap string Re.Pattern)
    (cancelled : bool) (content : string)
    (file_results : gmap string (list MatchEntry))
    (name : string) (matches : list MatchEntry) :
  scan_content patterns compiled cancelled content = Ok file_results ->
  file_results !! name = Some matches ->
  let lines := PyStr.split PyStr.LF content in
  (exists pat, compiled !! name = Some pat
               /\ matches = flat_map (line_entries pat) (PyStr.enumerate lines 1))
  /\ (forall text n, In (text, n) matches ->
        PyStr.has_char PyStr.LF text = false
        /\ 1 <= n <= length lines
        /\ exists line m, nth_error lines (n - 1) = Some line
                          /\ text = Re.group0 line m)
  /\ StronglySorted le (map snd matches).
Proof.
  intros Hscan Hname lines.
  pose proof (scan_content_lookup _ _ _ _ _ Hscan name) as Hlookup.
  rewrite Hname in Hlookup. destruct cancelled; [discriminate|].
  destruct (compiled !! name) as [pat|] eqn:Hpat; [|discriminate].
  simpl in Hlookup. unfold rule_entry in Hlookup.
  destruct (patterns !! name) as [info|]; [|discriminate].
  destruct (get_enabled info); [|discriminate].
  fold lines in Hlookup.
  assert (Hm : matches = find_matches pat lines).
  { destruct (find_matches pat lines); [discriminate|congruence]. }
  clear Hlookup. subst matches. split; [|split].
  - exists pat. split; [reflexivity|]. apply find_matches_per_line.
  - intros text n Hin.
    apply find_matches_In in Hin as (line & m & Hrange & Hnth & _ & ->).
    split; [|split; [exact Hrange|exists line, m; auto]].
    apply has_char_substring. apply (split_pieces_lack_sep _ content).
    eapply nth_error_In. exact Hnth.
  - apply find_matches_sorted.
Qed.

(** The theorem at the first file of the small world, rule ["mail"]: two
    matches, both on line 2. *)
Lemma scan_content_line_by_line_witness :
  StronglySorted le (map snd Demo.mail_matches).
Proof.
  refine (proj2 (proj2
    (scan_content_line_by_line
       (patterns Demo.extractor) (compiled_patterns Demo.extractor) false
       Demo.a_txt
       Demo.a_txt_results "mail" Demo.mail_matches _ _))).
  - vm_compute. reflexivity.
  - vm_compute. reflexivity.
Defined.

(** ** Loading the rules *)

Section Loading.

Variable w : World.

Lemma compile_patterns_spec (rules : gmap string PatternInfo) :
  (forall name,
      fst (compile_patterns w rules) !! name = rules !! name ≫= compiles_to w)
  /\ (forall line,
        In line (snd (compile_patterns w rules)) <->
        exists name info e,
          rules !! name = Some info
          /\ re_compile w (regex info) = Raise e
          /\ line = compile_warning name e).
Proof.
  unfold compile_patterns.
  apply (map_fold_weak_ind
           (fun r m =>
              (forall name, fst r !! name = m !! name ≫= compiles_to w)
              /\ (forall line, In line (snd r) <->
                    exists name info e,
                      m !! name = Some info
                      /\ re_compile w (regex info) = Raise e
                      /\ line = compile_warning name e))).
  - split.
    + intros name. simpl. rewrite !lookup_empty. reflexivity.
    + intros line. simpl. split; [tauto|].
      intros (name & info & e & Hname & _). rewrite lookup_empty in Hname.
      discriminate.
  - intros i info m [compiled printed] Hfresh [IHc IHp]. simpl in IHc.
    unfold compile_step. simpl. split.
    + intros name. destruct (decide (name = i)) as [->|Hne].
      * rewrite lookup_insert_eq. simpl. unfold compiles_to.
        destruct (re_compile w (regex info)); simpl.
        -- apply lookup_insert_eq.
        -- rewrite IHc, Hfresh. reflexivity.
      * rewrite (lookup_insert_ne m) by congruence. rewrite <- IHc.
        destruct (re_compile w (regex info)); simpl; [|reflexivity].
        apply lookup_insert_ne. congruence.
    + intros line. split.
      * intros Hin.
        assert (Hcases : In line printed
                         \/ exists e, re_compile w (regex info) = Raise e
                                      /\ line = compile_warning i e).
        { destruct (re_compile w (regex info)) as [pat|e]; simpl in Hin.
          - left. exact Hin.
          - apply in_app_or in Hin as [Hin|[<-|[]]]; [left; exact Hin|].
            right. exists e. split; reflexivity. }
        destruct Hcases as [Hold|(e & He & ->)].
        -- apply IHp in Hold as (name & info' & e & Hname & He & ->).
           exists name, info', e. split; [|split; auto].
           rewrite lookup_insert_ne; [exact Hname|]. intros ->. congruence.
        -- exists i, info, e. split; [apply lookup_insert_eq|split; auto].
      * intros (name & info' & e & Hname & He & ->).
        destruct (decide (name = i)) as [->|Hne].
        -- rewrite lookup_insert_eq in Hname. injection Hname as <-.
           rewrite He. simpl. apply in_or_app. right. left. reflexivity.
        -- rewrite lookup_insert_ne in Hname by congruence.
           assert (Hold : In (compile_warning name e) printed).
           { apply IHp. exists name, info', e. auto. }
           destruct (re_compile w (regex info)); simpl; [exact Hold|].
           apply in_or_app. left. exact Hold.
Qed.

Lemma init_patterns (rules : gmap string PatternInfo) :
  patterns (fst (init w rules)) = rules.
Proof. unfold init, init_with. destruct (compile_patterns w rules). reflexivity. Qed.

Lemma init_compiled (rules : gmap string PatternInfo) :
  compiled_patterns (fst (init w rules)) = fst (compile_patterns w rules).
Proof. unfold init, init_with. destruct (compile_patterns w rules). reflexivity. Qed.

Lemma init_printed (rules : gmap string PatternInfo) :
  snd (init w rules) = snd (compile_patterns w rules).
Proof. unfold init, init_with. destruct (compile_patterns w rules). reflexivity. Qed.

Lemma init_compiled_lookup (rules : gmap string PatternInfo) (name : string) :
  compiled_patterns (fst (init w rules)) !! name
  = rules !! name ≫= compiles_to w.
Proof. rewrite init_compiled. apply compile_patterns_spec. Qed.

Lemma init_compiled_from_rules (rules : gmap string PatternInfo) :
  compiled_from_rules (fst (init w rules)).
Proof.
  intros name pat. rewrite init_compiled_lookup, init_patterns.
  destruct (rules !! name); [eauto|discriminate].
Qed.

(** C8. When some rule of the set has a regex that does not compile,
    [__init__] still returns an extractor: that rule has no compiled
    pattern and its warning is printed, and every rule whose regex
    compiles has its compiled pattern. *)
Theorem bad_rule_is_excluded_alone
    (rules : gmap string PatternInfo) (bad : string) (info : PatternInfo)
    (e : string) :
  rules !! bad = Some info ->
  re_compile w (regex info) = Raise e ->
  exists self printed,
    init w rules = (self, printed)
    /\ patterns self = rules
    /\ compiled_patterns self !! bad = None
    /\ In (compile_warning bad e) printed
    /\ (forall name info' pat,
          rules !! name = Some info' ->
          re_compile w (regex info') = Ok pat ->
          compiled_patterns self !! name = Some pat)
    /\ (forall name pat,
          compiled_patterns self !! name = Some pat ->
          exists info', rules !! name = Some info'
                        /\ re_compile w (regex info') = Ok pat).
Proof.
  intros Hbad He.
  exists (fst (init w rules)), (snd (init w rules)).
  split; [destruct (init w rules); reflexivity|].
  split; [apply init_patterns|].
  split; [|split; [|split]].
  - rewrite init_compiled_lookup, Hbad. simpl. unfold compiles_to.
    rewrite He. reflexivity.
  - rewrite init_printed. apply compile_patterns_spec.
    exists bad, info, e. auto.
  - intros name info' pat Hname Hpat.
    rewrite init_compiled_lookup, Hname. simpl. unfold compiles_to.
    rewrite Hpat. reflexivity.
  - intros name pat. rewrite init_compiled_lookup.
    destruct (rules !! name) as [info'|]; simpl; [|discriminate].
    unfold compiles_to. destruct (re_compile w (regex info')) eqn:Hc;
      [|discriminate].
    intros [= <-]. exists info'. auto.
Qed.

End Loading.

(** The theorem on the rules of the small world, where ["bad"] is ["["]. *)
Lemma bad_rule_is_excluded_alone_witness :
  exists self printed,
    init Demo.world Demo.rules = (self, printed)
    /\ patterns self = Demo.rules
    /\ compiled_patterns self !! "bad" = None
    /\ In (compile_warning "bad" "unterminated character set at position 0") printed
    /\ (forall name info' pat,
          Demo.rules !! name = Some info' ->
          re_compile Demo.world (regex info') = Ok pat ->
          compiled_patterns self !! name = Some pat)
    /\ (forall name pat,
          compiled_patterns self !! name = Some pat ->
          exists info', Demo.rules !! name = Some info'
                        /\ re_compile Demo.world (regex info') = Ok pat).
Proof.
  apply (bad_rule_is_excluded_alone Demo.world Demo.rules "bad"
           (Demo.rule "[" (Some true))).
  - vm_compute. reflexivity.
  - vm_compute. reflexivity.
Defined.

(** ** Disabled rules *)

Section DisabledRules.

Variable w : World.

(** Two rule sets leave the same [file_results] when, name by name, their
    rules leave the same entry. *)
Lemma scan_content_ext
    (patterns1 patterns2 : gmap string PatternInfo)
    (compiled1 compiled2 : gmap string Re.Pattern)
    (cancelled : bool) (content : string) :
  (forall name pat, compiled1 !! name = Some pat -> is_Some (patterns1 !! name)) ->
  (forall name pat, compiled2 !! name = Some pat -> is_Some (patterns2 !! name)) ->
  (forall name,
      compiled1 !! name ≫= rule_entry patterns1 (PyStr.split PyStr.LF content) name
      = compiled2 !! name ≫= rule_entry patterns2 (PyStr.split PyStr.LF content) name) ->
  scan_content patterns1 compiled1 cancelled content
  = scan_content patterns2 compiled2 cancelled content.
Proof.
  intros Hdom1 Hdom2 Hsame.
  destruct (scan_content_returns patterns1 cancelled content compiled1 Hdom1)
    as [fr1 H1].
  destruct (scan_content_returns patterns2 cancelled content compiled2 Hdom2)
    as [fr2 H2].
  rewrite H1, H2. f_equal. apply map_eq. intros name.
  rewrite (scan_content_lookup _ _ _ _ _ H1 name).
  rewrite (scan_content_lookup _ _ _ _ _ H2 name).
  destruct cancelled; [reflexivity|]. apply Hsame.
Qed.

Lemma rule_entry_disabled (patterns : gmap string PatternInfo)
    (lines : list string) (name : string) (info : PatternInfo) (pat : Re.Pattern) :
  patterns !! name = Some info -> get_enabled info = false ->
  rule_entry patterns lines name pat = None.
Proof. intros Hname Hoff. unfold rule_entry. rewrite Hname, Hoff. reflexivity. Qed.

Lemma rule_entry_delete (patterns : gmap string PatternInfo)
    (lines : list string) (name other : string) (pat : Re.Pattern) :
  other <> name ->
  rule_entry (delete name patterns) lines other pat
  = rule_entry patterns lines other pat.
Proof.
  intros Hne. unfold rule_entry. rewrite lookup_delete_ne by congruence.
  reflexivity.
Qed.

(** The source compiles every rule and passes over the disabled ones in
    the loop; the result is the one of the specification's wording. *)
Lemma scan_content_is_scan_spec (rules : gmap string PatternInfo)
    (content : string) :
  scan_content (patterns (fst (init w rules)))
               (compiled_patterns (fst (init w rules))) false content
  = Ok (scan_spec w rules content).
Proof.
  destruct (scan_content_returns _ false content _
              (init_compiled_from_rules w rules)) as [fr Hfr].
  rewrite Hfr. f_equal. apply map_eq. intros name.
  rewrite (scan_content_lookup _ _ _ _ _ Hfr name).
  rewrite init_compiled_lookup, init_patterns.
  unfold scan_spec, compiled_set_spec, enabled_rules_spec.
  rewrite !lookup_omap, map_lookup_filter.
  unfold rule_entry, nonempty_matches.
  destruct (rules !! name) as [info|] eqn:Hinfo; simpl; [|reflexivity].
  destruct (get_enabled info) eqn:Hon.
  - rewrite option_guard_True by reflexivity. simpl.
    destruct (compiles_to w info); reflexivity.
  - rewrite option_guard_False by discriminate. simpl.
    destruct (compiles_to w info); reflexivity.
Qed.

(** C9. A rule whose [enabled] flag is false is, for the scanner, a rule
    that is not there: on every content the extractor loaded with the rule
    and the extractor loaded without it produce the same [file_results];
    that mapping has no entry under the rule's name; the outcome does not
    depend on the rule's compiled pattern, which the loop passes over
    without applying it; and, when the scan is not cancelled, the mapping
    is the one obtained by compiling the enabled rules only and matching
    each of them. *)
Theorem disabled_rule_is_absent_rule
    (rules : gmap string PatternInfo) (name : string) (info : PatternInfo)
    (cancelled : bool) (content : string) :
  rules !! name = Some info ->
  get_enabled info = false ->
  let loaded := fst (init w rules) in
  let without := fst (init w (delete name rules)) in
  scan_content (patterns loaded) (compiled_patterns loaded) cancelled content
  = scan_content (patterns without) (compiled_patterns without) cancelled content
  /\ (exists file_results,
        scan_content (patterns loaded) (compiled_patterns loaded)
                     cancelled content = Ok file_results
        /\ file_results !! name = None)
  /\ (forall pat,
        scan_content (patterns loaded) (<[name := pat]> (compiled_patterns loaded))
                     cancelled content
        = scan_content (patterns loaded) (compiled_patterns loaded)
                       cancelled content)
  /\ scan_content (patterns loaded) (compiled_patterns loaded) false content
     = Ok (scan_spec w rules content).
Proof.
  intros Hname Hoff loaded without. subst loaded without.
  pose proof (init_compiled_from_rules w rules) as Hdom.
  pose proof (init_compiled_from_rules w (delete name rules)) as Hdom'.
  unfold compiled_from_rules in Hdom, Hdom'.
  split; [|split; [|split]]; [| | |apply scan_content_is_scan_spec].
  - apply scan_content_ext; [exact Hdom|exact Hdom'|].
    intros other. rewrite !init_compiled_lookup, !init_patterns.
    destruct (decide (other = name)) as [->|Hne].
    + rewrite lookup_delete_eq, Hname. simpl.
      destruct (compiles_to w info); simpl; [|reflexivity].
      eapply rule_entry_disabled; eauto.
    + rewrite lookup_delete_ne by congruence.
      destruct (rules !! other ≫= compiles_to w); simpl; [|reflexivity].
      symmetry. apply rule_entry_delete. exact Hne.
  - destruct (scan_content_returns _ cancelled content _ Hdom) as [fr Hfr].
    exists fr. split; [exact Hfr|].
    rewrite (scan_content_lookup _ _ _ _ _ Hfr name).
    destruct cancelled; [reflexivity|].
    destruct (compiled_patterns (init w rules).1 !! name); simpl; [|reflexivity].
    rewrite init_patterns. eapply rule_entry_disabled; eauto.
  - intros pat. apply scan_content_ext; [|exact Hdom|].
    + intros other pat'. destruct (decide (other = name)) as [->|Hne].
      * intros _. rewrite init_patterns, Hname. eauto.
      * rewrite lookup_insert_ne by congruence. apply Hdom.
    + intros other. destruct (decide (other = name)) as [->|Hne].
      * rewrite lookup_insert_eq. simpl. rewrite init_patterns.
        rewrite (rule_entry_disabled _ _ _ _ _ Hname Hoff).
        destruct (compiled_patterns (init w rules).1 !! name); simpl;
          [|reflexivity].
        symmetry. eapply rule_entry_disabled; eauto.
      * rewrite lookup_insert_ne by congruence. reflexivity.
Qed.

End DisabledRules.

(** [__init__] compiles the disabled rule all the same; the specification's
    compiled set leaves it out. *)
Example disabled_rule_is_compiled_at_load :
  is_Some (compiled_patterns Demo.extractor !! "off")
  /\ compiled_set_spec Demo.world Demo.rules !! "off" = None.
Proof. split; [vm_compute; eauto|vm_compute; reflexivity]. Qed.

(** The theorem at the rule ["off"] of the small world, on a content in
    which its regex occurs. *)
Lemma disabled_rule_is_absent_rule_witness :
  let loaded := fst (init Demo.world Demo.rules) in
  let without := fst (init Demo.world (delete "off" Demo.rules)) in
  scan_content (patterns loaded) (compiled_patterns loaded) false "api_key=secret"
  = scan_content (patterns without) (compiled_patterns without) false "api_key=secret"
  /\ (exists file_results,
        scan_content (patterns loaded) (compiled_patterns loaded)
                     false "api_key=secret" = Ok file_results
        /\ file_results !! "off" = None)
  /\ (forall pat,
        scan_content (patterns loaded) (<["off" := pat]> (compiled_patterns loaded))
                     false "api_key=secret"
        = scan_content (patterns loaded) (compiled_patterns loaded)
                       false "api_key=secret")
  /\ scan_content (patterns loaded) (compiled_patterns loaded) false "api_key=secret"
     = Ok (scan_spec Demo.world Demo.rules "api_key=secret").
Proof.
  apply (disabled_rule_is_absent_rule Demo.world Demo.rules "off"
           (Demo.rule "secret" (Some false)) false "api_key=secret").
  - vm_compute. reflexivity.
  - reflexivity.
Defined.

(** ** The classifier *)

Section Classifier.

Variable w : World.

Lemma sniff_text_spec (file_path : string) :
  (forall msg, open_rb w file_path = IOFail msg ->
               sniff_text w file_path = false)
  /\ (forall data, open_rb w file_path = IOBytes data ->
        (In x00 (firstn 1024 data) -> sniff_text w file_path = false)
        /\ (~ In x00 (firstn 1024 data) ->
            (sniff_text w file_path = true <->
             is_Some (bytes_decode w utf_8 (firstn 1024 data))
             \/ is_Some (bytes_decode w gbk (firstn 1024 data))))).
Proof.
  unfold sniff_text. split.
  - intros msg ->. reflexivity.
  - intros data ->. split.
    + intros Hnull.
      assert (Hex : existsb (Byte.eqb x00) (firstn 1024 data) = true).
      { apply existsb_exists. exists x00. split; [exact Hnull|reflexivity]. }
      rewrite Hex. reflexivity.
    + intros Hnone.
      assert (Hex : existsb (Byte.eqb x00) (firstn 1024 data) = false).
      { apply not_true_is_false. intros Hex.
        apply existsb_exists in Hex as (b & Hb & Heq).
        apply Byte.byte_dec_bl in Heq. subst b. contradiction. }
      rewrite Hex.
      destruct (bytes_decode w utf_8 (firstn 1024 data)) as [t|].
      * split; [intros _; left; eauto | reflexivity].
      * destruct (bytes_decode w gbk (firstn 1024 data)) as [t|].
        -- split; [intros _; right; eauto | reflexivity].
        -- split; [discriminate|]. intros [[? [=]]|[? [=]]].
Qed.

(** C7. [is_text_file] decides by the first rule that applies, on the
    suffix of the path as [str.lower()] lowers it: a suffix of the binary
    list gives not text; else a suffix of the text list gives text; else a
    MIME type, when one is guessed for the path, gives text exactly for
    [text/...] and for JSON, XML and JavaScript; else the first 1024 bytes
    decide: an [OSError] gives not text, a null byte gives not text, and
    otherwise the file is text exactly when the chunk decodes as UTF-8 or
    as GBK. The path whose type is guessed and which is opened is
    [str(Path(file_path))]. *)
Theorem is_text_file_first_rule_wins (file_path : string) :
  let sfx := str_lower w (Path.suffix file_path) in
  let path := Path.str file_path in
  (sfx ∈ binary_extensions -> is_text_file w file_path = false)
  /\ (sfx ∉ binary_extensions -> sfx ∈ text_extensions ->
      is_text_file w file_path = true)
  /\ (sfx ∉ binary_extensions -> sfx ∉ text_extensions ->
      forall mime_type,
        guess_type w path = Some mime_type -> mime_type <> "" ->
        (is_text_file w file_path = true <->
         PyStr.startswith "text/" mime_type = true
         \/ mime_type = "application/json"
         \/ mime_type = "application/xml"
         \/ mime_type = "application/javascript"))
  /\ (sfx ∉ binary_extensions -> sfx ∉ text_extensions ->
      guess_type w path = None \/ guess_type w path = Some "" ->
      (forall msg, open_rb w path = IOFail msg ->
                   is_text_file w file_path = false)
      /\ (forall data, open_rb w path = IOBytes data ->
            (In x00 (firstn 1024 data) -> is_text_file w file_path = false)
            /\ (~ In x00 (firstn 1024 data) ->
                (is_text_file w file_path = true <->
                 is_Some (bytes_decode w utf_8 (firstn 1024 data))
                 \/ is_Some (bytes_decode w gbk (firstn 1024 data)))))).
Proof.
  intros sfx path. unfold is_text_file. fold sfx. fold path.
  split; [|split; [|split]].
  - intros Hbin. rewrite bool_decide_eq_true_2 by exact Hbin. reflexivity.
  - intros Hbin Htxt. rewrite bool_decide_eq_false_2 by exact Hbin.
    rewrite bool_decide_eq_true_2 by exact Htxt. reflexivity.
  - intros Hbin Htxt mime_type Hmime Hne.
    rewrite bool_decide_eq_false_2 by exact Hbin.
    rewrite bool_decide_eq_false_2 by exact Htxt.
    rewrite Hmime.
    assert (Hempty : PyStr.is_empty mime_type = false)
      by (destruct mime_type; [congruence|reflexivity]).
    rewrite Hempty, orb_true_iff, bool_decide_eq_true.
    unfold structured_text_mime_types.
    rewrite !elem_of_cons, elem_of_nil. tauto.
  - intros Hbin Htxt Hmime.
    rewrite bool_decide_eq_false_2 by exact Hbin.
    rewrite bool_decide_eq_false_2 by exact Htxt.
    assert (Hsniff : match guess_type w path with
                     | Some mime_type =>
                         if PyStr.is_empty mime_type then sniff_text w path
                         else PyStr.startswith "text/" mime_type
                              || bool_decide (mime_type ∈ structured_text_mime_types)
                     | None => sniff_text w path
                     end = sniff_text w path)
      by (destruct Hmime as [->| ->]; reflexivity).
    rewrite Hsniff. apply sniff_text_spec.
Qed.

End Classifier.

(** Closed membership questions are settled by evaluation. *)
Ltac by_evaluation :=
  first [ apply (bool_decide_unpack _); vm_compute; exact I
        | apply (bool_decide_eq_false_1 _); vm_compute; reflexivity ].

(** The theorem in the small world: ["proj/b.png"] falls to the binary
    list, ["proj/a.txt"] to the text list, ["proj/notes.rst"] to its MIME
    type, and ["proj/raw"], three bytes that no codec of that world accepts,
    to the leading bytes. *)
Lemma is_text_file_first_rule_wins_witness :
  is_text_file Demo.world "proj/b.png" = false
  /\ is_text_file Demo.world "proj/a.txt" = true
  /\ is_text_file Demo.world "proj/notes.rst" = true
  /\ is_text_file Demo.world "proj/raw" <> true.
Proof.
  split; [|split; [|split]].
  - apply (proj1 (is_text_file_first_rule_wins Demo.world "proj/b.png")).
    by_evaluation.
  - apply (proj1 (proj2 (is_text_file_first_rule_wins Demo.world "proj/a.txt"))).
    + by_evaluation.
    + by_evaluation.
  - apply (proj1 (proj2 (proj2
             (is_text_file_first_rule_wins Demo.world "proj/notes.rst")))
             ltac:(by_evaluation)
             ltac:(by_evaluation)
             "text/x-rst" eq_refl ltac:(discriminate)).
    left. reflexivity.
  - intros Htext.
    pose proof (proj2 (proj2 (proj2
             (is_text_file_first_rule_wins Demo.world "proj/raw")))
             ltac:(by_evaluation)
             ltac:(by_evaluation)
             (or_introl eq_refl)) as [_ Hbytes].
    destruct (Hbytes [xe9; x74; xe9] eq_refl) as [_ Hchunk].
    apply Hchunk in Htext.
    + destruct Htext as [[t Ht]|[t Ht]]; vm_compute in Ht; discriminate.
    + simpl. intros [H1|[H2|[H3|[]]]]; discriminate.
Defined.

(** ** The content reader *)

Section Reader.

Variable w : World.
Variable file_path : string.







End Reader.





(** ** The root of a scan *)

(** C5. [scan_directory] on a path that does not exist raises
    [FileNotFoundError], and on a path that exists without being a
    directory raises [NotADirectoryError]; in both cases the extractor is
    left exactly as it was: no flag, time, counter, list or result has been
    written, and no callback has been called. The path that is tested is
    [str(Path(directory_path))]. *)
Theorem scan_directory_rejects_bad_root
    (w : World) (directory_path : string) (max_workers : Z)
    (schedule : list Event) (self : Extractor) :
  let root := Path.str directory_path in
  (path_exists w root = false ->
   exists msg, scan_directory w directory_path max_workers schedule self
               = (Some (FileNotFoundError msg), self))
  /\ (path_exists w root = true ->
      path_is_dir w root = false ->
      exists msg, scan_directory w directory_path max_workers schedule self
                  = (Some (NotADirectoryError msg), self)).
Proof.
  intros root. unfold scan_directory. fold root. split.
  - intros ->. simpl. eexists. reflexivity.
  - intros -> ->. simpl. eexists. reflexivity.
Qed.

(** The theorem in the small world: ["nowhere"] does not exist and
    ["proj/a.txt"] is a file. *)
Lemma scan_directory_rejects_bad_root_witness :
  (exists msg, scan_directory Demo.world "nowhere" 8 [Enter "nowhere/x"]
                 Demo.extractor
               = (Some (FileNotFoundError msg), Demo.extractor))
  /\ (exists msg, scan_directory Demo.world "proj/a.txt" 8 [] Demo.extractor
                  = (Some (NotADirectoryError msg), Demo.extractor)).
Proof.
  split.
  - apply (proj1 (scan_directory_rejects_bad_root Demo.world "nowhere" 8
                    [Enter "nowhere/x"] Demo.extractor)).
    reflexivity.
  - apply (proj2 (scan_directory_rejects_bad_root Demo.world "proj/a.txt" 8
                    [] Demo.extractor)); reflexivity.
Defined.

(** ** One file *)

Section OneFile.

Variable w : World.

Lemma read_file_content_keeps (file_path : string) (self : Extractor) :
  let self' := snd (read_file_content w file_path self) in
  patterns self' = patterns self
  /\ compiled_patterns self' = compiled_patterns self
  /\ scan_cancelled self' = scan_cancelled self
  /\ results self' = results self
  /\ stats self' = stats self
  /\ is_scanning self' = is_scanning self
  /\ scanned_files self' = scanned_files self
  /\ skipped_files self' = skipped_files self.
Proof.
  unfold read_file_content.
  destruct (try_encodings w file_path encodings); simpl; repeat split.
Qed.

(** What a call of [scan_file] that is not cancelled puts on record: the
    path goes to [skipped_files] when the classifier says not text, to
    [error_files] when reading raises, to [scanned_files] when a non-empty
    content is read. *)
Lemma scan_file_records (file_path : string) (self : Extractor) :
  scan_cancelled self = false ->
  (is_text_file w file_path = false ->
   scan_file w file_path self
   = (Ok ∅, set_skipped_files (skipped_files self ++ [file_path]) self))
  /\ (is_text_file w file_path = true ->
      forall msg,
        try_encodings w file_path encodings = ReadFailed msg ->
        scan_file w file_path self
        = (Ok ∅, set_error_files (error_files self ++ [(file_path, msg)]) self))
  /\ (is_text_file w file_path = true ->
      forall content,
        try_encodings w file_path encodings = ReadReturned content ->
        content <> "" ->
        scan_file w file_path self
        = (scan_content (patterns self) (compiled_patterns self) false content,
           set_scanned_files (scanned_files self ++ [file_path]) self)).
Proof.
  intros Hrun. unfold scan_file, scan_file_body. rewrite Hrun. split; [|split].
  - intros ->. reflexivity.
  - intros -> msg Hread. simpl. unfold read_file_content. rewrite Hread.
    reflexivity.
  - intros -> content Hread Hne. simpl. unfold read_file_content.
    rewrite Hread. destruct content; [congruence|]. simpl.
    rewrite Hrun. reflexivity.
Qed.

(** C2, at the input where the source departs from it. A text file whose
    content is read as the empty string leaves [scan_file] by the early
    [return {}] meant for a failed read: the call returns no results and
    the extractor is unchanged, so the file is in none of
    [scanned_files], [skipped_files], [error_files]. *)
Theorem empty_file_is_left_unrecorded (file_path : string) (self : Extractor) :
  scan_cancelled self = false ->
  empty_text_file w file_path ->
  scan_file w file_path self = (Ok ∅, self).
Proof.
  intros Hrun [Htext Hread]. unfold scan_file, scan_file_body.
  rewrite Hrun, Htext. simpl. unfold read_file_content. rewrite Hread.
  reflexivity.
Qed.

End OneFile.

(** A scan of a directory that holds one empty text file: one file in
    total, none on record. *)
Example empty_file_scan_counts :
  let w := Demo.single "empty.txt" Demo.world in
  let after := snd (scan_directory w "proj" 8 (Demo.in_order w) Demo.extractor) in
  get_all_files w "proj" = ["proj/empty.txt"]
  /\ total_files (stats after) = 1
  /\ stat_scanned_files (stats after) = 0
  /\ stat_skipped_files (stats after) = 0
  /\ stat_error_files (stats after) = 0.
Proof. repeat split; vm_compute; reflexivity. Qed.

(** The theorem in the small world: ["proj/empty.txt"] holds no byte. *)
Lemma empty_file_is_left_unrecorded_witness :
  scan_file Demo.world "proj/empty.txt" Demo.extractor = (Ok ∅, Demo.extractor).
Proof.
  apply (empty_file_is_left_unrecorded Demo.world "proj/empty.txt" Demo.extractor).
  - reflexivity.
  - split.
    + vm_compute. reflexivity.
    + vm_compute. reflexivity.
Defined.

(** ** Collecting the results of a file *)

Section Collecting.

Lemma count_matches_empty : count_matches ∅ = 0.
Proof. unfold count_matches. apply map_fold_empty. Qed.

(** The loop over [file_results.items()] extends, name by name, the lists
    already there, and counts what it adds. *)
Lemma merge_fold_spec (per_file : gmap string (list MatchEntry)) (n : nat)
    (file_results : gmap string (list MatchEntry)) :
  (forall name,
      fst (map_fold merge_pattern (per_file, n) file_results) !! name
      = match file_results !! name with
        | Some matches => Some (default [] (per_file !! name) ++ matches)
        | None => per_file !! name
        end)
  /\ snd (map_fold merge_pattern (per_file, n) file_results)
     = n + count_matches file_results.
Proof.
  induction file_results as [|i x m Hfresh Hfirst IH] using map_first_key_ind.
  - rewrite count_matches_empty, map_fold_empty. simpl. split; [|lia].
    intros name. rewrite lookup_empty. reflexivity.
  - unfold count_matches.
    rewrite !map_fold_insert_first_key by assumption.
    fold (count_matches m). destruct IH as [IH1 IH2].
    destruct (map_fold merge_pattern (per_file, n) m) as [acc k] eqn:Hfold.
    simpl in IH1, IH2. unfold merge_pattern. simpl. split.
    + intros name. destruct (decide (name = i)) as [->|Hne].
      * rewrite !lookup_insert_eq, IH1, Hfresh. reflexivity.
      * rewrite !lookup_insert_ne by congruence. apply IH1.
    + rewrite IH2. lia.
Qed.

Lemma merge_results_keeps (file_path : string)
    (file_results : gmap string (list MatchEntry)) (self : Extractor) :
  let self' := merge_results file_path file_results self in
  patterns self' = patterns self
  /\ compiled_patterns self' = compiled_patterns self
  /\ scan_cancelled self' = scan_cancelled self
  /\ is_scanning self' = is_scanning self
  /\ scanned_files self' = scanned_files self
  /\ skipped_files self' = skipped_files self
  /\ error_files self' = error_files self
  /\ total_files (stats self') = total_files (stats self)
  /\ start_time (stats self') = start_time (stats self)
  /\ end_time (stats self') = end_time (stats self)
  /\ progress_callback self' = progress_callback self
  /\ status_callback self' = status_callback self.
Proof.
  unfold merge_results.
  destruct (map_fold merge_pattern _ file_results). simpl. repeat split.
Qed.

Lemma merge_results_items (file_path : string)
    (file_results : gmap string (list MatchEntry)) (self : Extractor) :
  sensitive_items (stats (merge_results file_path file_results self))
  = sensitive_items (stats self) + count_matches file_results.
Proof.
  unfold merge_results.
  pose proof (merge_fold_spec (default ∅ (results self !! file_path))
                (sensitive_items (stats self)) file_results) as [_ Hn].
  destruct (map_fold merge_pattern _ file_results). simpl in *. exact Hn.
Qed.

Lemma merge_results_matches_at (file_path : string)
    (file_results : gmap string (list MatchEntry)) (self : Extractor)
    (path name : string) :
  matches_at (results (merge_results file_path file_results self)) path name
  = matches_at (results self) path name
    ++ (if decide (path = file_path) then default [] (file_results !! name)
        else []).
Proof.
  unfold merge_results.
  pose proof (merge_fold_spec (default ∅ (results self !! file_path))
                (sensitive_items (stats self)) file_results) as [Hl _].
  destruct (map_fold merge_pattern _ file_results) as [per_file items].
  simpl in *. unfold matches_at.
  destruct (decide (path = file_path)) as [->|Hne].
  - rewrite lookup_insert_eq. simpl. rewrite Hl.
    destruct (results self !! file_path) as [old|]; simpl.
    + destruct (file_results !! name); simpl; [reflexivity|].
      symmetry. apply app_nil_r.
    + rewrite lookup_empty. destruct (file_results !! name); reflexivity.
  - rewrite lookup_insert_ne by congruence. symmetry. apply app_nil_r.
Qed.

End Collecting.

(** ** The events of a scan *)

Section Events.

Variable w : World.

(** With the flag set the loop over the patterns is left at its first
    turn. *)
Lemma scan_content_cancelled (patterns : gmap string PatternInfo)
    (compiled : gmap string Re.Pattern) (content : string) :
  scan_content patterns compiled true content = Ok ∅.
Proof.
  unfold scan_content.
  apply (map_fold_weak_ind (fun acc _ => acc = Ok ∅)); [reflexivity|].
  intros name pat m acc _ ->. reflexivity.
Qed.

(** A call past line 328 appends the outcome of the file and returns its
    results, or none when the flag has been set since. *)
Lemma scan_file_body_outcome (file_path : string) (self : Extractor) :
  scan_file_body w file_path self
  = (if scan_cancelled self then Ok ∅
     else outcome_results self (file_outcome w file_path false),
     record_outcome file_path (file_outcome w file_path false) self).
Proof.
  unfold scan_file_body, file_outcome, read_file_content.
  destruct (is_text_file w file_path); cbn [negb];
    [|destruct (scan_cancelled self); reflexivity].
  destruct (try_encodings w file_path encodings) as [content|msg|];
    [|destruct (scan_cancelled self); reflexivity..].
  destruct content; [destruct (scan_cancelled self); reflexivity|].
  cbn. destruct (scan_cancelled self) eqn:Hc; [|reflexivity].
  rewrite scan_content_cancelled. reflexivity.
Qed.

(** [scan_file] appends the outcome of the file and returns its results. *)
Lemma scan_file_outcome (file_path : string) (self : Extractor) :
  scan_file w file_path self
  = (outcome_results self (file_outcome w file_path (scan_cancelled self)),
     record_outcome file_path
       (file_outcome w file_path (scan_cancelled self)) self).
Proof.
  unfold scan_file. destruct (scan_cancelled self) eqn:Hc; [reflexivity|].
  rewrite scan_file_body_outcome, Hc. reflexivity.
Qed.

Lemma unrecorded_is_empty_text_file (file_path : string) :
  file_outcome w file_path false = Unrecorded -> empty_text_file w file_path.
Proof.
  unfold file_outcome, empty_text_file.
  destruct (is_text_file w file_path); [|discriminate].
  destruct (try_encodings w file_path encodings) as [content|msg|];
    try discriminate.
  destruct content; [auto|discriminate].
Qed.

Lemma record_outcome_keeps (file_path : string) (o : FileOutcome)
    (self : Extractor) :
  let self' := record_outcome file_path o self in
  patterns self' = patterns self
  /\ compiled_patterns self' = compiled_patterns self
  /\ scan_cancelled self' = scan_cancelled self
  /\ results self' = results self
  /\ stats self' = stats self
  /\ progress_callback self' = progress_callback self
  /\ status_callback self' = status_callback self.
Proof. destruct o; simpl; repeat split. Qed.

Lemma record_outcome_recorded (file_path : string) (o : FileOutcome)
    (self : Extractor) :
  o <> Unrecorded ->
  recorded (record_outcome file_path o self) = S (recorded self).
Proof.
  unfold recorded. destruct o; simpl; intros Ho; try congruence;
    rewrite length_app; simpl; lia.
Qed.

(** What a call appends to each list. *)
Lemma record_outcome_lists (file_path : string) (self : Extractor) :
  let self' := record_outcome file_path (file_outcome w file_path false) self in
  scanned_files self'
  = scanned_files self ++ option_list (scanned_of w file_path)
  /\ skipped_files self'
     = skipped_files self ++ option_list (skipped_of w file_path)
  /\ error_files self'
     = error_files self ++ option_list (errored_of w file_path).
Proof.
  unfold scanned_of, skipped_of, errored_of.
  destruct (file_outcome w file_path false); simpl; rewrite ?app_nil_r; auto.
Qed.

Lemma outcome_results_ext (s s' : Extractor) (o : FileOutcome) :
  patterns s = patterns s' ->
  compiled_patterns s = compiled_patterns s' ->
  outcome_results s o = outcome_results s' o.
Proof. intros Hp Hcp. destruct o; simpl; rewrite ?Hp, ?Hcp; reflexivity. Qed.

Lemma task_results_ext (s s' : Extractor) (file_path : string) :
  patterns s = patterns s' ->
  compiled_patterns s = compiled_patterns s' ->
  task_results w s file_path = task_results w s' file_path.
Proof.
  intros Hp Hcp. unfold task_results.
  rewrite (outcome_results_ext s s' _ Hp Hcp). reflexivity.
Qed.

(** Only a scanned file hands over results. *)
Lemma task_results_scanned (self : Extractor) (file_path : string) :
  task_results w self file_path <> ∅ ->
  exists content, file_outcome w file_path false = Scanned content.
Proof.
  unfold task_results.
  destruct (file_outcome w file_path false); simpl; eauto; congruence.
Qed.

Lemma compiled_from_rules_ext (s s' : Extractor) :
  patterns s' = patterns s ->
  compiled_patterns s' = compiled_patterns s ->
  compiled_from_rules s -> compiled_from_rules s'.
Proof. unfold compiled_from_rules. intros -> ->. auto. Qed.

(** With every compiled pattern under a rule no call raises. *)
Lemma outcome_results_returns (self : Extractor) (o : FileOutcome) :
  compiled_from_rules self ->
  outcome_results self o = Ok (match outcome_results self o with
                               | Ok file_results => file_results
                               | Raise _ => ∅
                               end).
Proof.
  intros Hdom. destruct o; simpl; try reflexivity.
  destruct (scan_content_returns (patterns self) false content
              (compiled_patterns self) Hdom) as [fr ->].
  reflexivity.
Qed.

End Events.

(** ** The collecting loop *)

Section CollectingLoop.

Lemma call_status_ext (s s' : Extractor) (message : string) :
  status_callback s = status_callback s' ->
  call_status s message = call_status s' message.
Proof. unfold call_status. intros ->. reflexivity. Qed.

Lemma call_progress_ext (s s' : Extractor) (completed total : nat)
    (current_file : string) :
  progress_callback s = progress_callback s' ->
  call_progress s completed total current_file
  = call_progress s' completed total current_file.
Proof. unfold call_progress. intros ->. reflexivity. Qed.

Lemma callbacks_return_ext (s s' : Extractor) :
  progress_callback s' = progress_callback s ->
  status_callback s' = status_callback s ->
  callbacks_return s -> callbacks_return s'.
Proof.
  intros Hp Hs [Hprogress Hstatus]. split.
  - intros completed total current_file.
    rewrite (call_progress_ext s' s _ _ _ Hp). apply Hprogress.
  - intros message. rewrite (call_status_ext s' s _ Hs). apply Hstatus.
Qed.

Lemma merge_results_lookup (file_path : string)
    (file_results : gmap string (list MatchEntry)) (self : Extractor)
    (path : string) :
  results (merge_results file_path file_results self) !! path
  = if decide (path = file_path)
    then Some (union_with (fun earlier later => Some (earlier ++ later))
                          (default ∅ (results self !! file_path)) file_results)
    else results self !! path.
Proof.
  unfold merge_results.
  pose proof (merge_fold_spec (default ∅ (results self !! file_path))
                (sensitive_items (stats self)) file_results) as [Hl _].
  destruct (map_fold merge_pattern _ file_results) as [per_file items].
  simpl in *. destruct (decide (path = file_path)) as [->|Hne].
  - rewrite lookup_insert_eq. f_equal. apply map_eq. intros name.
    rewrite Hl, lookup_union_with.
    destruct (default ∅ (results self !! file_path) !! name);
      destruct (file_results !! name); reflexivity.
  - apply lookup_insert_ne. congruence.
Qed.

(** The merge that opens the [try] statement. *)
Lemma merge_step_keeps (file_path : string)
    (file_results : gmap string (list MatchEntry)) (self : Extractor) :
  let self' := if bool_decide (file_results = ∅) then self
               else merge_results file_path file_results self in
  patterns self' = patterns self
  /\ compiled_patterns self' = compiled_patterns self
  /\ scan_cancelled self' = scan_cancelled self
  /\ is_scanning self' = is_scanning self
  /\ scanned_files self' = scanned_files self
  /\ skipped_files self' = skipped_files self
  /\ error_files self' = error_files self
  /\ total_files (stats self') = total_files (stats self)
  /\ start_time (stats self') = start_time (stats self)
  /\ end_time (stats self') = end_time (stats self)
  /\ progress_callback self' = progress_callback self
  /\ status_callback self' = status_callback self.
Proof.
  destruct (bool_decide (file_results = ∅)); [repeat split|].
  apply merge_results_keeps.
Qed.

Lemma merge_step_items (file_path : string)
    (file_results : gmap string (list MatchEntry)) (self : Extractor) :
  sensitive_items
    (stats (if bool_decide (file_results = ∅) then self
            else merge_results file_path file_results self))
  = sensitive_items (stats self) + count_matches file_results.
Proof.
  case_bool_decide as Hfr.
  - rewrite Hfr, count_matches_empty. lia.
  - apply merge_results_items.
Qed.

Lemma merge_step_lookup (file_path : string)
    (file_results : gmap string (list MatchEntry)) (self : Extractor)
    (path : string) :
  results (if bool_decide (file_results = ∅) then self
           else merge_results file_path file_results self) !! path
  = if decide (path = file_path)
    then merged_entry (results self !! path) file_results
    else results self !! path.
Proof.
  unfold merged_entry. case_bool_decide as Hfr.
  - destruct (decide (path = file_path)); reflexivity.
  - rewrite merge_results_lookup.
    destruct (decide (path = file_path)) as [->|]; reflexivity.
Qed.

Lemma merge_step_matches_at (file_path : string)
    (file_results : gmap string (list MatchEntry)) (self : Extractor)
    (path name : string) :
  matches_at
    (results (if bool_decide (file_results = ∅) then self
              else merge_results file_path file_results self)) path name
  = matches_at (results self) path name
    ++ (if decide (path = file_path) then default [] (file_results !! name)
        else []).
Proof.
  case_bool_decide as Hfr.
  - rewrite Hfr, lookup_empty. simpl.
    destruct (decide (path = file_path)); symmetry; apply app_nil_r.
  - apply merge_results_matches_at.
Qed.

(** What one turn of the loop leaves alone. *)
Lemma collect_keeps (total completed : nat) (file_path : string)
    (outcome : Result (gmap string (list MatchEntry))) (self : Extractor) :
  let self' := collect total completed file_path outcome self in
  patterns self' = patterns self
  /\ compiled_patterns self' = compiled_patterns self
  /\ scan_cancelled self' = scan_cancelled self
  /\ is_scanning self' = is_scanning self
  /\ scanned_files self' = scanned_files self
  /\ skipped_files self' = skipped_files self
  /\ total_files (stats self') = total_files (stats self)
  /\ start_time (stats self') = start_time (stats self)
  /\ end_time (stats self') = end_time (stats self)
  /\ progress_callback self' = progress_callback self
  /\ status_callback self' = status_callback self.
Proof.
  unfold collect. destruct outcome as [fr|e]; [|simpl; repeat split].
  pose proof (merge_step_keeps file_path fr self)
    as (Hp & Hcp & Hc & Hi & Hs & Hk & _ & Ht & Hst & Het & Hpc & Hsc).
  cbv zeta in *.
  set (merged := if bool_decide (fr = ∅) then self
                 else merge_results file_path fr self) in *.
  destruct (call_progress merged _ _ _);
    [|destruct (call_status merged _)]; simpl; repeat split; assumption.
Qed.

(** The results and the count of sensitive items after one turn: the
    merge comes before anything that can raise. *)
Lemma collect_items (total completed : nat) (file_path : string)
    (outcome : Result (gmap string (list MatchEntry))) (self : Extractor) :
  sensitive_items (stats (collect total completed file_path outcome self))
  = sensitive_items (stats self) + count_matches (returned outcome).
Proof.
  unfold collect. destruct outcome as [fr|e]; simpl;
    [|rewrite count_matches_empty; lia].
  rewrite <- (merge_step_items file_path fr self).
  set (merged := if bool_decide (fr = ∅) then self
                 else merge_results file_path fr self).
  destruct (call_progress merged _ _ _);
    [|destruct (call_status merged _)]; reflexivity.
Qed.

Lemma collect_lookup (total completed : nat) (file_path : string)
    (outcome : Result (gmap string (list MatchEntry))) (self : Extractor)
    (path : string) :
  results (collect total completed file_path outcome self) !! path
  = if decide (path = file_path)
    then merged_entry (results self !! path) (returned outcome)
    else results self !! path.
Proof.
  unfold collect. destruct outcome as [fr|e]; simpl.
  - rewrite <- (merge_step_lookup file_path fr self path).
    set (merged := if bool_decide (fr = ∅) then self
                   else merge_results file_path fr self).
    destruct (call_progress merged _ _ _);
      [|destruct (call_status merged _)]; reflexivity.
  - unfold merged_entry. rewrite bool_decide_eq_true_2 by reflexivity.
    destruct (decide (path = file_path)); reflexivity.
Qed.

Lemma collect_matches_at (total completed : nat) (file_path : string)
    (outcome : Result (gmap string (list MatchEntry))) (self : Extractor)
    (path name : string) :
  matches_at (results (collect total completed file_path outcome self)) path name
  = matches_at (results self) path name
    ++ (if decide (path = file_path)
        then default [] (returned outcome !! name) else []).
Proof.
  unfold collect. destruct outcome as [fr|e]; simpl.
  - rewrite <- (merge_step_matches_at file_path fr self path name).
    set (merged := if bool_decide (fr = ∅) then self
                   else merge_results file_path fr self).
    destruct (call_progress merged _ _ _);
      [|destruct (call_status merged _)]; reflexivity.
  - rewrite lookup_empty. simpl.
    destruct (decide (path = file_path)); symmetry; apply app_nil_r.
Qed.

(** The list of errors after one turn: what the turn appends does not
    depend on what is on record. *)
Lemma collect_errors (total completed : nat) (file_path : string)
    (outcome : Result (gmap string (list MatchEntry))) (s s0 : Extractor) :
  progress_callback s = progress_callback s0 ->
  status_callback s = status_callback s0 ->
  exists appended,
    error_files (collect total completed file_path outcome s)
    = error_files s ++ appended
    /\ error_files (collect total completed file_path outcome s0)
       = error_files s0 ++ appended.
Proof.
  intros Hpc Hsc. unfold collect. destruct outcome as [fr|e].
  - pose proof (merge_step_keeps file_path fr s)
      as (_ & _ & _ & _ & _ & _ & He & _ & _ & _ & Hp & Hs).
    pose proof (merge_step_keeps file_path fr s0)
      as (_ & _ & _ & _ & _ & _ & He0 & _ & _ & _ & Hp0 & Hs0).
    cbv zeta in *.
    set (merged := if bool_decide (fr = ∅) then s
                   else merge_results file_path fr s) in *.
    set (merged0 := if bool_decide (fr = ∅) then s0
                    else merge_results file_path fr s0) in *.
    rewrite (call_progress_ext merged merged0) by congruence.
    rewrite (call_status_ext merged merged0) by congruence.
    destruct (call_progress merged0 _ _ _) as [e|];
      [|destruct (call_status merged0 _) as [e|]]; simpl;
      rewrite ?He, ?He0; eauto.
    exists []. rewrite !app_nil_r. auto.
  - simpl. eauto.
Qed.

(** When the call returned and the callbacks return, nothing is appended
    to [error_files]. *)
Lemma collect_quietly (total completed : nat) (file_path : string)
    (file_results : gmap string (list MatchEntry)) (self : Extractor) :
  callbacks_return self ->
  error_files (collect total completed file_path (Ok file_results) self)
  = error_files self.
Proof.
  intros Hquiet. unfold collect.
  pose proof (merge_step_keeps file_path file_results self)
    as (_ & _ & _ & _ & _ & _ & He & _ & _ & _ & Hp & Hs).
  cbv zeta in *.
  set (merged := if bool_decide (file_results = ∅) then self
                 else merge_results file_path file_results self) in *.
  destruct (callbacks_return_ext self merged Hp Hs Hquiet) as [Hprogress Hstatus].
  rewrite Hprogress, Hstatus. exact He.
Qed.

End CollectingLoop.

(** ** The books of the pool *)

Section Taking.

Context {A : Type} (key : A -> string).

Lemma take_Some (p : string) (l : list A) (x : A) (rest : list A) :
  take key p l = Some (x, rest) -> key x = p /\ l ≡ₚ x :: rest.
Proof.
  revert x rest. induction l as [|y l IH]; intros x rest; simpl; [discriminate|].
  destruct (String.eqb (key y) p) eqn:Heq.
  - intros [= <- <-]. apply String.eqb_eq in Heq. split; [exact Heq|reflexivity].
  - destruct (take key p l) as [[z rest']|]; [|discriminate].
    intros [= <- <-]. destruct (IH z rest' eq_refl) as [Hk Hp].
    split; [exact Hk|]. rewrite Hp. apply perm_swap.
Qed.

Lemma take_map (p : string) (l : list A) :
  take id p (map key l)
  = match take key p l with
    | Some (x, rest) => Some (key x, map key rest)
    | None => None
    end.
Proof.
  induction l as [|y l IH]; cbn [take map]; [reflexivity|]. unfold id at 1.
  destruct (String.eqb (key y) p); [reflexivity|].
  rewrite IH. destruct (take key p l) as [[z rest']|]; reflexivity.
Qed.

End Taking.

Section Books.

Lemma take_path (p : string) (l : list string) (q : string) (rest : list string) :
  take id p l = Some (q, rest) -> q = p /\ l ≡ₚ p :: rest.
Proof.
  intros Htake. destruct (take_Some id p l q rest Htake) as [Hq Hperm].
  unfold id in Hq. subst q. auto.
Qed.

Lemma appended_in_app (s1 s2 : list Step) :
  appended_in (s1 ++ s2) = appended_in s1 ++ appended_in s2.
Proof. apply omap_app. Qed.

Lemma merged_in_app (s1 s2 : list Step) :
  merged_in (s1 ++ s2) = merged_in s1 ++ merged_in s2.
Proof. apply omap_app. Qed.

Lemma books_after_cons (b : Books) (ev : Event) (schedule : list Event) :
  books_after b (ev :: schedule) = books_after (fst (effect b ev)) schedule.
Proof. reflexivity. Qed.



(** One event without a cancellation: a task that leaves the queue is in
    flight, a call in flight appends and its future is done, a future that
    is done is merged. *)
Lemma effect_balance (ev : Event) (b : Books) :
  flagged b = false ->
  ev <> CancelRequest ->
  let b' := fst (effect b ev) in
  let steps := snd (effect b ev) in
  flagged b' = false
  /\ waiting b ++ running b ≡ₚ appended_in steps ++ waiting b' ++ running b'
  /\ finished b ++ appended_in steps ≡ₚ merged_in steps ++ finished b'.
Proof.
  intros Hflag Hev. destruct ev as [p|p|p|]; [| | |congruence]; cbn [effect].
  - destruct (take id p (waiting b)) as [[q rest]|] eqn:Htake;
      [|simpl; rewrite app_nil_r; auto].
    apply take_path in Htake as [-> Hperm]. rewrite Hflag. simpl.
    rewrite app_nil_r. repeat split; [|reflexivity].
    rewrite Hperm. solve_Permutation.
  - destruct (take id p (running b)) as [[q rest]|] eqn:Htake;
      [|simpl; rewrite app_nil_r; auto].
    apply take_path in Htake as [-> Hperm]. simpl.
    repeat split; [exact Hflag| |reflexivity].
    rewrite Hperm. solve_Permutation.
  - destruct (take id p (finished b)) as [[q rest]|] eqn:Htake;
      [|simpl; rewrite app_nil_r; auto].
    apply take_path in Htake as [-> Hperm]. rewrite Hflag. simpl.
    rewrite app_nil_r. repeat split; [reflexivity|exact Hperm].
Qed.

(** Without a cancellation every task that leaves the queue appends, and
    every future that is done was appended for. *)
Lemma books_balance (schedule : list Event) (b : Books) :
  flagged b = false ->
  cancel_free schedule = true ->
  let b' := books_after b schedule in
  let steps := steps_from b schedule in
  flagged b' = false
  /\ waiting b ++ running b ≡ₚ appended_in steps ++ waiting b' ++ running b'
  /\ finished b ++ appended_in steps ≡ₚ merged_in steps ++ finished b'.
Proof.
  revert b. induction schedule as [|ev schedule IH]; intros b Hflag Hfree.
  - simpl. rewrite app_nil_r. auto.
  - simpl in Hfree. apply andb_true_iff in Hfree as [Hev Hfree].
    assert (Hne : ev <> CancelRequest) by (intros ->; discriminate).
    destruct (effect_balance ev b Hflag Hne) as (Hf1 & Hw1 & Hfin1).
    destruct (IH _ Hf1 Hfree) as (Hf & Hw & Hfin).
    cbv zeta in *. rewrite books_after_cons. cbn [steps_from].
    rewrite appended_in_app, merged_in_app.
    split; [exact Hf|split].
    + rewrite Hw1, Hw, app_assoc. reflexivity.
    + rewrite <- app_assoc, <- Hfin.
      rewrite (app_assoc (finished b)), Hfin1, app_assoc. reflexivity.
Qed.

(** Cancelled or not, a call appends only for a task that was in the queue
    or in flight, once. *)
Lemma effect_bound (ev : Event) (b : Books) :
  let b' := fst (effect b ev) in
  appended_in (snd (effect b ev)) ++ waiting b' ++ running b'
  ⊆+ waiting b ++ running b.
Proof.
  destruct ev as [p|p|p|]; cbn [effect].
  - destruct (take id p (waiting b)) as [[q rest]|] eqn:Htake; [|reflexivity].
    apply take_path in Htake as [-> Hperm]. rewrite Hperm.
    destruct (flagged b); simpl.
    + apply submseteq_cons. reflexivity.
    + apply Permutation_submseteq. solve_Permutation.
  - destruct (take id p (running b)) as [[q rest]|] eqn:Htake; [|reflexivity].
    apply take_path in Htake as [-> Hperm]. rewrite Hperm. simpl.
    apply Permutation_submseteq. solve_Permutation.
  - destruct (take id p (finished b)) as [[q rest]|]; [|reflexivity].
    destruct (flagged b); reflexivity.
  - reflexivity.
Qed.

Lemma books_bound (schedule : list Event) (b : Books) :
  let b' := books_after b schedule in
  appended_in (steps_from b schedule) ++ waiting b' ++ running b'
  ⊆+ waiting b ++ running b.
Proof.
  revert b. induction schedule as [|ev schedule IH]; intros b; [reflexivity|].
  cbv zeta. rewrite books_after_cons. cbn [steps_from].
  rewrite appended_in_app, <- app_assoc.
  etransitivity; [|apply effect_bound].
  apply submseteq_app; [reflexivity|apply IH].
Qed.



End Books.

(** ** The pool and its books *)

Section Trace.

Variable w : World.
Variable total : nat.

(** An event of the pool does to the books what [effect] says, and to the
    extractor what the steps of the event say. *)
Lemma run_event_trace (ev : Event) (pool : Pool) :
  futures_fit w pool ->
  let pool' := run_event w total pool ev in
  books_of pool' = fst (effect (books_of pool) ev)
  /\ (completed pool', owner pool')
     = fold_left (stepped w total) (snd (effect (books_of pool) ev))
                 (completed pool, owner pool)
  /\ futures_fit w pool'.
Proof.
  intros Hfit. destruct ev as [p|p|p|]; cbn [run_event effect books_of waiting
    running finished flagged].
  - destruct (take id p (queue pool)) as [[q rest]|]; [|auto].
    destruct (scan_cancelled (owner pool)) eqn:Hc; unfold books_of; simpl;
      rewrite ?Hc, ?map_app; simpl; repeat split; auto.
    intros Hrun. unfold futures_fit in *. simpl in *. congruence.
  - destruct (take id p (in_flight pool)) as [[q rest]|]; [|auto].
    rewrite scan_file_body_outcome.
    set (o := file_outcome w p false).
    pose proof (record_outcome_keeps p o (owner pool))
      as (Hp & Hcp & Hc & _).
    cbv zeta in Hp, Hcp, Hc.
    unfold books_of. simpl. rewrite Hc, map_app. simpl. repeat split.
    unfold futures_fit in *. simpl. rewrite Hc. intros Hrun q' outcome Hin.
    rewrite (outcome_results_ext _ (owner pool) _ Hp Hcp).
    apply in_app_or in Hin as [Hin|[[= <- <-]|[]]].
    + apply Hfit; assumption.
    + rewrite Hrun. reflexivity.
  - rewrite take_map.
    destruct (take fst p (done pool)) as [[[q outcome] rest]|] eqn:Htake;
      [|auto].
    apply take_Some in Htake as [Hq Hperm]. simpl in Hq. subst q.
    destruct (scan_cancelled (owner pool)) eqn:Hc; [auto|].
    assert (Hout : outcome = outcome_results (owner pool) (file_outcome w p false)).
    { apply Hfit; [exact Hc|].
      apply (Permutation_in (l := (p, outcome) :: rest));
        [symmetry; exact Hperm|left; reflexivity]. }
    pose proof (collect_keeps total (S (completed pool)) p outcome (owner pool))
      as (Hp & Hcp & Hc' & _).
    cbv zeta in Hp, Hcp, Hc'.
    unfold books_of. simpl. rewrite Hc', Hc. repeat split.
    + rewrite Hout. reflexivity.
    + unfold futures_fit in *. simpl. intros _ q' outcome' Hin.
      rewrite (outcome_results_ext _ (owner pool) _ Hp Hcp).
      apply Hfit; [exact Hc|].
      apply (Permutation_in (l := (p, outcome) :: rest));
        [symmetry; exact Hperm|right; exact Hin].
  - unfold books_of. simpl. repeat split.
    unfold futures_fit. simpl. discriminate.
Qed.

Lemma run_trace (schedule : list Event) (pool : Pool) :
  futures_fit w pool ->
  let pool' := fold_left (run_event w total) schedule pool in
  books_of pool' = books_after (books_of pool) schedule
  /\ (completed pool', owner pool')
     = fold_left (stepped w total) (steps_from (books_of pool) schedule)
                 (completed pool, owner pool).
Proof.
  revert pool. induction schedule as [|ev schedule IH]; intros pool Hfit;
    [split; reflexivity|].
  destruct (run_event_trace ev pool Hfit) as (Hbooks & Hstate & Hfit').
  destruct (IH _ Hfit') as [Hb Hs]. cbv zeta in *.
  cbn [fold_left steps_from]. rewrite books_after_cons, fold_left_app.
  rewrite <- Hbooks, <- Hstate. auto.
Qed.

End Trace.

(** ** The steps of a scan *)

Section Steps.

Variable w : World.
Variable total : nat.

Lemma appended_in_cons (step : Step) (steps : list Step) :
  appended_in (step :: steps) = appended_in [step] ++ appended_in steps.
Proof. apply (appended_in_app [step] steps). Qed.

Lemma merged_in_cons (step : Step) (steps : list Step) :
  merged_in (step :: steps) = merged_in [step] ++ merged_in steps.
Proof. apply (merged_in_app [step] steps). Qed.

Lemma omap_singleton {A B} (f : A -> option B) (x : A) :
  omap f [x] = option_list (f x).
Proof. simpl. destruct (f x); reflexivity. Qed.

Lemma omap_cons_option_list {A B} (f : A -> option B) (x : A) (l : list A) :
  omap f (x :: l) = option_list (f x) ++ omap f l.
Proof. simpl. destruct (f x); reflexivity. Qed.

Lemma sum_list_with_ext {A} (f g : A -> nat) (l : list A) :
  (forall x, f x = g x) -> sum_list_with f l = sum_list_with g l.
Proof.
  intros Hfg. induction l as [|x l IH]; simpl; [reflexivity|].
  rewrite Hfg, IH. reflexivity.
Qed.

(** No step touches the rules, the callbacks, [total_files] or
    [start_time]. *)
Lemma stepped_keeps (step : Step) (completed : nat) (self : Extractor) :
  let self' := snd (stepped w total (completed, self) step) in
  patterns self' = patterns self
  /\ compiled_patterns self' = compiled_patterns self
  /\ progress_callback self' = progress_callback self
  /\ status_callback self' = status_callback self
  /\ total_files (stats self') = total_files (stats self)
  /\ start_time (stats self') = start_time (stats self).
Proof.
  destruct step as [p|p|]; cbn [stepped snd].
  - pose proof (record_outcome_keeps p (file_outcome w p false) self)
      as (Hp & Hcp & _ & _ & Hst & Hpc & Hsc).
    cbv zeta in *. rewrite Hst. auto 10.
  - pose proof (collect_keeps total (S completed) p
                  (outcome_results self (file_outcome w p false)) self)
      as (Hp & Hcp & _ & _ & _ & _ & Ht & Hs & _ & Hpc & Hsc).
    auto 10.
  - simpl. auto 10.
Qed.

Lemma steps_keep (steps : list Step) (completed : nat) (self : Extractor) :
  let self' := snd (fold_left (stepped w total) steps (completed, self)) in
  patterns self' = patterns self
  /\ compiled_patterns self' = compiled_patterns self
  /\ progress_callback self' = progress_callback self
  /\ status_callback self' = status_callback self
  /\ total_files (stats self') = total_files (stats self)
  /\ start_time (stats self') = start_time (stats self).
Proof.
  revert completed self. induction steps as [|step steps IH];
    intros completed self; [simpl; auto 10|].
  cbn [fold_left].
  destruct (stepped w total (completed, self) step) as [n1 s1] eqn:Hstep.
  pose proof (stepped_keeps step completed self) as Hone.
  rewrite Hstep in Hone. cbn [snd] in Hone.
  destruct Hone as (Hp & Hcp & Hpc & Hsc & Ht & Hs).
  destruct (IH n1 s1) as (Hp' & Hcp' & Hpc' & Hsc' & Ht' & Hs').
  cbv zeta in *. rewrite Hp', Hcp', Hpc', Hsc', Ht', Hs'. auto 10.
Qed.

(** What one step does to the lists of scanned and skipped files and to
    the count of sensitive items. *)
Lemma stepped_lists (step : Step) (completed : nat) (self : Extractor) :
  let self' := snd (stepped w total (completed, self) step) in
  scanned_files self'
  = scanned_files self ++ omap (scanned_of w) (appended_in [step])
  /\ skipped_files self'
     = skipped_files self ++ omap (skipped_of w) (appended_in [step])
  /\ sensitive_items (stats self')
     = sensitive_items (stats self)
       + sum_list_with (fun p => count_matches (task_results w self p))
                       (merged_in [step]).
Proof.
  destruct step as [p|p|]; cbn [stepped snd].
  - change (appended_in [Recorded p]) with [p].
    change (merged_in [Recorded p]) with (@nil string).
    pose proof (record_outcome_lists w p self) as (Hs & Hk & _).
    pose proof (record_outcome_keeps p (file_outcome w p false) self)
      as (_ & _ & _ & _ & Hst & _).
    cbv zeta in *. rewrite Hs, Hk, Hst, !omap_singleton. simpl.
    auto with arith.
  - change (appended_in [Merged p]) with (@nil string).
    change (merged_in [Merged p]) with [p].
    pose proof (collect_keeps total (S completed) p
                  (outcome_results self (file_outcome w p false)) self)
      as (_ & _ & _ & _ & Hs & Hk & _).
    cbv zeta in *. rewrite Hs, Hk, collect_items. simpl.
    rewrite !app_nil_r, Nat.add_0_r. auto.
  - simpl. rewrite !app_nil_r, Nat.add_0_r. auto.
Qed.

(** The lists of scanned and skipped files grow in the order of the
    appends, and the count of sensitive items by what is merged. *)
Lemma steps_lists (steps : list Step) (completed : nat) (self : Extractor) :
  let self' := snd (fold_left (stepped w total) steps (completed, self)) in
  scanned_files self'
  = scanned_files self ++ omap (scanned_of w) (appended_in steps)
  /\ skipped_files self'
     = skipped_files self ++ omap (skipped_of w) (appended_in steps)
  /\ sensitive_items (stats self')
     = sensitive_items (stats self)
       + sum_list_with (fun p => count_matches (task_results w self p))
                       (merged_in steps).
Proof.
  revert completed self. induction steps as [|step steps IH];
    intros completed self.
  - simpl. rewrite !app_nil_r, Nat.add_0_r. auto.
  - cbn [fold_left].
    destruct (stepped w total (completed, self) step) as [n1 s1] eqn:Hstep.
    pose proof (stepped_lists step completed self) as Hone.
    pose proof (stepped_keeps step completed self) as Hkeep.
    rewrite Hstep in Hone, Hkeep. cbn [snd] in Hone, Hkeep.
    destruct Hone as (Hs & Hk & Hn).
    destruct Hkeep as (Hp & Hcp & _).
    destruct (IH n1 s1) as (Hs' & Hk' & Hn'). cbv zeta in *.
    rewrite Hs', Hk', Hn', Hs, Hk, Hn.
    rewrite (appended_in_cons step steps), (merged_in_cons step steps).
    rewrite !omap_app, <- !app_assoc, sum_list_with_app.
    repeat split; auto.
    rewrite <- Nat.add_assoc. f_equal. f_equal.
    apply sum_list_with_ext. intros q. f_equal.
    apply task_results_ext; assumption.
Qed.

(** What one step does to [results]. *)
Lemma stepped_lookup (step : Step) (completed : nat) (self : Extractor)
    (path : string) :
  results (snd (stepped w total (completed, self) step)) !! path
  = if decide (path ∈ merged_in [step])
    then merged_entry (results self !! path) (task_results w self path)
    else results self !! path.
Proof.
  destruct step as [p|p|]; cbn [stepped snd].
  - change (merged_in [Recorded p]) with (@nil string).
    pose proof (record_outcome_keeps p (file_outcome w p false) self)
      as (_ & _ & _ & Hres & _).
    cbv zeta in Hres. rewrite Hres.
    destruct (decide (path ∈ [])) as [Hin|]; [|reflexivity].
    apply elem_of_nil in Hin. contradiction.
  - change (merged_in [Merged p]) with [p]. rewrite collect_lookup.
    destruct (decide (path = p)) as [->|Hne];
      destruct (decide (_ ∈ [p])) as [Hin|Hout]; try reflexivity.
    + exfalso. apply Hout. left.
    + exfalso. apply list_elem_of_singleton in Hin. contradiction.
  - change (merged_in [Flagged]) with (@nil string).
    destruct (decide (path ∈ [])) as [Hin|]; [|reflexivity].
    apply elem_of_nil in Hin. contradiction.
Qed.

Lemma merged_entry_of_nothing (old : option (gmap string (list MatchEntry))) :
  merged_entry old ∅ = old.
Proof. unfold merged_entry. rewrite bool_decide_eq_true_2; reflexivity. Qed.

(** With no file merged twice, [results] holds for each merged file its
    earlier entry merged with what its call returned, and is untouched
    elsewhere. *)
Lemma steps_lookup (steps : list Step) (completed : nat) (self : Extractor) :
  NoDup (merged_in steps) ->
  forall path,
    results (snd (fold_left (stepped w total) steps (completed, self))) !! path
    = if decide (path ∈ merged_in steps)
      then merged_entry (results self !! path) (task_results w self path)
      else results self !! path.
Proof.
  revert completed self. induction steps as [|step steps IH];
    intros completed self Hnodup path.
  - simpl. destruct (decide (path ∈ [])) as [Hin|]; [|reflexivity].
    apply elem_of_nil in Hin. contradiction.
  - cbn [fold_left].
    destruct (stepped w total (completed, self) step) as [n1 s1] eqn:Hstep.
    pose proof (stepped_lookup step completed self path) as Hone.
    pose proof (stepped_keeps step completed self) as Hkeep.
    rewrite Hstep in Hone, Hkeep. cbn [snd] in Hone, Hkeep.
    destruct Hkeep as (Hp & Hcp & _).
    rewrite (merged_in_cons step steps) in Hnodup |- *.
    apply NoDup_app in Hnodup as (_ & Hdisjoint & Hnodup).
    rewrite (IH n1 s1 Hnodup path), Hone.
    rewrite (task_results_ext w s1 self path Hp Hcp).
    destruct (decide (path ∈ merged_in [step])) as [Hin|Hout];
      destruct (decide (path ∈ merged_in steps)) as [Hin'|Hout'];
      destruct (decide (path ∈ merged_in [step] ++ merged_in steps))
        as [Hin''|Hout'']; try reflexivity.
    + exfalso. exact (Hdisjoint path Hin Hin').
    + exfalso. apply Hout''. apply elem_of_app. auto.
    + exfalso. apply Hout''. apply elem_of_app. auto.
    + exfalso. apply Hout''. apply elem_of_app. auto.
    + exfalso. apply elem_of_app in Hin'' as [?|?]; contradiction.
Qed.

(** When no call raises and the callbacks return, [error_files] grows in
    the order of the appends, by the files whose reading failed. *)
Lemma steps_errors (steps : list Step) (completed : nat) (self : Extractor) :
  compiled_from_rules self ->
  callbacks_return self ->
  error_files (snd (fold_left (stepped w total) steps (completed, self)))
  = error_files self ++ omap (errored_of w) (appended_in steps).
Proof.
  revert completed self. induction steps as [|step steps IH];
    intros completed self Hdom Hquiet.
  - simpl. rewrite app_nil_r. reflexivity.
  - cbn [fold_left].
    destruct (stepped w total (completed, self) step) as [n1 s1] eqn:Hstep.
    pose proof (stepped_keeps step completed self) as Hkeep.
    rewrite Hstep in Hkeep. cbn [snd] in Hkeep.
    destruct Hkeep as (Hp & Hcp & Hpc & Hsc & _).
    rewrite (IH n1 s1).
    + rewrite (appended_in_cons step steps), omap_app, app_assoc. f_equal.
      destruct step as [p|p|]; cbv beta iota delta [stepped] in Hstep;
        apply pair_equal_spec in Hstep as [_ <-].
      * change (appended_in [Recorded p]) with [p].
        pose proof (record_outcome_lists w p self) as (_ & _ & He).
        cbv zeta in He. rewrite He, omap_singleton. reflexivity.
      * change (appended_in [Merged p]) with (@nil string).
        rewrite (outcome_results_returns self _ Hdom). simpl omap.
        rewrite app_nil_r. apply collect_quietly. exact Hquiet.
      * simpl. rewrite app_nil_r. reflexivity.
    + eapply compiled_from_rules_ext; eauto.
    + eapply callbacks_return_ext; eauto.
Qed.

End Steps.

(** ** [scan_directory] and its pool *)

Section ScanDirectory.

Variable w : World.

(** The pool of a scan follows the books that open with every file in the
    queue, and its extractor takes the steps of the schedule from the
    extractor of [begin_scan]. *)
Lemma pool_after_trace (directory_path : string) (schedule : list Event)
    (self : Extractor) :
  let root := Path.str directory_path in
  let all_files := get_all_files w root in
  let pool := pool_after w directory_path schedule self in
  books_of pool = books_after (opening_books all_files) schedule
  /\ owner pool
     = snd (fold_left (stepped w (length all_files))
                      (steps_from (opening_books all_files) schedule)
                      (0, begin_scan w root self)).
Proof.
  intros root all_files pool.
  destruct (run_trace w (length all_files) schedule
              (submit all_files (begin_scan w root self))) as [Hbooks Hstate].
  { unfold futures_fit. simpl. intros _ file_path outcome []. }
  split; [exact Hbooks|].
  change (owner pool) with (snd (completed pool, owner pool)).
  subst pool. unfold pool_after. fold root. fold all_files.
  rewrite Hstate. reflexivity.
Qed.

Lemma reaches_pool_spec (directory_path : string) (max_workers : Z)
    (self : Extractor) :
  let root := Path.str directory_path in
  reaches_pool w directory_path max_workers self = true
  <-> path_exists w root = true
      /\ path_is_dir w root = true
      /\ call_status self listing_message = None
      /\ call_status self (found_message (length (get_all_files w root))) = None
      /\ (0 < max_workers)%Z.
Proof.
  intros root. unfold reaches_pool. fold root.
  rewrite !andb_true_iff, !bool_decide_eq_true. tauto.
Qed.

(** A call that reaches the pool runs the schedule and closes the scan;
    only the last call of the status callback can still raise. *)
Lemma scan_directory_runs (directory_path : string) (max_workers : Z)
    (schedule : list Event) (self : Extractor) :
  reaches_pool w directory_path max_workers self = true ->
  let after := end_scan w (owner (pool_after w directory_path schedule self)) in
  scan_directory w directory_path max_workers schedule self
  = (option_map CallbackError (call_status after (closing_message after)),
     after).
Proof.
  intros Hreach. apply reaches_pool_spec in Hreach
    as (He & Hd & Hlisting & Hfound & Hworkers).
  cbv zeta. unfold scan_directory. rewrite He, Hd. cbn [negb].
  change (call_status
            (set_stats _ (set_scan_cancelled false (set_is_scanning true self)))
            listing_message)
    with (call_status self listing_message).
  rewrite Hlisting.
  change (call_status (set_stats _ (set_stats _ _)) (found_message ?n))
    with (call_status self (found_message n)).
  rewrite Hfound.
  assert (Hleb : (max_workers <=? 0)%Z = false) by (apply Z.leb_gt; exact Hworkers).
  rewrite Hleb. reflexivity.
Qed.

(** A call that does not reach the pool does not look at the schedule. *)
Lemma scan_directory_stops (directory_path : string) (max_workers : Z)
    (schedule : list Event) (self : Extractor) :
  reaches_pool w directory_path max_workers self = false ->
  scan_directory w directory_path max_workers schedule self
  = scan_directory w directory_path max_workers [] self.
Proof.
  intros Hstop. unfold scan_directory.
  destruct (path_exists w (Path.str directory_path)) eqn:He; [|reflexivity].
  destruct (path_is_dir w (Path.str directory_path)) eqn:Hd; [|reflexivity].
  cbn [negb].
  destruct (call_status _ listing_message) eqn:Hlisting; [reflexivity|].
  destruct (call_status _ (found_message _)) eqn:Hfound; [reflexivity|].
  destruct (max_workers <=? 0)%Z eqn:Hleb; [reflexivity|].
  exfalso. apply Z.leb_gt in Hleb.
  assert (Hreach : reaches_pool w directory_path max_workers self = true).
  { apply reaches_pool_spec. auto. }
  congruence.
Qed.

(** What the pool leaves alone. *)
Lemma pool_after_keeps (directory_path : string) (schedule : list Event)
    (self : Extractor) :
  let root := Path.str directory_path in
  let finish := owner (pool_after w directory_path schedule self) in
  patterns finish = patterns self
  /\ compiled_patterns finish = compiled_patterns self
  /\ progress_callback finish = progress_callback self
  /\ status_callback finish = status_callback self
  /\ total_files (stats finish) = length (get_all_files w root)
  /\ start_time (stats finish) = Some (clock_start w).
Proof.
  intros root finish. subst finish.
  rewrite (proj2 (pool_after_trace directory_path schedule self)).
  apply (steps_keep w (length (get_all_files w root)) _ 0 (begin_scan w root self)).
Qed.

(** With callbacks that return, a directory and a positive number of
    workers, the call reaches the pool and returns. *)
Lemma quiet_scan_returns (directory_path : string) (max_workers : Z)
    (schedule : list Event) (self : Extractor) :
  let root := Path.str directory_path in
  path_exists w root = true ->
  path_is_dir w root = true ->
  (0 < max_workers)%Z ->
  callbacks_return self ->
  scan_directory w directory_path max_workers schedule self
  = (None, end_scan w (owner (pool_after w directory_path schedule self))).
Proof.
  intros root He Hd Hworkers Hquiet.
  assert (Hreach : reaches_pool w directory_path max_workers self = true).
  { apply reaches_pool_spec. destruct Hquiet as [_ Hstatus]. auto. }
  rewrite (scan_directory_runs directory_path max_workers schedule self Hreach).
  cbv zeta.
  destruct (pool_after_keeps directory_path schedule self)
    as (_ & _ & Hpc & Hsc & _).
  cbv zeta in Hpc, Hsc.
  assert (Hquiet' : callbacks_return
                      (end_scan w (owner (pool_after w directory_path schedule self)))).
  { eapply callbacks_return_ext; [| |exact Hquiet]; simpl; assumption. }
  rewrite (proj2 Hquiet'). reflexivity.
Qed.

End ScanDirectory.

(** ** The statistics of a scan *)

Section Statistics.

Variable w : World.

Lemma partition_by_outcome (files : list string) :
  (forall p, In p files -> file_outcome w p false <> Unrecorded) ->
  Permutation
    (omap (scanned_of w) files ++ omap (skipped_of w) files
     ++ map fst (omap (errored_of w) files))
    files.
Proof.
  induction files as [|p files IH]; intros Hrec; [constructor|].
  assert (IH' := IH (fun q Hq => Hrec q (or_intror Hq))).
  assert (Hp := Hrec p (or_introl eq_refl)).
  rewrite !(omap_app _ [p] files), !omap_singleton.
  unfold scanned_of, skipped_of, errored_of at 1.
  destruct (file_outcome w p false); [| | |congruence]; simpl.
  - constructor. exact IH'.
  - etransitivity; [symmetry; apply Permutation_middle|].
    constructor. exact IH'.
  - rewrite app_assoc.
    etransitivity; [symmetry; apply Permutation_middle|].
    constructor. rewrite <- app_assoc. exact IH'.
Qed.

(** In a whole schedule without cancellation the calls append for the
    discovered files, each once, and the futures of these files are
    merged, each once. *)
Lemma whole_schedule (directory_path : string) (schedule : list Event) :
  schedule_of w directory_path schedule ->
  cancel_free schedule = true ->
  let all_files := get_all_files w directory_path in
  appending all_files schedule ≡ₚ all_files
  /\ merging all_files schedule ≡ₚ all_files.
Proof.
  intros (Hqueue & Hflight & Hdone) Hfree all_files.
  destruct (books_balance schedule (opening_books all_files) eq_refl Hfree)
    as (Hflag & Hw & Hfin).
  cbv zeta in *. fold all_files in Hqueue, Hflight, Hdone.
  rewrite Hqueue, Hflight in Hw. rewrite (Hdone Hflag) in Hfin.
  simpl in Hw, Hfin. rewrite !app_nil_r in *.
  unfold appending, merging. split.
  - symmetry. exact Hw.
  - rewrite <- Hfin. symmetry. exact Hw.
Qed.

(** The three lists after a scan in which no call raises and the callbacks
    return. *)
Lemma quiet_scan_lists (directory_path : string) (max_workers : Z)
    (schedule : list Event) (self : Extractor) :
  let root := Path.str directory_path in
  path_exists w root = true ->
  path_is_dir w root = true ->
  (0 < max_workers)%Z ->
  compiled_from_rules self ->
  callbacks_return self ->
  let after := snd (scan_directory w directory_path max_workers schedule self) in
  let appended := appending (get_all_files w root) schedule in
  scanned_files after = scanned_files self ++ omap (scanned_of w) appended
  /\ skipped_files after = skipped_files self ++ omap (skipped_of w) appended
  /\ error_files after = error_files self ++ omap (errored_of w) appended
  /\ stat_scanned_files (stats after) = length (scanned_files after)
  /\ stat_skipped_files (stats after) = length (skipped_files after)
  /\ stat_error_files (stats after) = length (error_files after)
  /\ total_files (stats after) = length (get_all_files w root).
Proof.
  intros root He Hd Hworkers Hdom Hquiet after appended. subst after.
  rewrite (quiet_scan_returns w directory_path max_workers schedule self
             He Hd Hworkers Hquiet).
  destruct (pool_after_keeps w directory_path schedule self)
    as (_ & _ & _ & _ & Htotal & _).
  cbv zeta in Htotal. fold root in Htotal.
  destruct (pool_after_trace w directory_path schedule self) as [_ Howner].
  cbv zeta in Howner. fold root in Howner.
  cbn [snd end_scan set_is_scanning set_stats scanned_files skipped_files
       error_files stats final_stats stat_scanned_files stat_skipped_files
       stat_error_files total_files].
  rewrite Htotal. rewrite Howner.
  pose proof (steps_lists w (length (get_all_files w root))
                (steps_from (opening_books (get_all_files w root)) schedule)
                0 (begin_scan w root self)) as (Hs & Hk & _).
  pose proof (steps_errors w (length (get_all_files w root))
                (steps_from (opening_books (get_all_files w root)) schedule)
                0 (begin_scan w root self) Hdom Hquiet) as Her.
  cbv zeta in Hs, Hk. rewrite Hs, Hk, Her. repeat split.
Qed.

(** C1, as the source has it. A scan that is not cancelled, on an
    extractor whose callbacks return, puts each discovered file on exactly
    one of the three lists, provided no discovered file is a text file
    with empty content; the lists are those of the extractor and are not
    emptied when a scan starts. So the three counters add up to
    [total_files] plus the number of files the extractor had on record
    before the scan, which is zero for a new extractor. *)
Theorem stats_add_up_over_the_record
    (directory_path : string) (max_workers : Z) (schedule : list Event)
    (self : Extractor) :
  let root := Path.str directory_path in
  path_exists w root = true ->
  path_is_dir w root = true ->
  (0 < max_workers)%Z ->
  compiled_from_rules self ->
  callbacks_return self ->
  schedule_of w root schedule ->
  cancel_free schedule = true ->
  (forall file_path, In file_path (get_all_files w root) ->
                     ~ empty_text_file w file_path) ->
  let after := snd (scan_directory w directory_path max_workers schedule self) in
  total_files (stats after) = length (get_all_files w root)
  /\ stat_scanned_files (stats after) + stat_skipped_files (stats after)
     + stat_error_files (stats after)
     = recorded self + total_files (stats after)
  /\ (recorded self = 0 -> stats_add_up (stats after)).
Proof.
  intros root He Hd Hworkers Hdom Hquiet Hsched Hfree Hfull after.
  assert (Hgoal :
    total_files (stats after) = length (get_all_files w root)
    /\ stat_scanned_files (stats after) + stat_skipped_files (stats after)
       + stat_error_files (stats after)
       = recorded self + total_files (stats after)).
  { destruct (quiet_scan_lists directory_path max_workers schedule self
                He Hd Hworkers Hdom Hquiet)
      as (Hs & Hk & Her & Hns & Hnk & Hne & Htotal).
    cbv zeta in *. fold root in Hs, Hk, Her, Htotal. fold after in Hs, Hk, Her,
      Hns, Hnk, Hne, Htotal.
    destruct (whole_schedule root schedule Hsched Hfree) as [Happended _].
    cbv zeta in Happended.
    set (appended := appending (get_all_files w root) schedule) in *.
    split; [exact Htotal|].
    rewrite Hns, Hnk, Hne, Hs, Hk, Her, Htotal, !length_app.
    assert (Hparts : length (omap (scanned_of w) appended)
                     + length (omap (skipped_of w) appended)
                     + length (omap (errored_of w) appended)
                     = length (get_all_files w root)).
    { rewrite <- (Permutation_length Happended).
      rewrite <- (Permutation_length (partition_by_outcome appended
        ltac:(intros p Hp Hu; apply (Hfull p);
              [eapply Permutation_in; [exact Happended|exact Hp]
              |apply unrecorded_is_empty_text_file; exact Hu]))).
      rewrite !length_app, length_map. lia. }
    unfold recorded. lia. }
  destruct Hgoal as [Htotal Hsum]. split; [exact Htotal|split; [exact Hsum|]].
  intros Hzero. unfold stats_add_up. rewrite Hsum, Hzero. reflexivity.
Qed.

End Statistics.

Lemma init_callbacks_return (w : World) (rules : gmap string PatternInfo) :
  callbacks_return (fst (init w rules)).
Proof.
  unfold callbacks_return, call_progress, call_status, init, init_with.
  destruct (compile_patterns w rules). simpl. auto.
Qed.

(** The theorem in the small world, on a new extractor: three files, of
    which two are scanned and one is skipped. *)
Lemma stats_add_up_over_the_record_witness :
  total_files (stats Demo.once) = 3
  /\ stat_scanned_files (stats Demo.once) + stat_skipped_files (stats Demo.once)
     + stat_error_files (stats Demo.once)
     = 0 + total_files (stats Demo.once)
  /\ (recorded Demo.extractor = 0 -> stats_add_up (stats Demo.once)).
Proof.
  apply (stats_add_up_over_the_record Demo.world "proj" 8
           (Demo.in_order Demo.world) Demo.extractor).
  - reflexivity.
  - reflexivity.
  - reflexivity.
  - exact (init_compiled_from_rules Demo.world Demo.rules).
  - exact (init_callbacks_return Demo.world Demo.rules).
  - unfold schedule_of. vm_compute. auto.
  - vm_compute. reflexivity.
  - intros file_path Hin [_ Hread]. vm_compute in Hin.
    destruct Hin as [<-|[<-|[<-|[]]]]; vm_compute in Hread; discriminate.
Defined.

(** C1 as stated fails on an extractor that has scanned before: the second
    scan of the same three files ends with six files on record. *)
Lemma stats_do_not_add_up_on_reuse :
  fst (scan_directory Demo.world "proj" 8 (Demo.in_order Demo.world) Demo.once)
  = None
  /\ schedule_of Demo.world "proj" (Demo.in_order Demo.world)
  /\ cancel_free (Demo.in_order Demo.world) = true
  /\ total_files (stats Demo.twice) = 3
  /\ stat_scanned_files (stats Demo.twice) + stat_skipped_files (stats Demo.twice)
     + stat_error_files (stats Demo.twice) = 6
  /\ ~ stats_add_up (stats Demo.twice).
Proof.
  split; [vm_compute; reflexivity|].
  split; [unfold schedule_of; vm_compute; auto|].
  split; [vm_compute; reflexivity|].
  split; [vm_compute; reflexivity|].
  split; [vm_compute; reflexivity|].
  unfold stats_add_up. vm_compute. discriminate.
Qed.

(** Why the callbacks must return. A progress callback that raises is
    caught by the [except] branch of the collecting loop: every collected
    file is put on [error_files], besides the list its call of [scan_file]
    has put it on, and the results of the file have been merged before. *)
Example raising_callback_records_twice :
  let after :=
    snd (scan_directory Demo.world "proj" 8 (Demo.in_order Demo.world)
           Sample.noisy) in
  scanned_files after = ["proj/a.txt"; "proj/src/c.env"]
  /\ skipped_files after = ["proj/b.png"]
  /\ error_files after
     = [("proj/a.txt", "boom"); ("proj/b.png", "boom"); ("proj/src/c.env", "boom")]
  /\ total_files (stats after) = 3
  /\ stat_scanned_files (stats after) + stat_skipped_files (stats after)
     + stat_error_files (stats after) = 6
  /\ results after !! "proj/a.txt" = Some Demo.a_txt_results.
Proof. repeat split; vm_compute; reflexivity. Qed.

(** Why the number of workers must be positive. [ThreadPoolExecutor]
    raises [ValueError] for [max_workers=0], after the files have been
    listed: the exception leaves [scan_directory] with [is_scanning] still
    set, [total_files] written and no file scanned. *)
Example no_worker_no_scan :
  let call := scan_directory Demo.world "proj" 0 (Demo.in_order Demo.world)
                Demo.extractor in
  fst call = Some (ValueError "max_workers must be greater than 0")
  /\ is_scanning (snd call) = true
  /\ total_files (stats (snd call)) = 3
  /\ start_time (stats (snd call)) = Some 100
  /\ end_time (stats (snd call)) = None
  /\ recorded (snd call) = 0.
Proof. repeat split; vm_compute; reflexivity. Qed.

(** ** One extractor, several scans *)

Section Sessions.

Variable w : World.

Lemma record_outcome_continues (file_path : string) (o : FileOutcome)
    (old s s0 : Extractor) :
  continues old s s0 ->
  continues old (record_outcome file_path o s) (record_outcome file_path o s0).
Proof.
  intros (Hpc & Hsc & Hp & Hcp & Hc & Hs & Hk & He & Hn & Hm).
  destruct o; simpl; unfold continues; simpl;
    rewrite ?Hs, ?Hk, ?He, <- ?app_assoc; repeat split; auto.
Qed.

Lemma collect_continues (total completed : nat) (file_path : string)
    (outcome : Result (gmap string (list MatchEntry)))
    (old s s0 : Extractor) :
  continues old s s0 ->
  continues old (collect total completed file_path outcome s)
                (collect total completed file_path outcome s0).
Proof.
  intros (Hpc & Hsc & Hp & Hcp & Hc & Hs & Hk & He & Hn & Hm).
  pose proof (collect_keeps total completed file_path outcome s)
    as (Hp1 & Hcp1 & Hc1 & _ & Hs1 & Hk1 & _ & _ & _ & Hpc1 & Hsc1).
  pose proof (collect_keeps total completed file_path outcome s0)
    as (Hp2 & Hcp2 & Hc2 & _ & Hs2 & Hk2 & _ & _ & _ & Hpc2 & Hsc2).
  destruct (collect_errors total completed file_path outcome s s0 Hpc Hsc)
    as (appended & He1 & He2).
  cbv zeta in *. unfold continues.
  rewrite Hp1, Hp2, Hcp1, Hcp2, Hc1, Hc2, Hs1, Hs2, Hk1, Hk2, Hpc1, Hpc2,
    Hsc1, Hsc2, He1, He2, !collect_items, He, <- app_assoc.
  repeat split; auto; [lia|].
  intros path name. rewrite !collect_matches_at, Hm, app_assoc. reflexivity.
Qed.

Lemma stepped_continues (total : nat) (step : Step) (completed : nat)
    (old s s0 : Extractor) :
  continues old s s0 ->
  continues old (snd (stepped w total (completed, s) step))
                (snd (stepped w total (completed, s0) step))
  /\ fst (stepped w total (completed, s) step)
     = fst (stepped w total (completed, s0) step).
Proof.
  intros Hcont.
  pose proof Hcont as (Hpc & Hsc & Hp & Hcp & Hc & Hs & Hk & He & Hn & Hm).
  destruct step as [p|p|]; cbn [stepped fst snd]; (split; [|reflexivity]).
  - apply record_outcome_continues, Hcont.
  - rewrite (outcome_results_ext s s0 _ Hp Hcp).
    apply collect_continues, Hcont.
  - unfold continues. simpl. repeat split; auto.
Qed.

Lemma steps_continue (total : nat) (steps : list Step) (completed : nat)
    (old s s0 : Extractor) :
  continues old s s0 ->
  continues old (snd (fold_left (stepped w total) steps (completed, s)))
                (snd (fold_left (stepped w total) steps (completed, s0))).
Proof.
  revert completed s s0. induction steps as [|step steps IH];
    intros completed s s0 Hcont; [exact Hcont|].
  cbn [fold_left].
  destruct (stepped_continues total step completed old s s0 Hcont) as [Hc Hn].
  destruct (stepped w total (completed, s) step) as [n1 s1].
  destruct (stepped w total (completed, s0) step) as [n2 s2].
  simpl in Hc, Hn. subst n2. apply IH, Hc.
Qed.

Lemma fresh_session_init (rules : gmap string PatternInfo) :
  fresh_session (fst (init w rules)) = fst (init w rules).
Proof.
  unfold init, init_with. destruct (compile_patterns w rules). reflexivity.
Qed.

(** C4, as the source has it. The session is the extractor: [__init__]
    builds it with nothing on record, and [scan_directory] resets only the
    cancellation flag, the start time and [total_files]. A scan on an
    extractor that has scanned before goes on from what is there: each of
    the three lists is the earlier list followed by what the same scan
    records on a new extractor, [sensitive_items] is the earlier count
    plus the new one, and every match list in [results] is the earlier
    list followed by the new one. This is so whatever the schedule of the
    pool, the number of workers and the callbacks. *)
Theorem scan_directory_continues_the_record
    (directory_path : string) (max_workers : Z) (schedule : list Event)
    (self : Extractor) :
  let root := Path.str directory_path in
  path_exists w root = true ->
  path_is_dir w root = true ->
  let after := snd (scan_directory w directory_path max_workers schedule self) in
  let alone :=
    snd (scan_directory w directory_path max_workers schedule
           (fresh_session self)) in
  (forall rules, self = fst (init w rules) -> fresh_session self = self)
  /\ scanned_files after = scanned_files self ++ scanned_files alone
  /\ skipped_files after = skipped_files self ++ skipped_files alone
  /\ error_files after = error_files self ++ error_files alone
  /\ sensitive_items (stats after)
     = sensitive_items (stats self) + sensitive_items (stats alone)
  /\ (forall path name,
        matches_at (results after) path name
        = matches_at (results self) path name
          ++ matches_at (results alone) path name)
  /\ (call_status self listing_message = None ->
      total_files (stats after) = length (get_all_files w root))
  /\ start_time (stats after) = Some (clock_start w)
  /\ scan_cancelled after = scan_cancelled alone.
Proof.
  intros root He Hd after alone.
  split; [intros rules ->; apply fresh_session_init|].
  assert (Hnone : forall path name,
            matches_at (results self) path name
            = matches_at (results self) path name ++ matches_at ∅ path name).
  { intros path name. unfold matches_at at 3. rewrite lookup_empty. simpl.
    symmetry. apply app_nil_r. }
  destruct (reaches_pool w directory_path max_workers self) eqn:Hreach.
  - assert (Hreach0 : reaches_pool w directory_path max_workers
                        (fresh_session self) = true) by exact Hreach.
    subst after alone.
    rewrite (scan_directory_runs w directory_path max_workers schedule self Hreach).
    rewrite (scan_directory_runs w directory_path max_workers schedule
               (fresh_session self) Hreach0).
    destruct (pool_after_keeps w directory_path schedule self)
      as (_ & _ & _ & _ & Htotal & Htime).
    destruct (pool_after_trace w directory_path schedule self) as [_ Howner].
    destruct (pool_after_trace w directory_path schedule (fresh_session self))
      as [_ Howner0].
    cbv zeta in *. fold root in Htotal, Howner, Howner0.
    assert (Hstart : continues self (begin_scan w root self)
                       (begin_scan w root (fresh_session self))).
    { unfold continues. simpl. rewrite !app_nil_r. repeat split; auto. }
    pose proof (steps_continue (length (get_all_files w root))
                  (steps_from (opening_books (get_all_files w root)) schedule)
                  0 self _ _ Hstart)
      as (_ & _ & _ & _ & Hc & Hs & Hk & Her & Hn & Hm).
    rewrite <- Howner, <- Howner0 in Hc, Hs, Hk, Her, Hn, Hm.
    cbn [snd end_scan set_is_scanning set_stats scanned_files skipped_files
         error_files results scan_cancelled stats final_stats sensitive_items
         total_files start_time].
    repeat split; auto.
  - subst after alone.
    rewrite (scan_directory_stops w directory_path max_workers schedule self Hreach).
    assert (Hreach0 : reaches_pool w directory_path max_workers
                        (fresh_session self) = false) by exact Hreach.
    rewrite (scan_directory_stops w directory_path max_workers schedule
               (fresh_session self) Hreach0).
    unfold scan_directory. fold root. rewrite He, Hd. cbn [negb].
    change (call_status
              (set_stats _ (set_scan_cancelled false
                              (set_is_scanning true (fresh_session self))))
              listing_message)
      with (call_status self listing_message).
    change (call_status
              (set_stats _ (set_scan_cancelled false (set_is_scanning true self)))
              listing_message)
      with (call_status self listing_message).
    destruct (call_status self listing_message) as [e|] eqn:Hlisting.
    { simpl. rewrite !app_nil_r. repeat split; auto. discriminate. }
    change (call_status
              (set_stats _ (set_stats _ (set_scan_cancelled false
                 (set_is_scanning true (fresh_session self)))))
              (found_message ?n))
      with (call_status self (found_message n)).
    change (call_status
              (set_stats _ (set_stats _ (set_scan_cancelled false
                 (set_is_scanning true self))))
              (found_message ?n))
      with (call_status self (found_message n)).
    destruct (call_status self (found_message _)) as [e|] eqn:Hfound.
    { simpl. rewrite !app_nil_r. repeat split; auto. }
    destruct (max_workers <=? 0)%Z eqn:Hleb.
    { simpl. rewrite !app_nil_r. repeat split; auto. }
    exfalso. apply Z.leb_gt in Hleb.
    assert (Hyes : reaches_pool w directory_path max_workers self = true).
    { apply reaches_pool_spec. auto. }
    congruence.
Qed.

End Sessions.

(** The theorem in the small world: the second scan of the same
    directory. *)
Lemma scan_directory_continues_the_record_witness :
  scanned_files Demo.twice = scanned_files Demo.once ++ scanned_files Demo.once
  /\ sensitive_items (stats Demo.twice)
     = sensitive_items (stats Demo.once) + sensitive_items (stats Demo.once).
Proof.
  pose proof (scan_directory_continues_the_record Demo.world "proj" 8
                (Demo.in_order Demo.world) Demo.once eq_refl eq_refl)
    as (_ & Hs & _ & _ & Hn & _).
  split.
  - exact Hs.
  - exact Hn.
Defined.

(** C4 as stated fails: what the first scan recorded is still there after
    the second, which on its own records two scanned files and three
    matches. *)
Lemma earlier_scan_stays_on_record :
  fst (scan_directory Demo.world "proj" 8 (Demo.in_order Demo.world) Demo.once)
  = None
  /\ scanned_files Demo.once = ["proj/a.txt"; "proj/src/c.env"]
  /\ scanned_files Demo.twice
     = ["proj/a.txt"; "proj/src/c.env"; "proj/a.txt"; "proj/src/c.env"]
  /\ sensitive_items (stats Demo.once) = 3
  /\ sensitive_items (stats Demo.twice) = 6
  /\ matches_at (results Demo.once) "proj/a.txt" "ticket" = [("jsapi_ticket", 1)]
  /\ matches_at (results Demo.twice) "proj/a.txt" "ticket"
     = [("jsapi_ticket", 1); ("jsapi_ticket", 1)].
Proof. repeat split; vm_compute; reflexivity. Qed.

(** * Further properties of the scanning core *)

(** ** The three lists *)

Section Lists.

Variable w : World.

Lemma outcome_counts_once (files : list string) :
  length (omap (scanned_of w) files) + length (omap (skipped_of w) files)
  + length (omap (errored_of w) files)
  <= length files.
Proof.
  induction files as [|p files IH]; [reflexivity|].
  rewrite !(omap_app _ [p] files), !omap_singleton, !length_app.
  set (a := length (omap (scanned_of w) files)) in *.
  set (b := length (omap (skipped_of w) files)) in *.
  set (c := length (omap (errored_of w) files)) in *.
  unfold scanned_of, skipped_of, errored_of.
  destruct (file_outcome w p false); simpl; lia.
Qed.

(** X1. On an extractor whose callbacks return, a scan, cancelled or not,
    appends to each list the files of that outcome in the order in which
    the calls of [scan_file] append, which need not be the order in which
    the futures are collected: scanned files are those whose non-empty
    text was read, skipped files those the classifier rejects, and error
    files those whose reading raised, with the message of the
    exception. *)
Theorem lists_grow_in_the_order_of_the_appends
    (directory_path : string) (max_workers : Z) (schedule : list Event)
    (self : Extractor) :
  let root := Path.str directory_path in
  path_exists w root = true ->
  path_is_dir w root = true ->
  (0 < max_workers)%Z ->
  compiled_from_rules self ->
  callbacks_return self ->
  let after := snd (scan_directory w directory_path max_workers schedule self) in
  let appended := appending (get_all_files w root) schedule in
  scanned_files after = scanned_files self ++ omap (scanned_of w) appended
  /\ skipped_files after = skipped_files self ++ omap (skipped_of w) appended
  /\ error_files after = error_files self ++ omap (errored_of w) appended.
Proof.
  intros root He Hd Hworkers Hdom Hquiet after appended.
  destruct (quiet_scan_lists w directory_path max_workers schedule self
              He Hd Hworkers Hdom Hquiet) as (Hs & Hk & Her & _).
  auto.
Qed.

(** X2. After a scan that nobody cancels, on an extractor whose callbacks
    return and in a directory without empty text files, the paths on the
    three lists are, up to order, the paths the extractor had on record
    followed by the discovered files: every discovered file is put on
    record once. On an extractor with nothing on record, in a directory
    whose walk lists no path twice, no path is on two lists or twice on
    one. *)
Theorem every_file_is_recorded_once
    (directory_path : string) (max_workers : Z) (schedule : list Event)
    (self : Extractor) :
  let root := Path.str directory_path in
  path_exists w root = true ->
  path_is_dir w root = true ->
  (0 < max_workers)%Z ->
  compiled_from_rules self ->
  callbacks_return self ->
  schedule_of w root schedule ->
  cancel_free schedule = true ->
  (forall file_path, In file_path (get_all_files w root) ->
                     ~ empty_text_file w file_path) ->
  let after := snd (scan_directory w directory_path max_workers schedule self) in
  Permutation (recorded_paths after)
              (recorded_paths self ++ get_all_files w root)
  /\ (recorded_paths self = [] ->
      NoDup (get_all_files w root) ->
      NoDup (recorded_paths after)).
Proof.
  intros root He Hd Hworkers Hdom Hquiet Hsched Hfree Hfull after.
  assert (Hperm : Permutation (recorded_paths after)
                    (recorded_paths self ++ get_all_files w root)).
  { destruct (quiet_scan_lists w directory_path max_workers schedule self
                He Hd Hworkers Hdom Hquiet) as (Hs & Hk & Her & _).
    cbv zeta in Hs, Hk, Her. fold root in Hs, Hk, Her. fold after in Hs, Hk, Her.
    destruct (whole_schedule w root schedule Hsched Hfree) as [Happended _].
    cbv zeta in Happended.
    set (appended := appending (get_all_files w root) schedule) in *.
    unfold recorded_paths. rewrite Hs, Hk, Her, map_app.
    transitivity
      ((scanned_files self ++ skipped_files self ++ map fst (error_files self))
       ++ (omap (scanned_of w) appended ++ omap (skipped_of w) appended
           ++ map fst (omap (errored_of w) appended))).
    - solve_Permutation.
    - apply Permutation_app_head.
      etransitivity; [|exact Happended].
      apply partition_by_outcome. intros p Hp Hu.
      apply (Hfull p).
      + eapply Permutation_in; [exact Happended|exact Hp].
      + apply unrecorded_is_empty_text_file. exact Hu. }
  split; [exact Hperm|].
  intros Hnone Hnodup. rewrite Hnone in Hperm. simpl in Hperm.
  rewrite Hperm. exact Hnodup.
Qed.

(** X6. Cancelled or not, and whatever the schedule of the pool, a scan on
    an extractor whose callbacks return puts at most one entry on record
    per discovered file: at its end the three counters add up to at most
    [total_files] plus what the extractor had on record before. *)
Theorem counters_never_exceed_total
    (directory_path : string) (max_workers : Z) (schedule : list Event)
    (self : Extractor) :
  let root := Path.str directory_path in
  path_exists w root = true ->
  path_is_dir w root = true ->
  (0 < max_workers)%Z ->
  compiled_from_rules self ->
  callbacks_return self ->
  let after := snd (scan_directory w directory_path max_workers schedule self) in
  stat_scanned_files (stats after) + stat_skipped_files (stats after)
  + stat_error_files (stats after)
  <= recorded self + total_files (stats after).
Proof.
  intros root He Hd Hworkers Hdom Hquiet after.
  destruct (quiet_scan_lists w directory_path max_workers schedule self
              He Hd Hworkers Hdom Hquiet)
    as (Hs & Hk & Her & Hns & Hnk & Hne & Htotal).
  cbv zeta in *. fold root in Hs, Hk, Her, Htotal.
  fold after in Hs, Hk, Her, Hns, Hnk, Hne, Htotal.
  set (appended := appending (get_all_files w root) schedule) in *.
  assert (Hbound : length appended <= length (get_all_files w root)).
  { pose proof (books_bound schedule (opening_books (get_all_files w root)))
      as Hsub.
    cbv zeta in Hsub. apply submseteq_length in Hsub.
    simpl in Hsub. rewrite !length_app in Hsub. simpl in Hsub.
    unfold appended, appending. lia. }
  pose proof (outcome_counts_once appended) as Honce.
  rewrite Hns, Hnk, Hne, Hs, Hk, Her, Htotal, !length_app.
  unfold recorded. lia.
Qed.

End Lists.

(** ** What a completed scan leaves in [results] *)

Section CompletedResults.

Variable w : World.

Lemma merged_entry_new (file_results : gmap string (list MatchEntry)) :
  merged_entry None file_results
  = if bool_decide (file_results = ∅) then None else Some file_results.
Proof.
  unfold merged_entry. destruct (bool_decide (file_results = ∅)); [reflexivity|].
  simpl. f_equal. apply map_eq. intros name.
  rewrite lookup_union_with, lookup_empty.
  destruct (file_results !! name); reflexivity.
Qed.

(** The results a call returns on an extractor loaded from [rules]. *)
Lemma task_results_init (rules : gmap string PatternInfo) (file_path : string) :
  task_results w (fst (init w rules)) file_path
  = match file_outcome w file_path false with
    | Scanned content => scan_spec w rules content
    | _ => ∅
    end.
Proof.
  unfold task_results.
  destruct (file_outcome w file_path false); simpl; try reflexivity.
  rewrite scan_content_is_scan_spec. reflexivity.
Qed.

(** After a whole scan without cancellation each discovered file has its
    earlier entry merged with the results of its call. *)
Lemma scan_directory_results (directory_path : string) (max_workers : Z)
    (schedule : list Event) (self : Extractor) (path : string) :
  let root := Path.str directory_path in
  reaches_pool w directory_path max_workers self = true ->
  schedule_of w root schedule ->
  cancel_free schedule = true ->
  NoDup (get_all_files w root) ->
  results (snd (scan_directory w directory_path max_workers schedule self)) !! path
  = if decide (path ∈ get_all_files w root)
    then merged_entry (results self !! path) (task_results w self path)
    else results self !! path.
Proof.
  intros root Hreach Hsched Hfree Hnodup.
  rewrite (scan_directory_runs w directory_path max_workers schedule self Hreach).
  destruct (pool_after_trace w directory_path schedule self) as [_ Howner].
  cbv zeta in Howner. fold root in Howner.
  destruct (whole_schedule w root schedule Hsched Hfree) as [_ Hmerged].
  cbv zeta in Hmerged. unfold merging in Hmerged.
  cbn [snd end_scan set_is_scanning set_stats results]. rewrite Howner.
  rewrite (steps_lookup w (length (get_all_files w root)) _ 0
             (begin_scan w root self)) by (rewrite Hmerged; exact Hnodup).
  rewrite (task_results_ext w (begin_scan w root self) self path
             eq_refl eq_refl).
  change (results (begin_scan w root self)) with (results self).
  destruct (decide (path ∈ merged_in _)) as [Hin|Hout];
    destruct (decide (path ∈ get_all_files w root)) as [Hin'|Hout'];
    try reflexivity.
  - exfalso. apply Hout'. rewrite <- Hmerged. exact Hin.
  - exfalso. apply Hout. rewrite Hmerged. exact Hin'.
Qed.

Lemma init_reaches_pool (rules : gmap string PatternInfo)
    (directory_path : string) (max_workers : Z) :
  path_exists w (Path.str directory_path) = true ->
  path_is_dir w (Path.str directory_path) = true ->
  (0 < max_workers)%Z ->
  reaches_pool w directory_path max_workers (fst (init w rules)) = true.
Proof.
  intros He Hd Hworkers. apply reaches_pool_spec.
  destruct (init_callbacks_return w rules) as [_ Hstatus]. auto.
Qed.

(** X3. After a scan that nobody cancels, on a newly built extractor and in
    a directory whose walk lists no path twice, [results] has an entry
    exactly for the discovered files that were scanned and in which some
    enabled rule matched; the entry maps each enabled rule whose regex
    compiles and matches to the matches of that rule in that file, line by
    line. This is so in whatever order the calls append and the futures
    are collected. *)
Theorem results_hold_the_matches_of_each_file
    (rules : gmap string PatternInfo) (directory_path : string)
    (max_workers : Z) (schedule : list Event) (path : string) :
  let root := Path.str directory_path in
  path_exists w root = true ->
  path_is_dir w root = true ->
  (0 < max_workers)%Z ->
  schedule_of w root schedule ->
  cancel_free schedule = true ->
  NoDup (get_all_files w root) ->
  results (snd (scan_directory w directory_path max_workers schedule
                  (fst (init w rules))))
    !! path
  = if decide (path ∈ get_all_files w root)
    then match file_outcome w path false with
         | Scanned content =>
             if bool_decide (scan_spec w rules content = ∅) then None
             else Some (scan_spec w rules content)
         | _ => None
         end
    else None.
Proof.
  intros root He Hd Hworkers Hsched Hfree Hnodup.
  rewrite (scan_directory_results directory_path max_workers schedule _ path
             (init_reaches_pool rules directory_path max_workers He Hd Hworkers)
             Hsched Hfree Hnodup).
  assert (Hnew : results (fst (init w rules)) = ∅).
  { unfold init, init_with. destruct (compile_patterns w rules). reflexivity. }
  rewrite Hnew, lookup_empty, merged_entry_new, task_results_init.
  fold root.
  destruct (decide (path ∈ get_all_files w root)); [|reflexivity].
  destruct (file_outcome w path false); reflexivity.
Qed.

(** X4. The order in which the calls append and the futures are collected
    does not change the outcome of a scan that nobody cancels: two
    schedules of the same directory leave the same [results], the same
    counts of sensitive items, scanned files and skipped files, and the
    same files on the lists of scanned and skipped files, in the order of
    the appends; and when the callbacks return, also the same statistics
    and the same entries in [error_files]. *)
Theorem completion_order_is_immaterial
    (directory_path : string) (max_workers : Z)
    (schedule1 schedule2 : list Event) (self : Extractor) :
  let root := Path.str directory_path in
  path_exists w root = true ->
  path_is_dir w root = true ->
  compiled_from_rules self ->
  NoDup (get_all_files w root) ->
  schedule_of w root schedule1 -> cancel_free schedule1 = true ->
  schedule_of w root schedule2 -> cancel_free schedule2 = true ->
  let after1 := snd (scan_directory w directory_path max_workers schedule1 self) in
  let after2 := snd (scan_directory w directory_path max_workers schedule2 self) in
  results after1 = results after2
  /\ sensitive_items (stats after1) = sensitive_items (stats after2)
  /\ stat_scanned_files (stats after1) = stat_scanned_files (stats after2)
  /\ stat_skipped_files (stats after1) = stat_skipped_files (stats after2)
  /\ Permutation (scanned_files after1) (scanned_files after2)
  /\ Permutation (skipped_files after1) (skipped_files after2)
  /\ (callbacks_return self ->
      stats after1 = stats after2
      /\ Permutation (error_files after1) (error_files after2)).
Proof.
  intros root He Hd Hdom Hnodup Hs1 Hf1 Hs2 Hf2 after1 after2.
  destruct (reaches_pool w directory_path max_workers self) eqn:Hreach.
  2: { subst after1 after2.
       rewrite (scan_directory_stops w directory_path max_workers schedule1 self
                  Hreach).
       rewrite (scan_directory_stops w directory_path max_workers schedule2 self
                  Hreach).
       repeat split; auto. }
  assert (Hres : results after1 = results after2).
  { apply map_eq. intros path. subst after1 after2.
    rewrite !scan_directory_results by assumption. reflexivity. }
  destruct (whole_schedule w root schedule1 Hs1 Hf1) as [Ha1 Hm1].
  destruct (whole_schedule w root schedule2 Hs2 Hf2) as [Ha2 Hm2].
  cbv zeta in Ha1, Hm1, Ha2, Hm2. unfold appending, merging in *.
  destruct (pool_after_trace w directory_path schedule1 self) as [_ Ho1].
  destruct (pool_after_trace w directory_path schedule2 self) as [_ Ho2].
  destruct (pool_after_keeps w directory_path schedule1 self)
    as (_ & _ & _ & _ & Ht1 & Hst1).
  destruct (pool_after_keeps w directory_path schedule2 self)
    as (_ & _ & _ & _ & Ht2 & Hst2).
  cbv zeta in Ho1, Ho2, Ht1, Ht2, Hst1, Hst2.
  fold root in Ho1, Ho2, Ht1, Ht2.
  pose proof (steps_lists w (length (get_all_files w root))
                (steps_from (opening_books (get_all_files w root)) schedule1)
                0 (begin_scan w root self)) as (Hl1 & Hk1 & Hn1).
  pose proof (steps_lists w (length (get_all_files w root))
                (steps_from (opening_books (get_all_files w root)) schedule2)
                0 (begin_scan w root self)) as (Hl2 & Hk2 & Hn2).
  cbv zeta in Hl1, Hk1, Hn1, Hl2, Hk2, Hn2.
  rewrite <- Ho1 in Hl1, Hk1, Hn1. rewrite <- Ho2 in Hl2, Hk2, Hn2.
  assert (Hitems : sensitive_items (stats after1) = sensitive_items (stats after2)).
  { subst after1 after2.
    rewrite !(scan_directory_runs w directory_path max_workers _ self Hreach).
    cbn [snd end_scan set_is_scanning set_stats stats final_stats sensitive_items].
    rewrite Hn1, Hn2, Hm1, Hm2. reflexivity. }
  subst after1 after2.
  rewrite !(scan_directory_runs w directory_path max_workers _ self Hreach) in *.
  cbn [snd end_scan set_is_scanning set_stats stats final_stats sensitive_items
       stat_scanned_files stat_skipped_files
       scanned_files skipped_files error_files results] in *.
  split; [exact Hres|split; [exact Hitems|]].
  split; [rewrite Hl1, Hl2, !length_app, Ha1, Ha2; reflexivity|].
  split; [rewrite Hk1, Hk2, !length_app, Ha1, Ha2; reflexivity|].
  split; [rewrite Hl1, Hl2, Ha1, Ha2; reflexivity|].
  split; [rewrite Hk1, Hk2, Ha1, Ha2; reflexivity|].
  intros Hquiet.
  pose proof (steps_errors w (length (get_all_files w root))
                (steps_from (opening_books (get_all_files w root)) schedule1)
                0 (begin_scan w root self) Hdom Hquiet) as He1.
  pose proof (steps_errors w (length (get_all_files w root))
                (steps_from (opening_books (get_all_files w root)) schedule2)
                0 (begin_scan w root self) Hdom Hquiet) as He2.
  rewrite <- Ho1 in He1. rewrite <- Ho2 in He2.
  split; [|rewrite He1, He2, Ha1, Ha2; reflexivity].
  unfold final_stats.
  rewrite Ht1, Ht2, Hst1, Hst2, Hitems, Hl1, Hl2, Hk1, Hk2, He1, He2.
  rewrite !length_app, Ha1, Ha2. reflexivity.
Qed.

End CompletedResults.

(** ** Cancellation *)

Section Cancellation.

Variable w : World.





End Cancellation.

(** ** Invariants of the record *)

Section RecordInvariants.

Variable w : World.

(** Sums over the values of a mapping. *)
Lemma map_sum_insert {V} (g : V -> nat) (m : gmap string V) (i : string) (x : V) :
  map_fold (fun _ v n => n + g v) 0 (<[i := x]> m) + from_option g 0 (m !! i)
  = map_fold (fun _ v n => n + g v) 0 m + g x.
Proof.
  assert (Hfresh : forall (m' : gmap string V) y, m' !! i = None ->
            map_fold (fun _ v n => n + g v) 0 (<[i := y]> m')
            = map_fold (fun _ v n => n + g v) 0 m' + g y).
  { intros m' y Hm'. apply (map_fold_insert_L (fun _ v n => n + g v)); [|exact Hm'].
    intros. lia. }
  destruct (m !! i) as [y|] eqn:Hi; simpl.
  - rewrite <- (insert_delete_eq m i x).
    rewrite <- (insert_delete_id m i y Hi) at 2.
    rewrite !Hfresh by apply lookup_delete_eq. lia.
  - rewrite Hfresh by exact Hi. lia.
Qed.

Lemma count_matches_merged (per_file : gmap string (list MatchEntry)) (n : nat)
    (file_results : gmap string (list MatchEntry)) :
  count_matches (fst (map_fold merge_pattern (per_file, n) file_results))
  = count_matches per_file + count_matches file_results.
Proof.
  induction file_results as [|i x m Hfresh Hfirst IH] using map_first_key_ind.
  - rewrite map_fold_empty, count_matches_empty. simpl. lia.
  - rewrite map_fold_insert_first_key by assumption.
    destruct (map_fold merge_pattern (per_file, n) m) as [acc k] eqn:Hfold.
    simpl in IH. unfold merge_pattern. simpl.
    pose proof (map_sum_insert (@length MatchEntry) acc i
                  (default [] (acc !! i) ++ x)) as Hacc.
    pose proof (map_sum_insert (@length MatchEntry) m i x) as Hm.
    rewrite Hfresh in Hm. simpl in Hm.
    fold (count_matches (<[i:=default [] (acc !! i) ++ x]> acc)) in Hacc.
    fold (count_matches acc) in Hacc.
    fold (count_matches (<[i:=x]> m)) in Hm. fold (count_matches m) in Hm.
    rewrite length_app in Hacc.
    destruct (acc !! i); simpl in *; lia.
Qed.

Lemma merge_results_total (file_path : string)
    (file_results : gmap string (list MatchEntry)) (self : Extractor) :
  total_matches (results (merge_results file_path file_results self))
  = total_matches (results self) + count_matches file_results.
Proof.
  unfold merge_results.
  pose proof (count_matches_merged (default ∅ (results self !! file_path))
                (sensitive_items (stats self)) file_results) as Hcount.
  destruct (map_fold merge_pattern _ file_results) as [per_file items].
  simpl in *. unfold total_matches.
  pose proof (map_sum_insert count_matches (results self) file_path per_file) as Hsum.
  rewrite Hcount in Hsum.
  destruct (results self !! file_path); simpl in *;
    rewrite ?count_matches_empty in Hsum; lia.
Qed.

Lemma collect_total (total completed : nat) (file_path : string)
    (outcome : Result (gmap string (list MatchEntry))) (self : Extractor) :
  total_matches (results (collect total completed file_path outcome self))
  = total_matches (results self) + count_matches (returned outcome).
Proof.
  unfold collect. destruct outcome as [fr|e]; simpl;
    [|rewrite count_matches_empty; lia].
  assert (Hmerge :
    total_matches (results (if bool_decide (fr = ∅) then self
                            else merge_results file_path fr self))
    = total_matches (results self) + count_matches fr).
  { case_bool_decide as Hfr; [|apply merge_results_total].
    rewrite Hfr, count_matches_empty. lia. }
  rewrite <- Hmerge.
  set (merged := if bool_decide (fr = ∅) then self
                 else merge_results file_path fr self).
  destruct (call_progress merged _ _ _);
    [|destruct (call_status merged _)]; reflexivity.
Qed.

Lemma steps_items (total : nat) (steps : list Step) (completed : nat)
    (self : Extractor) :
  items_count_results self ->
  items_count_results
    (snd (fold_left (stepped w total) steps (completed, self))).
Proof.
  revert completed self. induction steps as [|step steps IH];
    intros completed self Hinv; [exact Hinv|].
  cbn [fold_left]. destruct step as [p|p|]; cbn [stepped]; apply IH.
  - pose proof (record_outcome_keeps p (file_outcome w p false) self)
      as (_ & _ & _ & Hres & Hst & _).
    cbv zeta in Hres, Hst. unfold items_count_results.
    rewrite Hres, Hst. exact Hinv.
  - unfold items_count_results in *.
    rewrite collect_items, collect_total, Hinv. reflexivity.
  - exact Hinv.
Qed.

(** X7. [sensitive_items] is the number of matches held in [results]: the
    equality holds on a new extractor and every scan keeps it, whatever
    the schedule of the pool and the callbacks, also a cancelled scan and
    also on an extractor that has scanned before. *)
Theorem sensitive_items_count_the_results
    (directory_path : string) (max_workers : Z) (schedule : list Event)
    (self : Extractor) :
  (forall rules, items_count_results (fst (init w rules)))
  /\ (items_count_results self ->
      items_count_results
        (snd (scan_directory w directory_path max_workers schedule self))).
Proof.
  split.
  - intros rules. unfold items_count_results, init, init_with.
    destruct (compile_patterns w rules). simpl.
    unfold total_matches. rewrite map_fold_empty. reflexivity.
  - intros Hinv.
    destruct (reaches_pool w directory_path max_workers self) eqn:Hreach.
    + rewrite (scan_directory_runs w directory_path max_workers schedule self
                 Hreach).
      destruct (pool_after_trace w directory_path schedule self) as [_ Howner].
      cbv zeta in Howner.
      assert (Hfinish : items_count_results
                          (owner (pool_after w directory_path schedule self))).
      { rewrite Howner. apply steps_items. exact Hinv. }
      exact Hfinish.
    + rewrite (scan_directory_stops w directory_path max_workers schedule self
                 Hreach).
      unfold scan_directory.
      destruct (path_exists w (Path.str directory_path)); [|exact Hinv].
      destruct (path_is_dir w (Path.str directory_path)); [|exact Hinv].
      cbn [negb].
      destruct (call_status _ listing_message); [exact Hinv|].
      destruct (call_status _ (found_message _)); [exact Hinv|].
      destruct (max_workers <=? 0)%Z; exact Hinv.
Qed.

(** Every future that is done and holds results belongs to a file that is
    on [scanned_files]; so what the loop merges belongs to scanned
    files. *)
Lemma steps_results_of_scanned (total : nat) (schedule : list Event)
    (b : Books) (completed : nat) (self : Extractor) :
  (flagged b = false ->
   forall p, In p (finished b) -> task_results w self p <> ∅ ->
             In p (scanned_files self)) ->
  results_of_scanned_files self ->
  results_of_scanned_files
    (snd (fold_left (stepped w total) (steps_from b schedule) (completed, self))).
Proof.
  revert b completed self.
  induction schedule as [|ev schedule IH]; intros b completed self Hdone Hinv;
    [exact Hinv|].
  cbn [steps_from]. rewrite fold_left_app.
  destruct ev as [p|p|p|]; cbn [effect].
  - destruct (take id p (waiting b)) as [[q rest]|]; [|apply IH; assumption].
    destruct (flagged b) eqn:Hflag; cbn [fst snd fold_left]; apply IH;
      cbn [flagged finished]; try assumption.
    discriminate.
  - destruct (take id p (running b)) as [[q rest]|]; [|apply IH; assumption].
    cbn [fst snd fold_left stepped]. set (o := file_outcome w p false).
    pose proof (record_outcome_keeps p o self)
      as (Hp & Hcp & _ & Hres & _).
    pose proof (record_outcome_lists w p self) as (Hs & _).
    cbv zeta in Hp, Hcp, Hres, Hs. fold o in Hs.
    assert (Hgrow : forall path, In path (scanned_files self) ->
                      In path (scanned_files (record_outcome p o self))).
    { intros path Hin. rewrite Hs. apply in_or_app. left. exact Hin. }
    apply IH; cbn [flagged finished].
    + intros Hflag path Hin.
      rewrite (task_results_ext w _ self path Hp Hcp). intros Hsome.
      apply in_app_or in Hin as [Hin|[<-|[]]].
      * apply Hgrow, (Hdone Hflag path Hin Hsome).
      * destruct (task_results_scanned w self p Hsome) as [content Hscanned].
        rewrite Hs. unfold scanned_of. rewrite Hscanned.
        apply in_or_app. right. left. reflexivity.
    + intros path. rewrite Hres. intros Hsome. apply Hgrow, Hinv, Hsome.
  - destruct (take id p (finished b)) as [[q rest]|] eqn:Htake;
      [|apply IH; assumption].
    apply take_path in Htake as [-> Hperm].
    destruct (flagged b) eqn:Hflag; cbn [fst snd fold_left];
      [apply IH; [rewrite Hflag; discriminate|assumption]|].
    cbn [stepped]. set (o := file_outcome w p false).
    pose proof (collect_keeps total (S completed) p (outcome_results self o) self)
      as (Hp & Hcp & _ & _ & Hs & _).
    cbv zeta in Hp, Hcp, Hs.
    assert (Hin_p : In p (finished b)).
    { apply (Permutation_in (l := p :: rest));
        [symmetry; exact Hperm|left; reflexivity]. }
    apply IH; cbn [flagged finished].
    + intros _ path Hin.
      rewrite (task_results_ext w _ self path Hp Hcp), Hs. intros Hsome.
      apply (Hdone eq_refl path); [|exact Hsome].
      apply (Permutation_in (l := p :: rest));
        [symmetry; exact Hperm|right; exact Hin].
    + intros path. rewrite collect_lookup, Hs.
      destruct (decide (path = p)) as [->|Hne]; [|apply Hinv].
      fold (task_results w self p). unfold merged_entry.
      case_bool_decide as Hempty; [apply Hinv|].
      intros _. apply (Hdone eq_refl p Hin_p Hempty).
  - cbn [fst snd fold_left stepped]. apply IH; cbn [flagged finished].
    + discriminate.
    + exact Hinv.
Qed.

(** X8. Only scanned files have results: when every file with an entry in
    [results] is on [scanned_files] before a scan, as on a new extractor,
    this is so after the scan, whatever the schedule of the pool and the
    callbacks, cancelled or not; a file that was skipped or whose reading
    failed gets no entry from its call. *)
Theorem results_belong_to_scanned_files
    (directory_path : string) (max_workers : Z) (schedule : list Event)
    (self : Extractor) :
  (forall rules, results_of_scanned_files (fst (init w rules)))
  /\ (results_of_scanned_files self ->
      results_of_scanned_files
        (snd (scan_directory w directory_path max_workers schedule self))).
Proof.
  split.
  - intros rules path. unfold init, init_with.
    destruct (compile_patterns w rules). simpl.
    rewrite lookup_empty. intros [? [=]].
  - intros Hinv.
    destruct (reaches_pool w directory_path max_workers self) eqn:Hreach.
    + rewrite (scan_directory_runs w directory_path max_workers schedule self
                 Hreach).
      destruct (pool_after_trace w directory_path schedule self) as [_ Howner].
      cbv zeta in Howner.
      assert (Hfinish : results_of_scanned_files
                          (owner (pool_after w directory_path schedule self))).
      { rewrite Howner. apply steps_results_of_scanned; [|exact Hinv].
        intros _ p []. }
      exact Hfinish.
    + rewrite (scan_directory_stops w directory_path max_workers schedule self
                 Hreach).
      unfold scan_directory.
      destruct (path_exists w (Path.str directory_path)); [|exact Hinv].
      destruct (path_is_dir w (Path.str directory_path)); [|exact Hinv].
      cbn [negb].
      destruct (call_status _ listing_message); [exact Hinv|].
      destruct (call_status _ (found_message _)); [exact Hinv|].
      destruct (max_workers <=? 0)%Z; exact Hinv.
Qed.

End RecordInvariants.

(** ** The walker *)

Section Walker.

Lemma Entry_nested_ind (P : Entry -> Prop) :
  (forall name, P (EFile name)) ->
  (forall name children, Forall P children -> P (EDir name children)) ->
  forall e, P e.
Proof.
  intros Hfile Hdir. fix IH 1. intros [name|name children].
  - apply Hfile.
  - apply Hdir. induction children as [|c children IHc]; constructor.
    + apply IH.
    + exact IHc.
Qed.

Lemma prefix_empty (t : string) : String.prefix "" t = true.
Proof. destruct t; reflexivity. Qed.

Lemma prefix_append (s t : string) : String.prefix s (String.append s t) = true.
Proof.
  induction s as [|a s IH]; simpl; [apply prefix_empty|].
  destruct (ascii_dec a a); [exact IH|contradiction].
Qed.

Lemma prefix_trans (s t u : string) :
  String.prefix s t = true -> String.prefix t u = true -> String.prefix s u = true.
Proof.
  revert t u. induction s as [|a s IH]; intros t u Hst Htu; [apply prefix_empty|].
  destruct t as [|b t]; [discriminate|]. destruct u as [|c u]; [discriminate|].
  simpl in *. destruct (ascii_dec a b) as [->|]; [|discriminate].
  destruct (ascii_dec b c) as [->|]; [|discriminate].
  eapply IH; eauto.
Qed.

Lemma prefix_join (root file : string) :
  String.prefix root (Path.join root file) = true.
Proof.
  unfold Path.join. destruct root as [|a root]; [apply prefix_empty|].
  destruct (String.eqb _ "/"); apply prefix_append.
Qed.

Lemma walked_paths_begin_with_the_top (dir : Entry) (root file_path : string) :
  In file_path (walk root dir) -> String.prefix root file_path = true.
Proof.
  revert root file_path.
  induction dir as [name|name children IH] using Entry_nested_ind;
    intros root p Hin; [destruct Hin|].
  simpl in Hin. apply in_app_or in Hin as [Hin|Hin].
  - unfold files_of in Hin. apply in_flat_map in Hin as (c & _ & Hc).
    destruct c as [file|]; [|destruct Hc].
    destruct (keep_file file); [|destruct Hc].
    destruct Hc as [<-|[]]. apply prefix_join.
  - apply in_flat_map in Hin as (c & Hcin & Hc).
    destruct c as [|d sub]; [destruct Hc|].
    destruct (keep_dir d); [|destruct Hc].
    rewrite Forall_forall in IH.
    apply list_elem_of_In in Hcin.
    specialize (IH _ Hcin (Path.join root d) p Hc).
    eapply prefix_trans; [apply prefix_join|exact IH].
Qed.

(** X9. Every path [get_all_files] returns begins with
    [str(Path(directory_path))], the path [os.walk] starts at. That need
    not be the argument as it was given: a leading ["./"], a trailing
    slash and doubled slashes are gone. *)
Theorem listed_paths_begin_with_the_top
    (w : World) (directory_path file_path : string) :
  In file_path (get_all_files w directory_path) ->
  String.prefix (Path.str directory_path) file_path = true.
Proof. unfold get_all_files. apply walked_paths_begin_with_the_top. Qed.

(** The files of ["./proj"] are listed under ["proj"]. *)
Example listed_paths_drop_the_dot :
  get_all_files Demo.world "./proj"
  = ["proj/a.txt"; "proj/b.png"; "proj/src/c.env"]
  /\ String.prefix "./proj" "proj/a.txt" = false.
Proof. split; vm_compute; reflexivity. Qed.

Lemma walk_prune_children (root : string) (children : list Entry) :
  Forall (fun c => forall r, walk r (prune c) = walk r c) children ->
  files_of root (prune_children children) = files_of root children
  /\ flat_map (fun c => match c with
                        | EFile _ => []
                        | EDir d _ =>
                            if keep_dir d then walk (Path.join root d) c else []
                        end) (prune_children children)
     = flat_map (fun c => match c with
                          | EFile _ => []
                          | EDir d _ =>
                              if keep_dir d then walk (Path.join root d) c else []
                          end) children.
Proof.
  unfold files_of, prune_children.
  induction 1 as [|c children Hc _ [IHf IHd]]; [split; reflexivity|].
  cbn [flat_map]. rewrite !flat_map_app, IHf, IHd.
  destruct c as [file|d sub].
  - destruct (keep_file file) eqn:Hf; simpl; rewrite ?Hf; split; reflexivity.
  - destruct (keep_dir d) eqn:Hd; simpl; [|split; reflexivity].
    rewrite Hd, app_nil_r. split; [reflexivity|].
    f_equal. apply (Hc (Path.join root d)).
Qed.

(** X10. The listing depends only on what the walker keeps: removing, at
    every depth, the hidden files outside the three kept names and the
    directories that are hidden or excluded, with all they contain, leaves
    [os.walk]'s listing as it is. *)
Theorem pruned_entries_do_not_count (root : string) (dir : Entry) :
  walk root (prune dir) = walk root dir.
Proof.
  revert root. induction dir as [name|name children IH] using Entry_nested_ind;
    intros root; [reflexivity|].
  change (prune (EDir name children)) with (EDir name (prune_children children)).
  cbn [walk]. destruct (walk_prune_children root children IH) as [-> ->].
  reflexivity.
Qed.

End Walker.

(** ** The groupings of the report *)

Section Report.

Lemma summary_fold_lookup (file_path : string)
    (summary : gmap string (list ReportEntry))
    (file_results : gmap string (list MatchEntry)) (name : string) :
  map_fold (summary_step file_path) summary file_results !! name
  = match file_results !! name with
    | Some matches =>
        Some (default [] (summary !! name) ++ tag_matches file_path matches)
    | None => summary !! name
    end.
Proof.
  revert name.
  apply (map_fold_weak_ind
           (fun r m => forall name,
              r !! name = match m !! name with
                          | Some matches =>
                              Some (default [] (summary !! name)
                                    ++ tag_matches file_path matches)
                          | None => summary !! name
                          end)).
  - intros name. rewrite lookup_empty. reflexivity.
  - intros i x m r Hfresh IH name. unfold summary_step.
    destruct (decide (name = i)) as [->|Hne].
    + rewrite !lookup_insert_eq, IH, Hfresh. reflexivity.
    + rewrite !lookup_insert_ne by congruence. apply IH.
Qed.

Lemma summary_fold_size (file_path : string)
    (summary : gmap string (list ReportEntry))
    (file_results : gmap string (list MatchEntry)) :
  summary_size (map_fold (summary_step file_path) summary file_results)
  = summary_size summary + count_matches file_results.
Proof.
  induction file_results as [|i x m Hfresh Hfirst IH] using map_first_key_ind.
  - rewrite map_fold_empty, count_matches_empty. lia.
  - rewrite map_fold_insert_first_key by assumption.
    set (acc := map_fold (summary_step file_path) summary m) in *.
    unfold summary_step.
    pose proof (map_sum_insert (@length ReportEntry) acc i
                  (default [] (acc !! i) ++ tag_matches file_path x)) as Hacc.
    pose proof (map_sum_insert (@length MatchEntry) m i x) as Hm.
    rewrite Hfresh in Hm. simpl in Hm.
    fold (summary_size (<[i:=default [] (acc !! i) ++ tag_matches file_path x]> acc))
      in Hacc.
    fold (summary_size acc) in Hacc.
    fold (count_matches (<[i:=x]> m)) in Hm. fold (count_matches m) in Hm.
    rewrite length_app in Hacc. unfold tag_matches in *.
    rewrite length_map in Hacc.
    destruct (acc !! i); simpl in *; lia.
Qed.

Lemma pattern_summary_insert (res : gmap string (gmap string (list MatchEntry)))
    (file_path : string) (file_results : gmap string (list MatchEntry)) :
  res !! file_path = None ->
  map_first_key (<[file_path := file_results]> res) file_path ->
  pattern_summary (<[file_path := file_results]> res)
  = map_fold (summary_step file_path) (pattern_summary res) file_results.
Proof.
  intros Hfresh Hfirst. unfold pattern_summary.
  rewrite map_fold_insert_first_key by assumption. reflexivity.
Qed.

(** X11. The overview of the report counts every match once: the sizes of
    the lists of [pattern_summary] add up to the number of matches held in
    [results]. *)
Theorem report_counts_add_up (res : gmap string (gmap string (list MatchEntry))) :
  summary_size (pattern_summary res) = total_matches res.
Proof.
  induction res as [|fp fr m Hfresh Hfirst IH] using map_first_key_ind.
  - unfold pattern_summary, total_matches, summary_size.
    rewrite !map_fold_empty. reflexivity.
  - rewrite pattern_summary_insert by assumption.
    rewrite summary_fold_size, IH. unfold total_matches.
    rewrite map_fold_insert_first_key by assumption. reflexivity.
Qed.

Lemma entries_of_app (file_path : string) (l k : list ReportEntry) :
  entries_of file_path (l ++ k) = entries_of file_path l ++ entries_of file_path k.
Proof. apply omap_app. Qed.

Lemma entries_of_tag (file_path other : string) (matches : list MatchEntry) :
  entries_of file_path (tag_matches other matches)
  = if String.eqb other file_path then matches else [].
Proof.
  unfold entries_of, tag_matches.
  destruct (String.eqb other file_path) eqn:Heq;
    induction matches as [|[m l] matches IH]; try reflexivity;
    cbn [map]; rewrite omap_cons_option_list; cbn [fst snd];
    rewrite Heq, IH; reflexivity.
Qed.

Lemma entries_of_summary (res : gmap string (gmap string (list MatchEntry)))
    (file_path name : string) :
  entries_of file_path (default [] (pattern_summary res !! name))
  = matches_at res file_path name.
Proof.
  induction res as [|fp fr m Hfresh Hfirst IH] using map_first_key_ind.
  - unfold pattern_summary, matches_at. rewrite map_fold_empty, !lookup_empty.
    reflexivity.
  - rewrite pattern_summary_insert by assumption.
    rewrite summary_fold_lookup. unfold matches_at in *.
    destruct (decide (file_path = fp)) as [->|Hne].
    + rewrite lookup_insert_eq. simpl. rewrite Hfresh in IH. simpl in IH.
      destruct (fr !! name) as [matches|]; simpl; [|exact IH].
      rewrite entries_of_app, IH, entries_of_tag, String.eqb_refl. reflexivity.
    + rewrite lookup_insert_ne by congruence.
      destruct (fr !! name) as [matches|]; simpl; [|exact IH].
      rewrite entries_of_app, IH, entries_of_tag.
      destruct (String.eqb fp file_path) eqn:Heq.
      * apply String.eqb_eq in Heq. congruence.
      * apply app_nil_r.
Qed.

Lemma entries_of_cons (file_path : string) (e : ReportEntry)
    (entries : list ReportEntry) :
  entries_of file_path (e :: entries)
  = option_list (if String.eqb (fst (fst e)) file_path
                 then Some (snd (fst e), snd e) else None)
    ++ entries_of file_path entries.
Proof. unfold entries_of. apply omap_cons_option_list. Qed.

Lemma file_groups_fold (entries : list ReportEntry)
    (groups : gmap string (list MatchEntry)) (file_path : string) :
  fold_left (fun groups (e : ReportEntry) =>
               let '(file_path, m, line_num) := e in
               <[file_path := default [] (groups !! file_path) ++ [(m, line_num)]]>
                 groups)
            entries groups !! file_path
  = match entries_of file_path entries with
    | [] => groups !! file_path
    | found => Some (default [] (groups !! file_path) ++ found)
    end.
Proof.
  revert groups. induction entries as [|[[fp m] l] entries IH]; intros groups.
  - reflexivity.
  - cbn [fold_left]. rewrite IH, entries_of_cons. cbn [fst snd].
    destruct (String.eqb fp file_path) eqn:Heq; cbn [option_list app].
    + apply String.eqb_eq in Heq. subst fp. rewrite lookup_insert_eq.
      destruct (entries_of file_path entries); simpl.
      * reflexivity.
      * rewrite <- app_assoc. reflexivity.
    + assert (fp <> file_path)
        by (intros ->; rewrite String.eqb_refl in Heq; discriminate).
      rewrite lookup_insert_ne by assumption. reflexivity.
Qed.

(** X12. Grouping the matches of all files by pattern and then by file
    again, as the report does, gives back for each pattern and each file
    the match list [results[file][pattern]], in its order; a file without
    matches of the pattern has no group. *)
Theorem report_groups_are_the_results
    (res : gmap string (gmap string (list MatchEntry)))
    (name file_path : string) :
  file_groups (default [] (pattern_summary res !! name)) !! file_path
  = match matches_at res file_path name with
    | [] => None
    | matches => Some matches
    end.
Proof.
  unfold file_groups. rewrite file_groups_fold, entries_of_summary, lookup_empty.
  destruct (matches_at res file_path name); reflexivity.
Qed.

End Report.

(** ** The matched texts of one file in the report *)

Section UniqueMatches.

Lemma od_get_append (k k' : string) (v : nat) (d : list (string * list nat)) :
  od_get k (od_append k' v d)
  = if String.eqb k k' then Some (default [] (od_get k d) ++ [v])
    else od_get k d.
Proof.
  induction d as [|[k0 vs] d IH]; simpl.
  - destruct (String.eqb k k'); reflexivity.
  - destruct (String.eqb k' k0) eqn:H0; simpl.
    + apply String.eqb_eq in H0. subst k0.
      destruct (String.eqb k k'); reflexivity.
    + destruct (String.eqb k k0) eqn:H1.
      * apply String.eqb_eq in H1. subst k0.
        rewrite String.eqb_sym, H0. reflexivity.
      * exact IH.
Qed.

Lemma od_append_keys (k : string) (v : nat) (d : list (string * list nat)) :
  map fst (od_append k v d)
  = map fst d ++ (if bool_decide (k ∈ map fst d) then [] else [k]).
Proof.
  induction d as [|[k0 vs] d IH]; cbn [od_append map fst app].
  - case_bool_decide as Hin; [|reflexivity].
    apply elem_of_nil in Hin. contradiction.
  - destruct (String.eqb k k0) eqn:H0; cbn [map fst].
    + apply String.eqb_eq in H0. subst k0.
      rewrite (bool_decide_eq_true_2 (k ∈ k :: map fst d)) by left.
      rewrite app_nil_r. reflexivity.
    + rewrite IH. cbn [app]. f_equal. f_equal.
      assert (k <> k0) by (intros ->; rewrite String.eqb_refl in H0; discriminate).
      rewrite (bool_decide_ext (k ∈ k0 :: map fst d) (k ∈ map fst d));
        [reflexivity|].
      rewrite elem_of_cons. tauto.
Qed.

Lemma lines_of_cons (text : string) (e : MatchEntry) (matches : list MatchEntry) :
  lines_of text (e :: matches)
  = option_list (if String.eqb (fst e) text then Some (snd e) else None)
    ++ lines_of text matches.
Proof. unfold lines_of. apply omap_cons_option_list. Qed.

Lemma unique_matches_fold (matches : list MatchEntry)
    (d : list (string * list nat)) :
  let d' := fold_left (fun d (e : MatchEntry) => od_append (fst e) (snd e) d)
                      matches d in
  (NoDup (map fst d) -> NoDup (map fst d'))
  /\ forall text,
       od_get text d'
       = match lines_of text matches with
         | [] => od_get text d
         | found => Some (default [] (od_get text d) ++ found)
         end.
Proof.
  revert d. induction matches as [|[m l] matches IH]; intros d; [split; auto|].
  cbn [fold_left fst snd]. destruct (IH (od_append m l d)) as [IHk IHg].
  split.
  - intros Hk. apply IHk. rewrite od_append_keys.
    destruct (bool_decide (m ∈ map fst d)) eqn:Hm.
    + rewrite app_nil_r. exact Hk.
    + apply bool_decide_eq_false_1 in Hm.
      apply NoDup_app. split; [exact Hk|]. split.
      * intros x Hx Hx'. apply list_elem_of_singleton in Hx'. subst x. contradiction.
      * apply NoDup_singleton.
  - intros text. rewrite IHg, od_get_append, lines_of_cons. cbn [fst snd].
    rewrite (String.eqb_sym text m).
    destruct (String.eqb m text); cbn [option_list app].
    + destruct (lines_of text matches); simpl; [reflexivity|].
      rewrite <- app_assoc. reflexivity.
    + reflexivity.
Qed.

Lemma sorted_nodup_is_increasing (l : list nat) :
  StronglySorted le l -> NoDup l -> StronglySorted lt l.
Proof.
  induction 1 as [|n l Hsorted IH Hall]; intros Hnodup; constructor.
  - apply IH. apply NoDup_cons in Hnodup as [_ Hnodup]. exact Hnodup.
  - apply NoDup_cons in Hnodup as [Hfresh _].
    rewrite Forall_forall in *. intros k Hk.
    specialize (Hall k Hk).
    assert (k <> n) by (intros ->; contradiction). lia.
Qed.

(** X13. For the matches of one pattern in one file the report shows each
    distinct matched text once, with the line numbers of all its
    occurrences; the line numbers are printed without repetition in
    strictly increasing order. *)
Theorem report_lists_each_text_once (matches : list MatchEntry) :
  NoDup (map fst (unique_matches matches))
  /\ (forall text,
        od_get text (unique_matches matches)
        = match lines_of text matches with
          | [] => None
          | found => Some found
          end)
  /\ (forall line_nums,
        StronglySorted lt (shown_line_nums line_nums)
        /\ forall n, n ∈ shown_line_nums line_nums <-> n ∈ line_nums).
Proof.
  unfold unique_matches.
  destruct (unique_matches_fold matches []) as [Hkeys Hget].
  split; [apply Hkeys; constructor|]. split.
  - intros text. rewrite Hget. simpl.
    destruct (lines_of text matches); reflexivity.
  - intros line_nums. unfold shown_line_nums. split.
    + apply sorted_nodup_is_increasing.
      * apply StronglySorted_merge_sort; apply _.
      * rewrite merge_sort_Permutation. apply NoDup_remove_dups.
    + intros n. rewrite merge_sort_Permutation. apply elem_of_remove_dups.
Qed.

End UniqueMatches.

(** ** Lines *)

Section Lines.

Lemma join_with_cons (sep a : ascii) (piece : string) (pieces : list string) :
  join_with sep (String a piece :: pieces)
  = String a (join_with sep (piece :: pieces)).
Proof. destruct pieces; reflexivity. Qed.

(** X14. The lines [scan_file] numbers are the lines of the content:
    joined again with line feeds they give the content back, and there is
    one more line than there are line feeds. *)
Theorem lines_join_back_to_content (content : string) :
  join_with PyStr.LF (PyStr.split PyStr.LF content) = content
  /\ length (PyStr.split PyStr.LF content) = S (count_char PyStr.LF content).
Proof.
  induction content as [|a rest [IHj IHl]]; [split; reflexivity|].
  cbn [PyStr.split count_char].
  pose proof (split_nonempty PyStr.LF rest) as Hne.
  destruct (Ascii.eqb a PyStr.LF) eqn:Ha.
  - apply Ascii.eqb_eq in Ha. subst a. split.
    + destruct (PyStr.split PyStr.LF rest) as [|p ps]; [contradiction|].
      cbn [join_with]. cbn [join_with] in IHj. rewrite IHj. reflexivity.
    + cbn [length]. rewrite IHl. reflexivity.
  - destruct (PyStr.split PyStr.LF rest) as [|p ps]; [contradiction|]. split.
    + rewrite join_with_cons, IHj. reflexivity.
    + cbn [length] in *. rewrite IHl. reflexivity.
Qed.

Lemma universal_newlines_no_cr (after_cr : bool) (s : string) :
  PyStr.has_char CR (universal_newlines after_cr s) = false.
Proof.
  revert after_cr. induction s as [|a s IH]; intros after_cr; [reflexivity|].
  cbn [universal_newlines].
  destruct (Ascii.eqb a "013") eqn:Hcr; [cbn; apply IH|].
  destruct (Ascii.eqb a PyStr.LF) eqn:Hlf.
  - destruct after_cr; [apply IH|]. cbn. apply IH.
  - cbn [PyStr.has_char]. unfold CR. rewrite Hcr. apply IH.
Qed.

(** A piece of a split has no character the whole has not. *)
Lemma split_pieces_lack_char (sep c : ascii) (s piece : string) :
  PyStr.has_char c s = false ->
  In piece (PyStr.split sep s) -> PyStr.has_char c piece = false.
Proof.
  revert piece. induction s as [|a s IH]; simpl; intros piece Hs Hin.
  - destruct Hin as [<-|[]]. reflexivity.
  - apply orb_false_iff in Hs as [Ha Hs].
    destruct (Ascii.eqb a sep).
    + destruct Hin as [<-|Hin]; [reflexivity|]. apply IH; assumption.
    + destruct (PyStr.split sep s) as [|p ps] eqn:Hsplit.
      * destruct Hin as [<-|[]]. simpl. rewrite Ha. reflexivity.
      * destruct Hin as [<-|Hin].
        -- simpl. rewrite Ha. simpl. apply IH; [exact Hs|left; reflexivity].
        -- apply IH; [exact Hs|right; exact Hin].
Qed.

Lemma try_encodings_no_cr (w : World) (file_path : string)
    (encs : list Encoding) (content : string) :
  try_encodings w file_path encs = ReadReturned content ->
  PyStr.has_char CR content = false.
Proof.
  induction encs as [|enc encs IH]; simpl; [discriminate|].
  unfold read_text at 1.
  destruct (open_rb w file_path); [|discriminate].
  destruct (decode_text w enc data); [|exact IH|discriminate].
  intros [= <-]. apply universal_newlines_no_cr.
Qed.

(** X15. A matched text that [scan_file] returns for a file contains
    neither a line feed nor a carriage return: files are read in text mode,
    which turns every line ending into a line feed, and matching is done
    within the lines. *)
Theorem matched_texts_have_no_line_ending
    (w : World) (file_path : string) (self self' : Extractor)
    (file_results : gmap string (list MatchEntry))
    (name : string) (matches : list MatchEntry) (text : string) (n : nat) :
  scan_file w file_path self = (Ok file_results, self') ->
  file_results !! name = Some matches ->
  In (text, n) matches ->
  PyStr.has_char PyStr.LF text = false /\ PyStr.has_char CR text = false.
Proof.
  rewrite scan_file_outcome. intros [= Hres _] Hname Hin.
  unfold file_outcome in Hres.
  destruct (scan_cancelled self);
    [injection Hres as <-; rewrite lookup_empty in Hname; discriminate|].
  destruct (is_text_file w file_path);
    [|injection Hres as <-; rewrite lookup_empty in Hname; discriminate].
  destruct (try_encodings w file_path encodings) as [content|msg|] eqn:Hread;
    try (injection Hres as <-; rewrite lookup_empty in Hname; discriminate).
  destruct (PyStr.is_empty content);
    [injection Hres as <-; rewrite lookup_empty in Hname; discriminate|].
  simpl in Hres.
  pose proof (scan_content_lookup _ _ _ _ _ Hres name) as Hlookup.
  rewrite Hname in Hlookup. simpl in Hlookup.
  destruct (compiled_patterns self !! name) as [pat|]; [|discriminate].
  simpl in Hlookup. unfold rule_entry in Hlookup.
  destruct (patterns self !! name) as [info|]; [|discriminate].
  destruct (get_enabled info); [|discriminate].
  assert (Hm : matches = find_matches pat (PyStr.split PyStr.LF content)).
  { destruct (find_matches pat (PyStr.split PyStr.LF content));
      [discriminate|congruence]. }
  subst matches.
  apply find_matches_In in Hin as (line & m & _ & Hnth & _ & ->).
  apply nth_error_In in Hnth.
  split; apply has_char_substring.
  - eapply split_pieces_lack_sep. exact Hnth.
  - eapply split_pieces_lack_char; [|exact Hnth].
    eapply try_encodings_no_cr. exact Hread.
Qed.

End Lines.

(** ** Names without a suffix *)

Section Suffixes.

Lemma rfind_absent (c : ascii) (s : string) :
  PyStr.has_char c s = false -> Path.rfind c s = None.
Proof.
  induction s as [|a s IH]; simpl; [reflexivity|].
  intros H. apply orb_false_iff in H as [Ha Hs].
  rewrite (IH Hs), Ha. reflexivity.
Qed.

Lemma suffix_of_plain_name (p : string) :
  PyStr.has_char "." (Path.name p) = false -> Path.suffix p = "".
Proof. intros H. unfold Path.suffix. rewrite (rfind_absent _ _ H). reflexivity. Qed.

Lemma suffix_of_dot_name (p rest : string) :
  Path.name p = String "." rest ->
  PyStr.has_char "." rest = false ->
  Path.suffix p = "".
Proof.
  intros Hname Hrest. unfold Path.suffix. rewrite Hname. simpl.
  rewrite (rfind_absent _ _ Hrest). reflexivity.
Qed.

(** X16. A file whose name has no dot ([Makefile]) or only the leading dot
    of a hidden file ([.env], [.gitignore]) has an empty suffix, so neither
    extension list applies to it, not even the entries [.env], [.gitignore],
    [.makefile] of the text list: it is classified by its MIME type, when
    one is guessed, and else by its leading bytes. *)
Theorem suffixless_names_are_classified_by_content
    (w : World) (file_path : string) :
  PyStr.has_char "." (Path.name file_path) = false
  \/ (exists rest, Path.name file_path = String "." rest
                   /\ PyStr.has_char "." rest = false) ->
  Path.suffix file_path = ""
  /\ is_text_file w file_path = classify_without_suffix w file_path.
Proof.
  intros Hname.
  assert (Hsfx : Path.suffix file_path = "").
  { destruct Hname as [H|(rest & Hn & Hr)].
    - apply suffix_of_plain_name. exact H.
    - eapply suffix_of_dot_name; eauto. }
  split; [exact Hsfx|].
  unfold is_text_file, classify_without_suffix. rewrite Hsfx.
  change (str_lower w "") with "".
  rewrite (bool_decide_eq_false_2 ("" ∈ binary_extensions))
    by (apply (bool_decide_eq_false_1 _); vm_compute; reflexivity).
  rewrite (bool_decide_eq_false_2 ("" ∈ text_extensions))
    by (apply (bool_decide_eq_false_1 _); vm_compute; reflexivity).
  reflexivity.
Qed.

End Suffixes.

(** ** The configuration file *)

Section Configuration.

Variable io : ConfigIO.
Variable defaults : gmap string PatternInfo.

(** X17. [load_patterns] never changes a configuration file that exists,
    and what it returns is the rule set parsed from the file as it is after
    the call, or else the defaults. When the file does not exist, can be
    written and read, and [json] reads back what it wrote, the call creates
    the file and returns the defaults, and loading again returns the same
    rules and leaves the file as it is. *)
Theorem load_patterns_creates_once (file : option string) :
  let '(rules, file', _) := load_patterns io defaults file in
  (forall text, file = Some text -> file' = Some text)
  /\ (rules = defaults
      \/ exists text, file' = Some text /\ json_load io text = Some rules)
  /\ (file = None -> can_write io = true -> can_read io = true ->
      json_load io (json_dump io defaults) = Some defaults ->
      rules = defaults
      /\ file' = Some (json_dump io defaults)
      /\ fst (load_patterns io defaults file') = (defaults, file')).
Proof.
  unfold load_patterns, create_default_patterns_file.
  destruct file as [text|].
  - destruct (can_read io).
    + destruct (json_load io text) as [rules|] eqn:Hload.
      * split; [auto|]. split; [right; eauto|discriminate].
      * split; [auto|]. split; [left; reflexivity|discriminate].
    + split; [auto|]. split; [left; reflexivity|discriminate].
  - destruct (can_write io) eqn:Hw.
    + destruct (can_read io) eqn:Hr.
      * destruct (json_load io (json_dump io defaults)) as [rules|] eqn:Hload.
        -- split; [discriminate|]. split; [right; eauto|].
           intros _ _ _ [= ->]. rewrite Hload. auto.
        -- split; [discriminate|]. split; [left; reflexivity|].
           intros _ _ _ [=].
      * split; [discriminate|]. split; [left; reflexivity|].
        intros _ _ [=].
    + split; [discriminate|]. split; [left; reflexivity|].
      intros _ [=].
Qed.

End Configuration.

(** ** The further properties in the small world *)

Lemma lists_grow_in_the_order_of_the_appends_witness :
  let after := snd (scan_directory Demo.world "proj" 3 Sample.reversed
                      Demo.extractor) in
  let appended := appending (get_all_files Demo.world "proj") Sample.reversed in
  scanned_files after
  = scanned_files Demo.extractor ++ omap (scanned_of Demo.world) appended
  /\ skipped_files after
     = skipped_files Demo.extractor ++ omap (skipped_of Demo.world) appended
  /\ error_files after
     = error_files Demo.extractor ++ omap (errored_of Demo.world) appended.
Proof.
  apply (lists_grow_in_the_order_of_the_appends Demo.world "proj" 3
           Sample.reversed Demo.extractor).
  - reflexivity.
  - reflexivity.
  - reflexivity.
  - exact (init_compiled_from_rules Demo.world Demo.rules).
  - exact (init_callbacks_return Demo.world Demo.rules).
Defined.

(** The calls append in the reverse order of discovery there. *)
Example appends_in_the_reverse_order :
  appending (get_all_files Demo.world "proj") Sample.reversed
  = ["proj/src/c.env"; "proj/b.png"; "proj/a.txt"]
  /\ scanned_files (snd (scan_directory Demo.world "proj" 3 Sample.reversed
                           Demo.extractor))
     = ["proj/src/c.env"; "proj/a.txt"].
Proof. split; vm_compute; reflexivity. Qed.

Lemma every_file_is_recorded_once_witness :
  Permutation (recorded_paths Demo.once)
              (recorded_paths Demo.extractor ++ get_all_files Demo.world "proj")
  /\ (recorded_paths Demo.extractor = [] ->
      NoDup (get_all_files Demo.world "proj") ->
      NoDup (recorded_paths Demo.once)).
Proof.
  apply (every_file_is_recorded_once Demo.world "proj" 8
           (Demo.in_order Demo.world) Demo.extractor).
  - reflexivity.
  - reflexivity.
  - reflexivity.
  - exact (init_compiled_from_rules Demo.world Demo.rules).
  - exact (init_callbacks_return Demo.world Demo.rules).
  - unfold schedule_of. vm_compute. auto.
  - vm_compute. reflexivity.
  - intros file_path Hin [_ Hread]. vm_compute in Hin.
    destruct Hin as [<-|[<-|[<-|[]]]]; vm_compute in Hread; discriminate.
Defined.

Lemma results_hold_the_matches_of_each_file_witness :
  results Demo.once !! "proj/a.txt"
  = if decide ("proj/a.txt" ∈ get_all_files Demo.world "proj")
    then match file_outcome Demo.world "proj/a.txt" false with
         | Scanned content =>
             if bool_decide (scan_spec Demo.world Demo.rules content = ∅) then None
             else Some (scan_spec Demo.world Demo.rules content)
         | _ => None
         end
    else None.
Proof.
  apply (results_hold_the_matches_of_each_file Demo.world Demo.rules "proj" 8
           (Demo.in_order Demo.world) "proj/a.txt").
  - reflexivity.
  - reflexivity.
  - reflexivity.
  - unfold schedule_of. vm_compute. auto.
  - vm_compute. reflexivity.
  - by_evaluation.
Defined.

Lemma completion_order_is_immaterial_witness :
  let after1 :=
    snd (scan_directory Demo.world "proj" 3 (Demo.in_order Demo.world)
           Demo.extractor) in
  let after2 :=
    snd (scan_directory Demo.world "proj" 3 Sample.reversed Demo.extractor) in
  results after1 = results after2
  /\ sensitive_items (stats after1) = sensitive_items (stats after2)
  /\ stat_scanned_files (stats after1) = stat_scanned_files (stats after2)
  /\ stat_skipped_files (stats after1) = stat_skipped_files (stats after2)
  /\ Permutation (scanned_files after1) (scanned_files after2)
  /\ Permutation (skipped_files after1) (skipped_files after2)
  /\ (callbacks_return Demo.extractor ->
      stats after1 = stats after2
      /\ Permutation (error_files after1) (error_files after2)).
Proof.
  apply (completion_order_is_immaterial Demo.world "proj" 3
           (Demo.in_order Demo.world) Sample.reversed Demo.extractor).
  - reflexivity.
  - reflexivity.
  - exact (init_compiled_from_rules Demo.world Demo.rules).
  - by_evaluation.
  - unfold schedule_of. vm_compute. auto.
  - vm_compute. reflexivity.
  - unfold schedule_of. vm_compute. auto.
  - vm_compute. reflexivity.
Defined.


(** In that schedule the call for ["proj/a.txt"] is in flight when the
    scan is cancelled: the file is put on [scanned_files] afterwards, its
    three matches are never merged, and ["proj/b.png"], whose task starts
    later, is on no list. *)
Example call_in_flight_still_appends :
  let at_cancel :=
    snd (scan_directory Demo.world "proj" 2
           (Sample.before_cancel ++ [CancelRequest]) Demo.extractor) in
  let after :=
    snd (scan_directory Demo.world "proj" 2 Sample.cancelled_early
           Demo.extractor) in
  scanned_files at_cancel = ["proj/src/c.env"]
  /\ scanned_files after = ["proj/src/c.env"; "proj/a.txt"]
  /\ skipped_files after = []
  /\ results after = ∅
  /\ sensitive_items (stats after) = 0
  /\ task_results Demo.world Demo.extractor "proj/a.txt" = Demo.a_txt_results.
Proof. repeat split; vm_compute; reflexivity. Qed.

Lemma counters_never_exceed_total_witness :
  let after :=
    snd (scan_directory Demo.world "proj" 2 Sample.cancelled_early
           Demo.extractor) in
  stat_scanned_files (stats after) + stat_skipped_files (stats after)
  + stat_error_files (stats after)
  <= recorded Demo.extractor + total_files (stats after).
Proof.
  apply (counters_never_exceed_total Demo.world "proj" 2 Sample.cancelled_early
           Demo.extractor).
  - reflexivity.
  - reflexivity.
  - reflexivity.
  - exact (init_compiled_from_rules Demo.world Demo.rules).
  - exact (init_callbacks_return Demo.world Demo.rules).
Defined.

Lemma sensitive_items_count_the_results_witness :
  items_count_results Demo.twice.
Proof.
  apply (proj2 (sensitive_items_count_the_results Demo.world "proj" 8
                  (Demo.in_order Demo.world) Demo.once)).
  vm_compute. reflexivity.
Defined.

Lemma results_belong_to_scanned_files_witness :
  results_of_scanned_files Demo.once.
Proof.
  apply (proj2 (results_belong_to_scanned_files Demo.world "proj" 8
                  (Demo.in_order Demo.world) Demo.extractor)).
  apply (proj1 (results_belong_to_scanned_files Demo.world "proj" 8 []
                  Demo.extractor)
           Demo.rules).
Defined.

Lemma listed_paths_begin_with_the_top_witness :
  String.prefix "proj" "proj/src/c.env" = true.
Proof.
  apply (listed_paths_begin_with_the_top Demo.world "./proj" "proj/src/c.env").
  vm_compute. auto.
Defined.

Lemma matched_texts_have_no_line_ending_witness :
  PyStr.has_char PyStr.LF "test@example.com" = false
  /\ PyStr.has_char CR "test@example.com" = false.
Proof.
  apply (matched_texts_have_no_line_ending Demo.world "proj/a.txt"
           Demo.extractor
           (snd (scan_file Demo.world "proj/a.txt" Demo.extractor))
           Demo.a_txt_results "mail" Demo.mail_matches "test@example.com" 2).
  - apply injective_projections; cbn [fst snd]; [|exact eq_refl].
    vm_compute. reflexivity.
  - vm_compute. reflexivity.
  - left. reflexivity.
Defined.

Lemma suffixless_names_are_classified_by_content_witness :
  Path.suffix "proj/.env" = ""
  /\ is_text_file Demo.world "proj/.env"
     = classify_without_suffix Demo.world "proj/.env".
Proof.
  apply (suffixless_names_are_classified_by_content Demo.world "proj/.env").
  right. exists "env". split; reflexivity.
Defined.

Lemma load_patterns_creates_once_witness :
  fst (load_patterns Sample.io Demo.rules None)
  = (Demo.rules, Some (json_dump Sample.io Demo.rules))
  /\ fst (load_patterns Sample.io Demo.rules
            (Some (json_dump Sample.io Demo.rules)))
     = (Demo.rules, Some (json_dump Sample.io Demo.rules)).
Proof.
  pose proof (load_patterns_creates_once Sample.io Demo.rules None) as H.
  destruct (load_patterns Sample.io Demo.rules None) as [[rules file'] printed].
  destruct H as (_ & _ & H).
  assert (Hback : json_load Sample.io (json_dump Sample.io Demo.rules)
                  = Some Demo.rules) by (vm_compute; reflexivity).
  destruct (H eq_refl eq_refl eq_refl Hback) as (Hrules & Hfile & Hagain).
  subst rules file'. split; [reflexivity|exact Hagain].
Defined.
